(** * ip-cam-monitor: a shallow embedding of the alarm-photo pipeline

    The development follows the Python sources:
    - [alarm_photo_extractor.py]: wire codec (packet headers, login hash),
      the tagged-block demuxer;
    - [alarm_hybrid_extractor.py]: candidate picker, download retries, the
      two-tier extraction policy;
    - [alarm_index.py]: the backward sliding-window index scanner;
    - [alarm_polling.py]: the poll loop and its known-files set.

    Conventions.  Byte strings are [list byte]; Python [int]s are [Z];
    [datetime] values are [Z] seconds: the camera's index has a resolution
    of one second, and [strftime] drops the microseconds of
    [datetime.now()] wherever a time is sent to it; the target of the
    candidate picker alone is counted in microseconds.  Python [float]s
    that are computed with are binary64 values with their rounding; a
    Python [str] received from the camera is a [string]; a raised
    exception is the left injection of [res].  Debug directories and the
    files written into them are left out. *)

From Stdlib Require Import ZArith List String Ascii Strings.Byte QArith Qminmax Lia Bool.
From Stdlib Require Import Qabs Qpower Floats.
From stdpp Require Import base gmap sets list strings sorting.
Import ListNotations.

#[local] Open Scope Z_scope.

(** ** Python runtime: exceptions, slices, stable sort, [str.strip] *)

Module Py.

Definition bytes := list byte.

Definition b2z (b : byte) : Z := Z.of_N (Byte.to_N b).

Definition z2b (z : Z) : byte :=
  match Byte.of_N (Z.to_N (z mod 256)) with
  | Some b => b
  | None => x00
  end.

(** An exception: its class name and [str(e)]. *)
Inductive exn := Exn (cls msg : string).

Definition exn_msg (e : exn) : string := let 'Exn _ m := e in m.

Definition res (A : Type) : Type := (exn + A)%type.

#[global] Instance res_ret : MRet res := fun A a => inr a.
#[global] Instance res_bind : MBind res :=
  fun A B f m => match m with inl e => inl e | inr a => f a end.

Definition raise {A} (cls msg : string) : res A := inl (Exn cls msg).

(** [l[:n]] for a Python int [n] (a negative [n] counts from the end). *)
Definition slice_to {A} (n : Z) (l : list A) : list A :=
  if 0 <=? n then take (Z.to_nat n) l
  else take (length l - Z.to_nat (- n))%nat l.

(** [l[a:b]] for [0 <= a], [0 <= b]. *)
Definition slice {A} (a b : nat) (l : list A) : list A :=
  take (b - a)%nat (drop a l).

(** [l[0::2]]; [l[1::2]] is [every_other (tail l)]. *)
Fixpoint every_other {A} (l : list A) : list A :=
  match l with
  | [] => []
  | [x] => [x]
  | x :: _ :: r => x :: every_other r
  end.

(** [list.sort] is stable; [le x y] says that [x] may stay in front of
    [y].  For [reverse=True] the caller passes the reversed comparison:
    equal keys keep their original order there as well. *)
Fixpoint insert_by {A} (le : A -> A -> bool) (x : A) (l : list A) : list A :=
  match l with
  | [] => [x]
  | y :: l' => if le x y then x :: l else y :: insert_by le x l'
  end.

Definition sort_by {A} (le : A -> A -> bool) (l : list A) : list A :=
  foldr (insert_by le) [] l.

(** [str.isspace] on code points below 256. *)
Definition is_space (c : ascii) : bool :=
  let n := nat_of_ascii c in
  ((9 <=? n) && (n <=? 13) || (28 <=? n) && (n <=? 32)
   || (n =? 133) || (n =? 160))%nat.

Fixpoint lstrip (s : string) : string :=
  match s with
  | EmptyString => EmptyString
  | String c r => if is_space c then lstrip r else s
  end.

Fixpoint rstrip (s : string) : string :=
  match s with
  | EmptyString => EmptyString
  | String c r =>
      match rstrip r with
      | EmptyString => if is_space c then EmptyString else String c EmptyString
      | r' => String c r'
      end
  end.

Definition strip (s : string) : string := rstrip (lstrip s).

(** Truthiness of a [str]. *)
Definition nonempty (s : string) : bool :=
  match s with EmptyString => false | _ => true end.

End Py.
Import Py.

(** ** Python's [struct] module, for the format codes the codec uses *)

Module Struct.

Inductive order := Native | Little | Big.
Inductive code := cB | cH | cI | cx.

Definition size_of (c : code) : nat :=
  match c with cB | cx => 1 | cH => 2 | cI => 4 end.

(** Native mode aligns every item on its own size; the standard modes
    ([<], [>]) never pad. *)
Definition align_of (o : order) (c : code) : nat :=
  match o with Native => size_of c | _ => 1%nat end.

Definition align_up (off a : nat) : nat := ((off + a - 1) / a * a)%nat.

Definition digit_of (c : ascii) : option nat :=
  let n := nat_of_ascii c in
  if ((48 <=? n) && (n <=? 57))%nat then Some (n - 48)%nat else None.

Definition code_of (c : ascii) : option code :=
  (match c with
   | "B" => Some cB
   | "H" => Some cH
   | "I" => Some cI
   | "x" => Some cx
   | _ => None
   end)%char.

Fixpoint parse_codes (s : list ascii) (cnt : option nat) : option (list code) :=
  match s with
  | [] => match cnt with None => Some [] | Some _ => None end
  | c :: s' =>
      match digit_of c with
      | Some d => parse_codes s' (Some (10 * default 0 cnt + d)%nat)
      | None =>
          match code_of c with
          | Some k =>
              rest ← parse_codes s' None;
              Some (replicate (default 1%nat cnt) k ++ rest)
          | None => None
          end
      end
  end.

Definition parse (fmt : string) : option (order * list code) :=
  (match list_ascii_of_string fmt with
   | "<" :: s => cs ← parse_codes s None; Some (Little, cs)
   | ">" :: s => cs ← parse_codes s None; Some (Big, cs)
   | "@" :: s => cs ← parse_codes s None; Some (Native, cs)
   | s => cs ← parse_codes s None; Some (Native, cs)
   end)%char.

(** Offset of every item, and the total size. *)
Fixpoint layout (o : order) (cs : list code) (off : nat)
  : list (code * nat) * nat :=
  match cs with
  | [] => ([], off)
  | c :: cs' =>
      let a := align_up off (align_of o c) in
      let '(l, total) := layout o cs' (a + size_of c)%nat in
      ((c, a) :: l, total)
  end.

(** [struct.calcsize(fmt)], [struct.Struct(fmt).size]. *)
Definition calcsize (fmt : string) : option nat :=
  '(o, cs) ← parse fmt; Some (snd (layout o cs 0)).

Fixpoint le_int (bs : bytes) : Z :=
  match bs with
  | [] => 0
  | b :: r => b2z b + 256 * le_int r
  end.

Definition be_int (bs : bytes) : Z := le_int (rev bs).

(** The host is little-endian (x86, ARM): native order reads as [<]. *)
Definition read_int (o : order) (bs : bytes) : Z :=
  match o with Big => be_int bs | _ => le_int bs end.

Definition write_int (o : order) (n : nat) (v : Z) : bytes :=
  let le := map (fun i => z2b (v / 256 ^ Z.of_nat i)) (seq 0 n) in
  match o with Big => rev le | _ => le end.

Definition field (o : order) (data : bytes) (it : code * nat) : list Z :=
  match it with
  | (cx, _) => []
  | (c, off) => [read_int o (take (size_of c) (drop off data))]
  end.

(** [struct.unpack(fmt, data)]; [None] is [struct.error]. *)
Definition unpack (fmt : string) (data : bytes) : option (list Z) :=
  '(o, cs) ← parse fmt;
  let '(lay, total) := layout o cs 0 in
  if decide (length data = total) then Some (flat_map (field o data) lay)
  else None.

Fixpoint pack_items (o : order) (lay : list (code * nat)) (off : nat)
    (vals : list Z) : option bytes :=
  match lay with
  | [] => match vals with [] => Some [] | _ => None end
  | (c, a) :: lay' =>
      let padding := replicate (a - off) x00 in
      match c with
      | cx =>
          rest ← pack_items o lay' (a + 1)%nat vals;
          Some (padding ++ [x00] ++ rest)
      | _ =>
          match vals with
          | [] => None
          | v :: vals' =>
              if (0 <=? v) && (v <? 256 ^ Z.of_nat (size_of c)) then
                rest ← pack_items o lay' (a + size_of c)%nat vals';
                Some (padding ++ write_int o (size_of c) v ++ rest)
              else None
          end
      end
  end.

(** [struct.pack(fmt, *vals)]; [None] is [struct.error]. *)
Definition pack (fmt : string) (vals : list Z) : option bytes :=
  '(o, cs) ← parse fmt;
  pack_items o (fst (layout o cs 0)) 0 vals.

End Struct.

(** ** MD5 (RFC 1321), the function behind [hashlib.md5(...).digest()] *)

Module MD5.

Definition mask32 (x : Z) : Z := x mod 2 ^ 32.

Definition rotl (x c : Z) : Z :=
  mask32 (Z.lor (Z.shiftl x c) (Z.shiftr x (32 - c))).

Definition not32 (x : Z) : Z := Z.lxor x 0xffffffff.

Definition shifts : list Z :=
  [7; 12; 17; 22; 7; 12; 17; 22; 7; 12; 17; 22; 7; 12; 17; 22;
   5; 9; 14; 20; 5; 9; 14; 20; 5; 9; 14; 20; 5; 9; 14; 20;
   4; 11; 16; 23; 4; 11; 16; 23; 4; 11; 16; 23; 4; 11; 16; 23;
   6; 10; 15; 21; 6; 10; 15; 21; 6; 10; 15; 21; 6; 10; 15; 21].

Definition sines : list Z :=
  [0xd76aa478; 0xe8c7b756; 0x242070db; 0xc1bdceee;
   0xf57c0faf; 0x4787c62a; 0xa8304613; 0xfd469501;
   0x698098d8; 0x8b44f7af; 0xffff5bb1; 0x895cd7be;
   0x6b901122; 0xfd987193; 0xa679438e; 0x49b40821;
   0xf61e2562; 0xc040b340; 0x265e5a51; 0xe9b6c7aa;
   0xd62f105d; 0x02441453; 0xd8a1e681; 0xe7d3fbc8;
   0x21e1cde6; 0xc33707d6; 0xf4d50d87; 0x455a14ed;
   0xa9e3e905; 0xfcefa3f8; 0x676f02d9; 0x8d2a4c8a;
   0xfffa3942; 0x8771f681; 0x6d9d6122; 0xfde5380c;
   0xa4beea44; 0x4bdecfa9; 0xf6bb4b60; 0xbebfbc70;
   0x289b7ec6; 0xeaa127fa; 0xd4ef3085; 0x04881d05;
   0xd9d4d039; 0xe6db99e5; 0x1fa27cf8; 0xc4ac5665;
   0xf4292244; 0x432aff97; 0xab9423a7; 0xfc93a039;
   0x655b59c3; 0x8f0ccc92; 0xffeff47d; 0x85845dd1;
   0x6fa87e4f; 0xfe2ce6e0; 0xa3014314; 0x4e0811a1;
   0xf7537e82; 0xbd3af235; 0x2ad7d2bb; 0xeb86d391].

Definition state : Type := Z * Z * Z * Z.

Definition init : state := (0x67452301, 0xefcdab89, 0x98badcfe, 0x10325476).

Definition mix (i : nat) (b c d : Z) : Z * nat :=
  if (i <? 16)%nat then
    (Z.lor (Z.land b c) (Z.land (not32 b) d), i)
  else if (i <? 32)%nat then
    (Z.lor (Z.land d b) (Z.land (not32 d) c), (5 * i + 1) mod 16)%nat
  else if (i <? 48)%nat then
    (Z.lxor (Z.lxor b c) d, (3 * i + 5) mod 16)%nat
  else
    (Z.lxor c (Z.lor b (not32 d)), (7 * i) mod 16)%nat.

Definition round (m : list Z) (st : state) (i : nat) : state :=
  let '(a, b, c, d) := st in
  let '(f, g) := mix i b c d in
  let f' := mask32 (f + a + nth i sines 0 + nth g m 0) in
  (d, mask32 (b + rotl f' (nth i shifts 0)), b, c).

Definition words (block : bytes) : list Z :=
  map (fun j => Struct.le_int (take 4 (drop (4 * j) block))) (seq 0 16).

Definition compress (st : state) (block : bytes) : state :=
  let '(a0, b0, c0, d0) := st in
  let '(a, b, c, d) := foldl (round (words block)) st (seq 0 64) in
  (mask32 (a0 + a), mask32 (b0 + b), mask32 (c0 + c), mask32 (d0 + d)).

Definition pad (msg : bytes) : bytes :=
  let n := Z.of_nat (length msg) in
  msg ++ [x80] ++ replicate (Z.to_nat ((55 - n) mod 64)) x00
      ++ Struct.write_int Struct.Little 8 (8 * n).

Definition blocks (data : bytes) : list bytes :=
  map (fun k => take 64 (drop (64 * k) data)) (seq 0 (length data / 64)).

Definition digest (msg : bytes) : bytes :=
  let '(a, b, c, d) := foldl compress init (blocks (pad msg)) in
  Struct.write_int Struct.Little 4 a ++ Struct.write_int Struct.Little 4 b
    ++ Struct.write_int Struct.Little 4 c ++ Struct.write_int Struct.Little 4 d.

End MD5.

(** ** Wire codec: [alarm_photo_extractor.py], lines 13-76 *)

Module Wire.

(** Legacy control header used by current project dvrip sender *)
Definition _HDR_OLD : string := "BB2xII2xHI".

(** DVRIP packet header (same as dvrip Packet struct) *)
Definition _HDR_NEW : string := "<BBxxIIBBHI".

(** [str.encode("utf-8")] of one code point; surrogates raise
    [UnicodeEncodeError], a [str] holds nothing above 0x10FFFF. *)
Definition utf8_encode_cp (c : Z) : option bytes :=
  if (c <? 0) then None
  else if c <? 0x80 then Some [z2b c]
  else if c <? 0x800 then
    Some [z2b (Z.lor 0xC0 (Z.shiftr c 6)); z2b (Z.lor 0x80 (Z.land c 0x3F))]
  else if (0xD800 <=? c) && (c <=? 0xDFFF) then None
  else if c <? 0x10000 then
    Some [z2b (Z.lor 0xE0 (Z.shiftr c 12));
          z2b (Z.lor 0x80 (Z.land (Z.shiftr c 6) 0x3F));
          z2b (Z.lor 0x80 (Z.land c 0x3F))]
  else if c <=? 0x10FFFF then
    Some [z2b (Z.lor 0xF0 (Z.shiftr c 18));
          z2b (Z.lor 0x80 (Z.land (Z.shiftr c 12) 0x3F));
          z2b (Z.lor 0x80 (Z.land (Z.shiftr c 6) 0x3F));
          z2b (Z.lor 0x80 (Z.land c 0x3F))]
  else None.

(** A password is a [str]: a list of code points. *)
Fixpoint utf8_encode (s : list Z) : res bytes :=
  match s with
  | [] => inr []
  | c :: r =>
      match utf8_encode_cp c with
      | None => raise "UnicodeEncodeError" "surrogates not allowed"
      | Some bs => rest ← utf8_encode r; inr (bs ++ rest)
      end
  end.

Definition chars : string :=
  "0123456789ABCDEFGHIJKLMNOPQRSTUVWXYZabcdefghijklmnopqrstuvwxyz".

(** [chars[i]] *)
Definition chars_at (i : Z) : res ascii :=
  match String.get (Z.to_nat i) chars with
  | Some c => inr c
  | None => raise "IndexError" "string index out of range"
  end.

Fixpoint join_chars (l : list (byte * byte)) : res string :=
  match l with
  | [] => inr EmptyString
  | (a, b) :: r =>
      c ← chars_at ((b2z a + b2z b) mod 62);
      rest ← join_chars r;
      inr (String c rest)
  end.

Definition _sofia_hash (password : list Z) : res string :=
  data ← utf8_encode password;
  let md5 := MD5.digest data in
  join_chars (zip (every_other md5) (every_other (tail md5))).

(** The derivation in the words of the specification: the [i]-th
    character of the token is the alphabet entry at (digest byte [2i] +
    digest byte [2i+1]) modulo 62. *)
Definition sofia_spec_char (digest : bytes) (i : nat) : ascii :=
  let a := b2z (nth (2 * i) digest x00) in
  let b := b2z (nth (2 * i + 1) digest x00) in
  default Ascii.zero (String.get (Z.to_nat ((a + b) mod 62)) chars).

Definition sofia_spec (digest : bytes) : string :=
  string_of_list_ascii
    (map (sofia_spec_char digest) (seq 0 (length digest / 2))).

(** Code points a [str] can be encoded from: no surrogates. *)
Definition scalar_value (c : Z) : Prop :=
  0 <= c <= 0x10FFFF /\ ~ (0xD800 <= c <= 0xDFFF).

(** A socket is modelled by the bytes its peer delivers before the
    connection ends; [recv] may cut them into chunks of any size, which
    [_recvn] glues back together. *)
Definition sock := bytes.

Definition _recvn (s : sock) (n : nat) : res (bytes * sock) :=
  if decide (n <= length s)%nat then inr (take n s, drop n s)
  else raise "ConnectionError" "socket closed".

Record old_packet := OldPacket {
  o_sess : Z; o_seq : Z; o_msgid : Z; o_len : Z; o_raw : bytes }.

Record new_packet := NewPacket {
  n_ver : Z; n_sess : Z; n_seq : Z; n_b1 : Z; n_b2 : Z; n_msgid : Z;
  n_len : Z; n_payload : bytes }.

(** [_send_old]: the bytes handed to [sendall]; [payload] is the UTF-8
    JSON text of the request. *)
Definition _send_old (session seq msgid : Z) (payload : bytes) : res bytes :=
  match Struct.pack _HDR_OLD
          [0xFF; 0x00; session; seq; msgid; Z.of_nat (length payload) + 2] with
  | Some pkt => inr (pkt ++ payload ++ [x0a; x00])
  | None => raise "struct.error" "argument out of range"
  end.

(** [_recv_old_json]; the ["json"] entry of the result is
    [json.loads] of [o_raw] and is not part of the framing. *)
Definition _recv_old_json (s : sock) : res (old_packet * sock) :=
  '(hdr, s1) ← _recvn s 20;
  match Struct.unpack _HDR_OLD hdr with
  | Some [_; _; sess; seq; msgid; dlen] =>
      '(data, s2) ← _recvn s1 (Z.to_nat dlen);
      inr (OldPacket sess seq msgid dlen data, s2)
  | _ => raise "struct.error" "unpack requires a buffer of 20 bytes"
  end.

Definition _recv_new_packet (s : sock) : res (new_packet * sock) :=
  match Struct.calcsize _HDR_NEW with
  | None => raise "struct.error" "bad char in struct format"
  | Some size =>
      '(hdr, s1) ← _recvn s size;
      match Struct.unpack _HDR_NEW hdr with
      | Some [magic; ver; sess; seq; b1; b2; msgid; dlen] =>
          if negb (magic =? 0xFF) then raise "ValueError" "invalid DVRIP magic"
          else
            '(payload, s2) ← (if negb (dlen =? 0) then _recvn s1 (Z.to_nat dlen)
                              else inr ([], s1));
            inr (NewPacket ver sess seq b1 b2 msgid dlen payload, s2)
      | _ => raise "struct.error" "unpack requires a buffer"
      end
  end.

End Wire.

(** ** Media demuxer: [_extract_media_from_1426] *)

Module Demux.

(** Loop variables of [_extract_media_from_1426]. *)
Record st := St { cursor : nat; remain : Z; out : bytes }.

(** [struct.unpack(fmt, data)[k]] *)
Definition nth_field (fmt : string) (k : nat) (data : bytes) : option Z :=
  l ← Struct.unpack fmt data; l !! k.

(** The tail of the loop body, after the header of a block was read (or
    while a block is still being copied). *)
Definition copy (s : bytes) (cursor : nat) (remain : Z) (out : bytes)
  : bytes + st :=
  let take := Z.min remain (Z.of_nat (length s) - Z.of_nat cursor) in
  if take <=? 0 then inl out
  else
    let e := (cursor + Z.to_nat take)%nat in
    inr (St e (remain - take) (out ++ slice cursor e s)).

(** One iteration of the [while] body: [inl out] is [break], [inr x] the
    state at the next test of the loop condition ([continue] included);
    [None] is a [struct.error]. *)
Definition step (s : bytes) (x : st) : option (bytes + st) :=
  let n := length s in
  if remain x =? 0 then
    if (n <? cursor x + 4)%nat then Some (inl (out x))
    else
      dtype ← nth_field ">I" 0 (slice (cursor x) (cursor x + 4) s);
      let cursor := (cursor x + 4)%nat in
      if (dtype =? 0x1FC) || (dtype =? 0x1FE) then
        if (n <? cursor + 12)%nat then Some (inl (out x))
        else
          remain ← nth_field "BBBBII" 5 (slice cursor (cursor + 12) s);
          Some (copy s (cursor + 12) remain (out x))
      else if dtype =? 0x1FD then
        if (n <? cursor + 4)%nat then Some (inl (out x))
        else
          remain ← nth_field "I" 0 (slice cursor (cursor + 4) s);
          Some (copy s (cursor + 4) remain (out x))
      else if (dtype =? 0x1FA) || (dtype =? 0x1F9) then
        if (n <? cursor + 4)%nat then Some (inl (out x))
        else
          remain ← nth_field "BBH" 2 (slice cursor (cursor + 4) s);
          Some (copy s (cursor + 4) remain (out x))
      else if dtype =? 0xFFD8FFE0 then
        Some (inr (St cursor (remain x) (out x ++ [xff; xd8; xff; xe0])))
      else
        Some (inr (St (cursor - 3) (remain x) (out x)))
  else Some (copy s (cursor x) (remain x) (out x)).

(** [while cursor < len(stream_1426)]; [fuel] bounds the iterations. *)
Fixpoint loop (fuel : nat) (s : bytes) (x : st) : option bytes :=
  if (cursor x <? length s)%nat then
    match fuel with
    | O => None
    | S fuel' =>
        match step s x with
        | None => None
        | Some (inl o) => Some o
        | Some (inr x') => loop fuel' s x'
        end
    end
  else Some (out x).

(** Every iteration advances the cursor, so [len(stream_1426)] iterations
    are enough; [None] (a [struct.error], or the bound reached) never
    comes out, see [demux_total]. *)
Definition _extract_media_from_1426 (stream_1426 : bytes) : option bytes :=
  loop (length stream_1426) stream_1426 (St 0 0 []).

(** The state [x] is the loop state after [k] iterations. *)
Inductive reach (s : bytes) : nat -> st -> Prop :=
| reach_init : reach s 0 (St 0 0 [])
| reach_step k x x' :
    reach s k x -> (cursor x < length s)%nat -> step s x = Some (inr x') ->
    reach s (S k) x'.

(** An iteration either leaves the loop or moves the cursor forward,
    never past the end. *)
Definition advances (s : bytes) (c : nat) (r : bytes + st) : Prop :=
  match r with
  | inl _ => True
  | inr x' => (c < cursor x' <= length s)%nat
  end.

(** The recognised block tags and their sub-header sizes. *)
Definition is_video (dtype : Z) : bool := (dtype =? 0x1FC) || (dtype =? 0x1FE).
Definition is_audio (dtype : Z) : bool := dtype =? 0x1FD.
Definition is_aux (dtype : Z) : bool := (dtype =? 0x1FA) || (dtype =? 0x1F9).
Definition is_soi (dtype : Z) : bool := dtype =? 0xFFD8FFE0.

Definition is_tag (dtype : Z) : bool :=
  is_video dtype || is_audio dtype || is_aux dtype || is_soi dtype.

(** The dword the loop reads at offset [i]. *)
Definition dword_at (s : bytes) (i : nat) : option Z :=
  nth_field ">I" 0 (slice i (i + 4) s).

(** At offset [i] stands a recognised tag whose complete sub-header,
    which ends at offset [hend], declares the payload length [len]. *)
Definition block_at (s : bytes) (i : nat) (len : Z) (hend : nat) : Prop :=
  exists dtype, (hend <= length s)%nat /\ dword_at s i = Some dtype /\
    ((is_video dtype = true /\ hend = (i + 16)%nat /\
      nth_field "BBBBII" 5 (slice (i + 4) (i + 4 + 12) s) = Some len) \/
     (is_audio dtype = true /\ hend = (i + 8)%nat /\
      nth_field "I" 0 (slice (i + 4) (i + 4 + 4) s) = Some len) \/
     (is_aux dtype = true /\ hend = (i + 8)%nat /\
      nth_field "BBH" 2 (slice (i + 4) (i + 4 + 4) s) = Some len)).

End Demux.

(** ** The collaborators the pipeline is written against *)

(** [datetime.strptime(s, "%Y-%m-%d %H:%M:%S")] ([None] where it raises)
  and [strftime] with the same format, on datetimes counted in seconds. *)
Class DateTime := {
strptime : string -> option Z;
strftime : Z -> string
}.

(** A row of an index reply: a JSON object whose values are strings.
  [row_get r k] is [str(r.get(k, default))] with the empty string for
    default. *)
Abbreviation row := (gmap string string).

Definition row_get (r : row) (k : string) : string :=
  default EmptyString (r !! k).

(** The bottom-white ratio and its threshold are finite floats that are
  only compared, never computed with: they are compared here as the
  rationals they denote.  Frame scores are computed with, and are
  binary64 values ([float]) with the rounding of each operation. *)
Definition Qltb (x y : Q) : bool := negb (Qle_bool y x).

(** An integer as an operand of [SFdiv], and the rational a finite
    result denotes. *)
Definition int_operand (n : Z) : spec_float :=
  match n with
  | Z0 => S754_zero false
  | Zpos m => S754_finite false m 0
  | Zneg m => S754_finite true m 0
  end.

Definition float_value (x : spec_float) : Q :=
  match x with
  | S754_finite sign m e =>
      inject_Z (if sign then Z.neg m else Z.pos m) * Qpower 2 e
  | _ => 0
  end%Q.

(** [timedelta.total_seconds()] of a difference of [us] microseconds.
    Python divides the integer [us] by [10**6] and rounds the exact
    quotient once, to the nearest binary64 number (ties to even): this is
    the division of IEEE 754 ([SFdiv]) on the two integers.  The
    quotient of an integer by a million is a finite number, never a NaN,
    and is kept as the rational it denotes. *)
Definition total_seconds (us : Z) : Q :=
  float_value (SFdiv prec emax (int_operand us) (int_operand 1000000)).


(** Python's [max(a, b)] on floats: the second argument when it compares
    greater than the first, else the first (so the first on a NaN). *)
Definition py_max (a b : float) : float :=
  if (a <? b)%float then b else a.

Inductive score_mode := Content | Sharpness.

(** OpenCV, as used by [extract_best_jpeg_from_motion_h264] and
  [_bottom_white_ratio]. *)
Class Vision := {
frame : Type;
(** [cv2.VideoCapture(path)] on the written media file: [None] when it
    does not open, else the frames [cap.read()] delivers, in order *)
capture : bytes -> option (list frame);
(** [_sharpness_score_bgr], [_contrast_score_bgr], [_gray_ratio_bgr]:
    Python floats *)
sharpness_score : frame -> float;
contrast_score : frame -> float;
gray_ratio : frame -> float;
(** [cv2.imencode(".jpg", frame, ...)], [None] when [ok] is false *)
imencode : frame -> option bytes;
(** [_bottom_white_ratio(jpeg_bytes)] *)
_bottom_white_ratio : bytes -> option Q
}.

(** ** Frame selection: [extract_best_jpeg_from_motion_h264] *)

Module Extract.
Section WithVision.
Context {V : Vision}.

Record ExtractResult := mkExtractResult {
  ok : bool;
  reason : string;
  jpeg_bytes : option bytes;
  chosen_frame_index : option nat
}.

(** The score of a sampled frame, in binary64 as Python computes it:
    [(sharp + cont * 5.0) * max(0.0, 1.0 - gray_r)] in content mode. *)
Definition score_of (mode : score_mode) (f : frame) : float :=
  match mode with
  | Content =>
      (sharpness_score f + contrast_score f * 5)
      * py_max 0 (1 - gray_ratio f)
  | Sharpness => sharpness_score f
  end%float.

(** One round of the [while idx <= max_idx] loop, on a frame that was
    read successfully; [score > chosen_score] is the comparison of
    floats, false when the score is a NaN. *)
Definition consider (mode : score_mode) (sample : list nat)
    (acc : option (frame * nat) * float) (it : nat * frame)
  : option (frame * nat) * float :=
  let '(idx, f) := it in
  if bool_decide (idx ∈ sample) then
    let score := score_of mode f in
    if (snd acc <? score)%float then (Some (f, idx), score) else acc
  else acc.

Definition extract_best_jpeg_from_motion_h264 (stream_1426 : bytes)
    (sample_frame_indexes : list nat) (mode : score_mode)
  : option ExtractResult :=
  match stream_1426 with
  | [] => Some (mkExtractResult false "empty_1426_stream" None None)
  | _ =>
      media ← Demux._extract_media_from_1426 stream_1426;
      match media with
      | [] => Some (mkExtractResult false "failed_to_extract_h264" None None)
      | _ =>
          match capture media with
          | None =>
              Some (mkExtractResult false "opencv_failed_to_open_h264" None None)
          | Some frames =>
              let max_idx := foldr Nat.max 0%nat sample_frame_indexes in
              let read := imap (fun i f => (i, f)) (take (S max_idx) frames) in
              match fst (foldl (consider mode sample_frame_indexes)
                               (None, (-1)%float) read) with
              | None =>
                  Some (mkExtractResult false "no_frames_decoded" None None)
              | Some (chosen, chosen_idx) =>
                  match imencode chosen with
                  | None =>
                      Some (mkExtractResult false "jpeg_encode_failed" None
                              (Some chosen_idx))
                  | Some jpeg =>
                      Some (mkExtractResult true "ok" (Some jpeg) (Some chosen_idx))
                  end
              end
          end
      end
  end.

End WithVision.
End Extract.

(** ** Hybrid extraction: [alarm_hybrid_extractor.py] *)

Module Hybrid.

Inductive tier := Idea1 | Motion.

(** What the camera does when it is talked to.  Each tier opens its own
    session, so every answer is indexed by the tier that asks. *)
Record Camera := {
  HAS_DVRIP : bool;
  (** [DVRIPCam(...)] then [cam.login()]: the truth value returned, or
      the exception raised *)
  cam_login : tier -> res bool;
  (** [_opfilequery(cam, begin, end, event=..., ftype=...)] *)
  _opfilequery : tier -> string -> string -> string -> string -> res (list row);
  (** the [attempt]-th call of [download_motion_file_h264] for
      [filename], [begin_time], [end_time] *)
  download_motion_file_h264 :
    tier -> string -> string -> string -> Z -> res bytes
}.

Inductive event :=
| EvDownload (attempt : Z)
| EvSleep (seconds : Q).

Record extract_meta := mkExtractMeta {
  x_ok : bool;
  x_reason : string;
  x_chosen_frame_index : option nat;
  x_bottom_white_ratio : option Q
}.

(** [idea1_meta] / [motion_meta]; an absent key is [None]. *)
Record tier_meta := mkTierMeta {
  t_window : option (string * string);
  t_count : option nat;
  t_picked : option row;
  t_download : option (bool * nat);
  t_extract : option extract_meta;
  t_error : option string
}.

Record meta := mkMeta {
  ok : bool;
  reason : string;
  target : string;
  chosen : option string;
  idea1 : option tier_meta;
  motion : option tier_meta
}.

(** Attempts [a], [a+1], ..., [a+n], with a sleep between two of them. *)
Fixpoint attempts_from (a : Z) (n : nat) : list event :=
  match n with
  | O => [EvDownload a]
  | S n' => EvDownload a :: EvSleep 0.8 :: attempts_from (a + 1) n'
  end.

Definition no_meta : tier_meta := mkTierMeta None None None None None None.

Definition with_error (m : tier_meta) (e : string) : tier_meta :=
  mkTierMeta (t_window m) (t_count m) (t_picked m) (t_download m)
    (t_extract m) (Some e).

Definition with_extract (m : tier_meta) (n : nat) (x : extract_meta) : tier_meta :=
  mkTierMeta (t_window m) (t_count m) (t_picked m) (Some (true, n))
    (Some x) (t_error m).

Definition finish (m : meta) (ok : bool) (reason : string)
    (chosen : option string) : meta :=
  mkMeta ok reason (target m) chosen (idea1 m) (motion m).

Section WithLibraries.
Context {DT : DateTime} {V : Vision}.

Definition _parse_dt (s : string) : option Z := strptime s.

(** Tuple comparison [key < best_key]: the flags as integers, then the
    distances as floats. *)
Definition key_lt (k1 k2 : Z * Q) : bool :=
  (fst k1 <? fst k2) || ((fst k1 =? fst k2) && Qltb (snd k1) (snd k2)).

(** The key of a row.  The [target] keeps its microseconds and is
    counted in microseconds; [bt] and [et] come from [strptime] and are
    whole seconds. *)
Definition key_of (r : row) (target : Z) : option (Z * Q) :=
  bt ← _parse_dt (row_get r "BeginTime");
  let in_range :=
    match _parse_dt (row_get r "EndTime") with
    | Some et => (bt * 1000000 <=? target) && (target <=? et * 1000000)
    | None => false
    end in
  let delta := Qabs (total_seconds (bt * 1000000 - target)) in
  Some (if in_range then 0 else 1, delta).

(** One round of the [for r in rows] loop on [(best, best_key)]. *)
Definition pick_step (target : Z) (acc : option (row * (Z * Q))) (r : row)
  : option (row * (Z * Q)) :=
  match key_of r target with
  | None => acc
  | Some key =>
      match acc with
      | None => Some (r, key)
      | Some (_, best_key) => if key_lt key best_key then Some (r, key) else acc
      end
  end.

Definition _pick_closest_file (rows : list row) (target : Z) : option row :=
  fst <$> foldl (pick_step target) None rows.

(** What the [for] loop holds in [(best, best_key)] after [rows]. *)
Definition picked_from (rows : list row) (target : Z)
    (acc : option (row * (Z * Q))) : Prop :=
  match acc with
  | None => forall r, r ∈ rows -> key_of r target = None
  | Some (r, k) =>
      exists pre post, rows = pre ++ r :: post /\ key_of r target = Some k /\
        (forall r' k', r' ∈ pre -> key_of r' target = Some k' ->
                       key_lt k k' = true) /\
        (forall r' k', r' ∈ post -> key_of r' target = Some k' ->
                       key_lt k' k = false)
  end.

(** The [for attempt in range(1, tries + 1)] loop; [n] counts the
    attempts left in the range. *)
Fixpoint retry_loop (dl : Z -> res bytes) (tries : Z) (n : nat) (attempt : Z)
    (last_err : option exn) : res bytes * list event :=
  match n with
  | O =>
      (raise "RuntimeError"
         (match last_err with Some e => exn_msg e | None => "download_failed" end),
       [])
  | S n' =>
      match dl attempt with
      | inr data => (inr data, [EvDownload attempt])
      | inl e =>
          if attempt <? tries then
            let '(r, evs) := retry_loop dl tries n' (attempt + 1) (Some e) in
            (r, EvDownload attempt :: EvSleep 0.8 :: evs)
          else (inl e, [EvDownload attempt])
      end
  end.

(** Returns the payload or the exception, and the downloads and sleeps
    performed. *)
(** The [bt], [et] the download is asked for. *)
Definition request_window (begin_time end_time : string) : string * string :=
  let bt := strip begin_time in
  let et := strip end_time in
  if nonempty bt && (negb (nonempty et) || bool_decide (et = bt)) then
    (* Some firmwares misbehave when StartTime==EndTime. *)
    match _parse_dt bt with
    | Some dt => (bt, strftime (dt + 1))
    | None => (bt, bt)
    end
  else (bt, et).

Definition _download_with_retries
    (download : string -> string -> string -> Z -> res bytes)
    (filename begin_time end_time : string) (retries : Z)
  : res bytes * list event :=
  let '(bt, et) := request_window begin_time end_time in
  let tries := Z.max 1 retries in
  retry_loop (download filename bt et) tries (Z.to_nat tries) 1 None.

(** What both tiers do once logged in: query a window of [span] seconds
    around the target, pick, download, extract.  The result is the
    tier's meta dictionary as the [except] clause leaves it, and the
    JPEG if a frame was decoded. *)
Definition attempt_tier (c : Camera) (t : tier) (target_dt span : Z)
    (ev ftype : string) (sample : list nat) (mode : score_mode)
    (download_retries : Z) : tier_meta * option bytes :=
  let begin := strftime (target_dt - span) in
  let end_ := strftime (target_dt + span) in
  match _opfilequery c t begin end_ ev ftype with
  | inl e => (with_error no_meta (exn_msg e), None)
  | inr rows =>
      (* [target_dt] in microseconds *)
      let picked := _pick_closest_file rows (target_dt * 1000000) in
      let m := mkTierMeta (Some (begin, end_)) (Some (length rows)) picked
                 None None None in
      match picked with
      | None => (m, None)
      | Some p =>
          if bool_decide (p = ∅) then (m, None)
          else
            let fname := row_get p "FileName" in
            let bt := row_get p "BeginTime" in
            let et := if nonempty (row_get p "EndTime")
                      then row_get p "EndTime" else bt in
            match fst (_download_with_retries (download_motion_file_h264 c t)
                         fname bt et download_retries) with
            | inl e => (with_error m (exn_msg e), None)
            | inr raw =>
                match Extract.extract_best_jpeg_from_motion_h264 raw sample mode with
                | None => (with_error m "unpack requires a buffer", None)
                | Some r =>
                    match Extract.ok r, Extract.jpeg_bytes r with
                    | true, Some (b :: jpeg) =>
                        let bw := _bottom_white_ratio (b :: jpeg) in
                        (with_extract m (length raw)
                           (mkExtractMeta true (Extract.reason r)
                              (Extract.chosen_frame_index r) bw),
                         Some (b :: jpeg))
                    | _, _ =>
                        (with_extract m (length raw)
                           (mkExtractMeta false (Extract.reason r) None None),
                         None)
                    end
                end
            end
      end
  end.

(** 1) Try idea1 alarm file.  [None] is the early
    [return None, meta] on a refused login. *)
Definition tier_idea1 (c : Camera) (target_dt download_retries : Z)
  : option (tier_meta * option bytes) :=
  match cam_login c Idea1 with
  | inl e => Some (with_error no_meta (exn_msg e), None)
  | inr false => None
  | inr true =>
      (* Treat as video stream, sample more frames. *)
      Some (attempt_tier c Idea1 target_dt 20 "*" "jpg"
              [0; 1; 2; 3; 5; 8; 10; 12; 14; 16; 18; 20; 24; 28; 32]%nat
              Content download_retries)
  end.

(** 2) Fallback to motion clip (idea0 h264) *)
Definition tier_motion (c : Camera) (target_dt download_retries : Z)
  : tier_meta * option bytes :=
  match cam_login c Motion with
  | inl e => (with_error no_meta (exn_msg e), None)
  | inr false => (with_error no_meta "dvrip_login_failed", None)
  | inr true =>
      attempt_tier c Motion target_dt 180 "M" "h264"
        [0; 10; 30; 60; 90; 120; 150; 180]%nat Sharpness download_retries
  end.

(** [meta["idea1"].get("extract", {}).get("bottom_white_ratio")] *)
Definition idea1_bw (m : tier_meta) : option Q :=
  x ← t_extract m; x_bottom_white_ratio x.

(** Hybrid extractor returning (jpeg|None, meta). *)
Definition extract_alarm_photo_hybrid (c : Camera) (target_dt : Z)
    (password : string) (download_retries : Z) (bottom_white_threshold : Q)
  : option bytes * meta :=
  let meta := mkMeta false "init" (strftime target_dt) None None None in
  if negb (HAS_DVRIP c) then
    (None, finish meta false "python-dvr_not_available" None)
  else if negb (nonempty password) then
    (None, finish meta false "empty_password" None)
  else
    match tier_idea1 c target_dt download_retries with
    | None => (None, finish meta false "dvrip_login_failed" None)
    | Some (idea1_meta, idea1_jpeg) =>
        let meta := mkMeta false "init" (target meta) None (Some idea1_meta) None in
        (* Decide if we accept idea1 *)
        let accept :=
          match idea1_jpeg, idea1_bw idea1_meta with
          | Some _, Some bw => Qltb bw bottom_white_threshold
          | _, _ => false
          end in
        if accept then (idea1_jpeg, finish meta true "ok" (Some "idea1"))
        else
          let '(motion_meta, motion_jpeg) :=
            tier_motion c target_dt download_retries in
          let meta := mkMeta false "init" (target meta) None (Some idea1_meta)
                        (Some motion_meta) in
          match motion_jpeg with
          | Some jpeg =>
              (Some jpeg, finish meta true "ok_fallback_motion" (Some "motion"))
          | None =>
              (* Last resort: return idea1 if we at least got something *)
              match idea1_jpeg with
              | Some jpeg =>
                  (Some jpeg,
                   finish meta true "ok_but_bottom_white" (Some "idea1"))
              | None => (None, finish meta false "no_photo" None)
              end
          end
    end.

End WithLibraries.
End Hybrid.

(** ** Event index scanner: [alarm_index.py] *)

Module Index.

(** A normalised row: [dict(r)] with the keys ["__dt"] and ["__type"]
    added. *)
Record nrow := mkNrow { n_row : row; __dt : Z; __type : string }.

(** One entry of [meta["chunks"]]; [c_begin] and [c_end] are the datetimes
    whose [strftime] text the entry (and the query) carries. *)
Record chunk_log := mkChunk {
  c_begin : Z; c_end : Z; c_raw : nat; c_parsed : nat; c_chunk_sec : Z }.

Record meta := mkMeta {
  ok : bool;
  reason : string;
  chunks : list chunk_log;
  count : option nat;
  max_time : option string
}.

Record params := mkParams {
  end_dt : Z;
  want : Z;
  max_lookback_hours : Z;
  initial_chunk_minutes : Z;
  min_chunk_seconds : Z;
  cap_guard : Z
}.

(** The camera behind [DVRIPCam]: whether the library is importable,
    whether [cam.login()] succeeds, and the rows [opfilequery] returns to
    the [k]-th query, asked for the window from [begin] to [end]. *)
Record Camera := {
  HAS_DVRIP : bool;
  cam_login : bool;
  opfilequery : nat -> Z -> Z -> list row
}.

(** Loop variables of [fetch_recent_alarm_markers]. *)
Record scan := mkScan {
  cursor_end : Z;
  chunk : Z;
  collected : list nrow;
  seen : gset string;
  log : list chunk_log
}.

Definition oldest_allowed (p : params) : Z :=
  end_dt p - 3600 * Z.max 1 (max_lookback_hours p).

Definition initial_chunk (p : params) : Z :=
  60 * Z.max 1 (initial_chunk_minutes p).

Definition min_chunk (p : params) : Z := Z.max 1 (min_chunk_seconds p).

(** [f"{r.get('FileName', '')}|{r.get('BeginTime', '')}"] *)
Definition dedup_key (r : nrow) : string :=
  row_get (n_row r) "FileName" +:+ "|" +:+ row_get (n_row r) "BeginTime".

Section WithDateTime.
Context {DT : DateTime}.

Definition _parse_dt (s : string) : option Z := strptime s.

Definition dt_desc (x y : nrow) : bool := __dt y <=? __dt x.

Definition normalize_rows (rows : list row) (ftype : string) : list nrow :=
  sort_by dt_desc
    (omap (fun r => bt ← _parse_dt (row_get r "BeginTime");
                    Some (mkNrow r bt ftype)) rows).

(** [while cursor_end > oldest_allowed and len(collected) < int(want)] *)
Definition running (p : params) (s : scan) : bool :=
  (oldest_allowed p <? cursor_end s)
  && (Z.of_nat (length (collected s)) <? want p).

(** The begin of the window the next query asks for. *)
Definition begin_of (p : params) (s : scan) : Z :=
  let begin_dt := cursor_end s - chunk s in
  if begin_dt <? oldest_allowed p then oldest_allowed p else begin_dt.

(** The [for r in norm] loop. *)
Definition absorb (acc : list nrow * gset string) (r : nrow)
  : list nrow * gset string :=
  let key := dedup_key r in
  if bool_decide (key ∈ snd acc) then acc
  else (fst acc ++ [r], {[key]} ∪ snd acc).

(** One iteration of the loop body, given the rows the query returned. *)
Definition iteration (p : params) (rows : list row) (s : scan) : scan :=
  let begin_dt := begin_of p s in
  let norm := normalize_rows rows "jpg" in
  let log' := log s ++ [mkChunk begin_dt (cursor_end s) (length rows)
                          (length norm) (chunk s)] in
  (* If we hit a cap, shrink the window and retry on the same end. *)
  if (cap_guard p <=? Z.of_nat (length rows)) && (min_chunk p <? chunk s) then
    mkScan (cursor_end s) (Z.max (min_chunk p) (chunk s / 2))
      (collected s) (seen s) log'
  else
    let '(collected', seen') := foldl absorb (collected s, seen s) norm in
    let chunk' :=
      if Z.of_nat (length rows) <? Z.max 1 (want p / 3)
      then Z.min 14400 (chunk s * 2) else chunk s in
    mkScan begin_dt chunk' collected' seen' log'.

(** The query of an iteration is the [length (log s)]-th of the run. *)
Definition query (c : Camera) (p : params) (s : scan) : list row :=
  opfilequery c (length (log s)) (begin_of p s) (cursor_end s).

Fixpoint scan_loop (fuel : nat) (c : Camera) (p : params) (s : scan)
  : option scan :=
  if running p s then
    match fuel with
    | O => None
    | S fuel' => scan_loop fuel' c p (iteration p (query c p s) s)
    end
  else Some s.

Definition start (p : params) : scan :=
  mkScan (end_dt p) (initial_chunk p) [] ∅ [].

(** What holds of the loop variables whenever the loop condition is
    tested. *)
Record inv (p : params) (s : scan) : Prop := mkInv {
  inv_chunk : 1 <= chunk s;
  inv_bounds : oldest_allowed p <= cursor_end s <= end_dt p;
  inv_nodup : NoDup (dedup_key <$> collected s);
  inv_seen : forall r, r ∈ collected s -> dedup_key r ∈ seen s;
  inv_parsed : forall r, r ∈ collected s ->
    _parse_dt (row_get (n_row r) "BeginTime") = Some (__dt r);
  inv_want : collected s = [] \/ 0 < want p
}.

(** Twice the distance still to scan, plus the window width: it drops at
    every iteration. *)
Definition potential (p : params) (s : scan) : Z :=
  if cursor_end s <=? oldest_allowed p then 0
  else 2 * (cursor_end s - oldest_allowed p) + chunk s.

(** Every iteration either halves the window or moves the cursor back by
    a second at least, which bounds the number of iterations. *)
Definition budget (p : params) : nat :=
  Z.to_nat (2 * (end_dt p - oldest_allowed p) + initial_chunk p).

(** The loop, from its initial state to its exit. *)
Definition run (c : Camera) (p : params) : option scan :=
  scan_loop (budget p) c p (start p).

(** Returns (rows_sorted_desc, meta); [None] would be a loop that does not
    exit within [budget], which [run_total] rules out. *)
Definition fetch_recent_alarm_markers (c : Camera) (password : string)
    (p : params) : option (list nrow * meta) :=
  if negb (HAS_DVRIP c) then
    Some ([], mkMeta false "python-dvr_not_available" [] None None)
  else if negb (nonempty password) then
    Some ([], mkMeta false "empty_password" [] None None)
  else if negb (cam_login c) then
    Some ([], mkMeta false "dvrip_login_failed" [] None None)
  else
    s ← run c p;
    let sorted := sort_by dt_desc (collected s) in
    Some (slice_to (want p) sorted,
          mkMeta true "ok" (log s) (Some (length sorted))
            (strftime ∘ __dt <$> head sorted)).

End WithDateTime.

(** The identity of an event marker: (file name, begin time). *)
Definition marker_id (r : nrow) : string * string :=
  (row_get (n_row r) "FileName", row_get (n_row r) "BeginTime").

(** A logged window was consumed (its rows merged, the cursor moved to its
    begin) unless the cap guard sent the loop back for a retry. *)
Definition consumed (p : params) (e : chunk_log) : bool :=
  negb ((cap_guard p <=? Z.of_nat (c_raw e)) && (min_chunk p <? c_chunk_sec e)).

(** The log read as a walk from [cur] backwards: every query ends at the
    current cursor, a retried query leaves the cursor where it is, a
    consumed one moves it to its begin. *)
Fixpoint walk (p : params) (cur : Z) (l : list chunk_log) : option Z :=
  match l with
  | [] => Some cur
  | e :: l' =>
      if (c_end e =? cur) && (c_begin e <=? cur) then
        walk p (if consumed p e then c_begin e else cur) l'
      else None
  end.

(** Every instant from the cursor up to the end of the scan lies in a
    window that was queried and consumed. *)
Definition covered (p : params) (s : scan) : Prop :=
  forall t, cursor_end s <= t < end_dt p ->
    exists e, e ∈ log s /\ consumed p e = true /\ c_begin e <= t <= c_end e.

(** The log retraces the cursor, and nothing behind the cursor was left
    out. *)
Definition trail (p : params) (s : scan) : Prop :=
  walk p (end_dt p) (log s) = Some (cursor_end s) /\ covered p s.

End Index.

(** ** Alarm poll loop: [alarm_polling.py] *)

Module Polling.

(** [alarm_entry]; the constant entries (["type"], ["type_code"],
    ["size"], ["photo_file"], ["source"]) are left out. *)
Record alarm_entry := mkEntry {
  a_time : string;
  a_end_time : string;
  a_file : string
}.

(** The part of the shared [store] dictionary the loop itself writes. *)
Record store := mkStore {
  known_files : gset string;
  alarms : list alarm_entry;
  polling_last_error : option string;
  last_check : option Z
}.

(** What the loop does to the lock, the known-files set and the executor,
    in program order. *)
Inductive event :=
| Acquire
| Release
| Check (fname : string)
| Add (fname : string)
| Splice (entry : alarm_entry)
| Submit (entry : alarm_entry)
| Sleep (seconds : Z).

(** What one pass of the [while True] body meets. *)
Record cycle := mkCycle {
  (** [get_camera_ip()] *)
  ip : option string;
  (** [datetime.now()] *)
  now : Z;
  (** file names the other writers of [store["known_files"]] (the
      realtime callback and the history query of [server.py], which only
      ever add) inserted since the previous pass *)
  added_elsewhere : gset string;
  (** the rows [fetch_recent_alarm_markers(...)] returns, or the
      exception it raises *)
  fetched : res (list row);
  (** whether the [k]-th [executor.submit] of this pass raises *)
  submit_raises : nat -> option exn
}.

(** Seed known set; do not notify. *)
Fixpoint seed_rows (rows : list row) (known : gset string)
  : gset string * list event :=
  match rows with
  | [] => (known, [])
  | r :: rest =>
      let fname := row_get r "FileName" in
      if nonempty fname then
        let '(k, ev) := seed_rows rest ({[fname]} ∪ known) in
        (k, Add fname :: ev)
      else seed_rows rest known
  end.

(** The [for r in rows] loop under [store_lock] that fills
    [new_markers]. *)
Fixpoint check_rows (rows : list row) (known : gset string)
  : gset string * list row * list event :=
  match rows with
  | [] => (known, [], [])
  | r :: rest =>
      let fname := row_get r "FileName" in
      if negb (nonempty fname) then check_rows rest known
      else if bool_decide (fname ∈ known) then
        let '(k, new, ev) := check_rows rest known in
        (k, new, Check fname :: ev)
      else
        let '(k, new, ev) := check_rows rest ({[fname]} ∪ known) in
        (k, r :: new, Check fname :: Add fname :: ev)
  end.

Definition entry_of (r : row) : alarm_entry :=
  mkEntry (row_get r "BeginTime") (row_get r "EndTime") (row_get r "FileName").

(** [new_markers.sort(key=...)], the key being the BeginTime text *)
Definition by_begin_time (x y : row) : bool :=
  String.leb (row_get x "BeginTime") (row_get y "BeginTime").

(** The [for r in new_markers] loop: splice the entry into the history,
    submit the job.  A raising [submit] leaves the loop for the outer
    [except]. *)
Fixpoint dispatch (history_max : Z) (raises : nat -> option exn) (k : nat)
    (markers : list row) (alarms : list alarm_entry)
  : list alarm_entry * list event * option exn :=
  match markers with
  | [] => (alarms, [], None)
  | r :: rest =>
      let entry := entry_of r in
      let alarms' := slice_to history_max (entry :: alarms) in
      match raises k with
      | Some e => (alarms', [Acquire; Splice entry; Release], Some e)
      | None =>
          let '(a, ev, err) := dispatch history_max raises (S k) rest alarms' in
          (a, Acquire :: Splice entry :: Release :: Submit entry :: ev, err)
      end
  end.

(** One pass of the [while True] body on [(seeded, store)]. *)
Definition poll_cycle (history_max poll_interval_sec : Z) (c : cycle)
    (st : bool * store) : (bool * store) * list event :=
  let '(seeded, s) := st in
  let known := added_elsewhere c ∪ known_files s in
  let nap := Sleep (Z.max 1 poll_interval_sec) in
  (* [if not ip]: no address, or an empty one *)
  let idle := ((seeded, mkStore known (alarms s) (polling_last_error s)
                          (last_check s)), [Sleep 2]) in
  match ip c with
  | None => idle
  | Some addr =>
      if negb (nonempty addr) then idle else
      match fetched c with
      | inl e =>
          ((seeded, mkStore known (alarms s) (Some (exn_msg e)) (last_check s)),
           [nap])
      | inr rows =>
          if negb seeded then
            let '(k, ev) := seed_rows rows known in
            ((true, mkStore k (alarms s) None (Some (now c))),
             Acquire :: ev ++ [Release; nap])
          else
            let '(k, new_markers, ev) := check_rows rows known in
            (* Process oldest -> newest (best UX in TG) *)
            let sorted := sort_by by_begin_time new_markers in
            let '(alarms', ev', err) :=
              dispatch history_max (submit_raises c) 0 sorted (alarms s) in
            match err with
            | Some e =>
                ((true, mkStore k alarms' (Some (exn_msg e)) (last_check s)),
                 Acquire :: ev ++ Release :: ev' ++ [nap])
            | None =>
                ((true, mkStore k alarms' None (Some (now c))),
                 Acquire :: ev ++ Release :: ev' ++ [Acquire; Release; nap])
            end
      end
  end.

(** The first passes of the loop, one per element of [cs]. *)
Fixpoint alarm_poll_loop (history_max poll_interval_sec : Z) (cs : list cycle)
    (st : bool * store) : (bool * store) * list event :=
  match cs with
  | [] => (st, [])
  | c :: cs' =>
      let '(st1, ev1) := poll_cycle history_max poll_interval_sec c st in
      let '(st2, ev2) := alarm_poll_loop history_max poll_interval_sec cs' st1 in
      (st2, ev1 ++ ev2)
  end.

Definition fname (r : row) : string := row_get r "FileName".

Definition submitted (evs : list event) : list string :=
  omap (fun e => match e with Submit x => Some (a_file x) | _ => None end) evs.

(** A monitor of the locking discipline.  It knows whether the lock is
    held, which file name the last event checked, and which file names
    were checked and then inserted without leaving the critical section
    ([ready]). *)
Record watch := mkWatch {
  held : bool;
  pending : option string;
  ready : gset string
}.

(** The monitor refuses ([None]): taking a held lock or releasing a free
    one; a check, an insertion or a history splice outside the lock; a
    sleep inside it; and the submission of a job whose file name is not
    [ready]. *)
Definition observe (w : watch) (e : event) : option watch :=
  match e with
  | Acquire => if held w then None else Some (mkWatch true None (ready w))
  | Release => if held w then Some (mkWatch false None (ready w)) else None
  | Check f => if held w then Some (mkWatch true (Some f) (ready w)) else None
  | Add f =>
      if held w then
        Some (mkWatch true None
                (if bool_decide (pending w = Some f) then {[f]} ∪ ready w
                 else ready w))
      else None
  | Splice _ => if held w then Some w else None
  | Submit x =>
      if bool_decide (a_file x ∈ ready w)
      then Some (mkWatch (held w) None (ready w)) else None
  | Sleep _ => if held w then None else Some w
  end.

Fixpoint monitor (w : watch) (evs : list event) : option watch :=
  match evs with
  | [] => Some w
  | e :: r => w' ← observe w e; monitor w' r
  end.

(** What one pass guarantees: the known set only grows; the jobs it
    submits are for distinct file names, none of them known before the
    pass, all of them known after it; and the monitor accepts its
    events. *)
Definition pass_ok (history_max poll_interval_sec : Z) (c : cycle)
    (st : bool * store) : Prop :=
  let '(st', ev) := poll_cycle history_max poll_interval_sec c st in
  known_files (snd st) ⊆ known_files (snd st') /\
  NoDup (submitted ev) /\
  (forall f, f ∈ submitted ev ->
             (f ∉ known_files (snd st)) /\ f ∈ known_files (snd st')) /\
  forall R, exists R',
    monitor (mkWatch false None R) ev = Some (mkWatch false None R') /\ R ⊆ R'.

End Polling.

(** ** A concrete [DateTime]: the proleptic Gregorian calendar

    [strptime] on text of the shape the camera sends, every field
    zero-padded ("2024-05-01 10:00:09"); a datetime is its number of
    seconds since 1970-01-01 00:00:00. *)

Module Calendar.

Definition digit (c : ascii) : option Z :=
  let n := nat_of_ascii c in
  if ((48 <=? n) && (n <=? 57))%nat then Some (Z.of_nat n - 48) else None.

Fixpoint number (cs : list ascii) (acc : Z) : option Z :=
  match cs with
  | [] => Some acc
  | c :: r => d ← digit c; number r (10 * acc + d)
  end.

Definition is_leap (y : Z) : bool :=
  ((y mod 4 =? 0) && negb (y mod 100 =? 0)) || (y mod 400 =? 0).

Definition days_in_month (y m : Z) : Z :=
  if m =? 2 then (if is_leap y then 29 else 28)
  else if (m =? 4) || (m =? 6) || (m =? 9) || (m =? 11) then 30 else 31.

Definition days_from_civil (y m d : Z) : Z :=
  let y' := if m <=? 2 then y - 1 else y in
  let era := y' / 400 in
  let yoe := y' - era * 400 in
  let doy := (153 * (if 2 <? m then m - 3 else m + 9) + 2) / 5 + d - 1 in
  let doe := yoe * 365 + yoe / 4 - yoe / 100 + doy in
  era * 146097 + doe - 719468.

Definition civil_from_days (days : Z) : Z * Z * Z :=
  let z := days + 719468 in
  let era := z / 146097 in
  let doe := z - era * 146097 in
  let yoe := (doe - doe / 1460 + doe / 36524 - doe / 146096) / 365 in
  let doy := doe - (365 * yoe + yoe / 4 - yoe / 100) in
  let mp := (5 * doy + 2) / 153 in
  let d := doy - (153 * mp + 2) / 5 + 1 in
  let m := if mp <? 10 then mp + 3 else mp - 9 in
  let y := yoe + era * 400 in
  (if m <=? 2 then y + 1 else y, m, d).

Definition sep (cs : list ascii) (i : nat) (c : ascii) : bool :=
  bool_decide (cs !! i = Some c).

Definition parse (s : string) : option Z :=
  let cs := list_ascii_of_string s in
  if bool_decide (length cs = 19%nat)
     && sep cs 4 "-" && sep cs 7 "-" && sep cs 10 " "
     && sep cs 13 ":" && sep cs 16 ":"
  then
    y ← number (slice 0 4 cs) 0;
    m ← number (slice 5 7 cs) 0;
    d ← number (slice 8 10 cs) 0;
    h ← number (slice 11 13 cs) 0;
    n ← number (slice 14 16 cs) 0;
    sec ← number (slice 17 19 cs) 0;
    if (1 <=? y) && (1 <=? m) && (m <=? 12) && (1 <=? d)
       && (d <=? days_in_month y m) && (h <=? 23) && (n <=? 59)
       && (sec <=? 59)
    then Some (days_from_civil y m d * 86400 + h * 3600 + n * 60 + sec)
    else None
  else None.

Definition digit_char (d : Z) : ascii := ascii_of_nat (48 + Z.to_nat (d mod 10)).

Definition pad2 (n : Z) : list ascii := [digit_char (n / 10); digit_char n].

Definition pad4 (n : Z) : list ascii :=
  [digit_char (n / 1000); digit_char (n / 100); digit_char (n / 10); digit_char n].

Definition format (t : Z) : string :=
  let days := t / 86400 in
  let r := t mod 86400 in
  let '(y, m, d) := civil_from_days days in
  string_of_list_ascii
    (pad4 y ++ ["-"%char] ++ pad2 m ++ ["-"%char] ++ pad2 d ++ [" "%char]
     ++ pad2 (r / 3600) ++ [":"%char] ++ pad2 (r mod 3600 / 60) ++ [":"%char]
     ++ pad2 (r mod 60)).

Definition datetime : DateTime := {| strptime := parse; strftime := format |}.

End Calendar.

(** ** Concrete inputs used by the examples *)

Module Samples.

(** A newer-format packet with a three-byte payload, followed by one more
    byte on the socket. *)
Definition new_stream : bytes :=
  [xff; x01; x00; x00;  x07; x00; x00; x00;  x02; x00; x00; x00;
   x00; x01;  x92; x05;  x03; x00; x00; x00;
   x0a; x0b; x0c;  xaa].

Definition new_packet : Wire.new_packet :=
  Wire.NewPacket 1 7 2 0 1 1426 3 [x0a; x0b; x0c].

(** The same header cut after 16 bytes, where the payload length starts. *)
Definition sixteen_bytes : bytes := take 16 new_stream.

(** A legacy packet: header, then a 4-byte body. *)
Definition old_stream : bytes :=
  [xff; x00; x00; x00;  x07; x00; x00; x00;  x02; x00; x00; x00;
   x00; x00;  xe8; x03;  x04; x00; x00; x00;
   x7b; x7d; x0a; x00].

Definition old_packet : Wire.old_packet :=
  Wire.OldPacket 7 2 1000 4 [x7b; x7d; x0a; x00].

(** A tagged stream with a single video block: tag 0x1FC, a 12-byte
    sub-header declaring 8 payload bytes, then the payload, which is the
    beginning of an H.264 elementary stream (start code, SPS header). *)
Definition elementary : bytes :=
  [x00; x00; x00; x01; x67; x42; x00; x1e].

Definition tagged_stream : bytes :=
  [x00; x00; x01; xfc;
   x01; x02; x03; x04;  x05; x06; x07; x08;  x08; x00; x00; x00]
  ++ elementary.

(** A two-byte video block, a video block of declared length 0, and a
    two-byte audio block behind it. *)
Definition zero_block_stream : bytes :=
  [x00; x00; x01; xfc;
   x01; x02; x03; x04;  x05; x06; x07; x08;  x02; x00; x00; x00;
   xaa; xbb;
   x00; x00; x01; xfe;
   x01; x02; x03; x04;  x05; x06; x07; x08;  x00; x00; x00; x00;
   x00; x00; x01; xfd;  x02; x00; x00; x00;
   xcc; xdd].

(** Three photo-marker rows around 2024-05-01 10:00:10. *)
Definition marker (fname bt et : string) : row :=
  <["FileName" := fname]> (<["BeginTime" := bt]> (<["EndTime" := et]> ∅)).

Definition row_100005 : row :=
  marker "/idea1/2024-05-01/001/10.00.05-10.00.05[M][@0][0].jpg"
         "2024-05-01 10:00:05" "2024-05-01 10:00:05".

Definition row_100009 : row :=
  marker "/idea1/2024-05-01/001/10.00.09-10.00.12[M][@0][0].jpg"
         "2024-05-01 10:00:09" "2024-05-01 10:00:12".

Definition row_100500 : row :=
  marker "/idea1/2024-05-01/001/10.05.00-10.05.00[M][@0][0].jpg"
         "2024-05-01 10:05:00" "2024-05-01 10:05:00".

Definition three_rows : list row := [row_100005; row_100009; row_100500].

(** 2024-05-01 10:00:10 *)
Definition target : Z := 1714557610.

(** A download that is reset twice and would deliver on the third call. *)
Definition reset : exn :=
  Exn "ConnectionResetError" "[Errno 104] Connection reset by peer".

Definition flaky (filename bt et : string) (attempt : Z) : res bytes :=
  if attempt <? 3 then inl reset else inr tagged_stream.

(** A download that is reset once. *)
Definition flaky_once (filename bt et : string) (attempt : Z) : res bytes :=
  if attempt <? 2 then inl reset else inr tagged_stream.

(** A vision library for which every byte of the media is a frame, as
    sharp as the byte is large, and every encoded frame shows a
    bottom-white ratio of 0.40. *)
Definition vision : Vision := {|
  frame := byte;
  capture media := Some media;
  sharpness_score f := PrimFloat.of_uint63 (Uint63.of_Z (b2z f));
  contrast_score f := 0%float;
  gray_ratio f := 0%float;
  imencode f := Some [xff; xd8; f; xff; xd9];
  _bottom_white_ratio jpeg := Some 0.4%Q
|}.

(** A camera with the three photo markers and no motion clip nearby. *)
Definition camera : Hybrid.Camera := {|
  Hybrid.HAS_DVRIP := true;
  Hybrid.cam_login t := inr true;
  Hybrid._opfilequery t b e ev ftype :=
    match t with
    | Hybrid.Idea1 => inr three_rows
    | Hybrid.Motion => inr []
    end;
  Hybrid.download_motion_file_h264 t f b e k := inr tagged_stream
|}.

(** The default scan, ending at the target. *)
Definition scan_params : Index.params :=
  Index.mkParams target 30 24 10 60 60.

(** A scan whose first window, four hours wide, is cut at the one-hour
    lookback horizon. *)
Definition short_lookback : Index.params :=
  Index.mkParams target 30 1 240 60 60.

(** A reply that hits the cap guard. *)
Definition sixty_rows : list row := replicate 60 row_100009.

(** A camera that answers every query, whatever its window, with the same
    three rows: all windows overlap. *)
Definition repeating_camera : Index.Camera := {|
  Index.HAS_DVRIP := true;
  Index.cam_login := true;
  Index.opfilequery k b e := three_rows
|}.

(** Three passes of the poll loop: the first seeds the known set with two
    of the rows, the second meets all three, the third meets them
    again. *)
Definition pass (rows : list row) : Polling.cycle :=
  Polling.mkCycle (Some "192.168.1.10") target ∅ (inr rows) (fun _ => None).

Definition three_passes : list Polling.cycle :=
  [pass [row_100005; row_100009]; pass three_rows; pass three_rows].

Definition empty_store : Polling.store := Polling.mkStore ∅ [] None None.

(** The password "admin". *)
Definition admin : list Z := [97; 100; 109; 105; 110].

End Samples.

(** ** The rest of the pipeline

    The frames on the wire, the receive loop of
    [download_motion_file_h264], streams of tagged blocks, the reply
    handling of [opfilequery], the job the poll loop submits and the
    photo file it saves. *)

Module Layout.

(** [n] bytes, least significant first. *)
Definition le_bytes (n : nat) (v : Z) : bytes :=
  Struct.write_int Struct.Little n v.

(** The legacy header on the wire: magic, a zero byte, two pad bytes,
    session, sequence, two pad bytes, message id, length. *)
Definition old_header (session sq msgid len : Z) : bytes :=
  [xff; x00; x00; x00] ++ le_bytes 4 session ++ le_bytes 4 sq ++ [x00; x00]
  ++ le_bytes 2 msgid ++ le_bytes 4 len.

(** The newer header on the wire: magic, version, two pad bytes, session,
    sequence, two flag bytes, message id, length. *)
Definition new_header (ver sess sq b1 b2 msgid len : Z) : bytes :=
  [xff] ++ le_bytes 1 ver ++ [x00; x00] ++ le_bytes 4 sess ++ le_bytes 4 sq
  ++ le_bytes 1 b1 ++ le_bytes 1 b2 ++ le_bytes 2 msgid ++ le_bytes 4 len.

(** A packet as the camera frames it. *)
Definition new_frame (p : Wire.new_packet) : bytes :=
  new_header (Wire.n_ver p) (Wire.n_sess p) (Wire.n_seq p) (Wire.n_b1 p)
    (Wire.n_b2 p) (Wire.n_msgid p) (Wire.n_len p)
  ++ Wire.n_payload p.

(** Its fields fit their widths and its length field counts its
    payload. *)
Definition well_formed (p : Wire.new_packet) : Prop :=
  0 <= Wire.n_ver p < 2 ^ 8 /\ 0 <= Wire.n_sess p < 2 ^ 32 /\
  0 <= Wire.n_seq p < 2 ^ 32 /\ 0 <= Wire.n_b1 p < 2 ^ 8 /\
  0 <= Wire.n_b2 p < 2 ^ 8 /\ 0 <= Wire.n_msgid p < 2 ^ 16 /\
  Wire.n_len p = Z.of_nat (length (Wire.n_payload p)) /\
  Wire.n_len p < 2 ^ 32.

End Layout.

Module Download.
Import Wire.

(** The body of the [while True] loop of [download_motion_file_h264] on
    the data socket: [inl] is the [break], with the bytes gathered. *)
Definition absorb_packet (raw : bytes) (pkt : new_packet) : bytes + bytes :=
  let raw' :=
    if (n_msgid pkt =? 1426) && negb (bool_decide (n_payload pkt = []))
    then raw ++ n_payload pkt else raw in
  if negb (n_b2 pkt =? 0) then inl raw' else inr raw'.

(** The loop, on the bytes the peer delivers before it closes the
    connection; every packet takes 20 bytes at least off them, so [fuel]
    above their number is never used up ([None]).  A peer that never
    stops sending packets with [b2 = 0] keeps the source's [while True]
    going and is outside this model. *)
Fixpoint recv_loop (fuel : nat) (s : sock) (raw : bytes)
  : option (res (bytes * sock)) :=
  match fuel with
  | O => None
  | S fuel' =>
      match _recv_new_packet s with
      | inl e => Some (inl e)
      | inr (pkt, s') =>
          match absorb_packet raw pkt with
          | inl done => Some (inr (done, s'))
          | inr raw' => recv_loop fuel' s' raw'
          end
      end
  end.

(** From [raw_1426 = bytearray()] to [return bytes(raw_1426)]: the
    payload gathered and what is left unread on the data socket. *)
Definition recv_1426 (data_sock : sock) : option (res (bytes * sock)) :=
  recv_loop (S (length data_sock)) data_sock [].

(** [s] begins with the packets [pkts], and [rest] follows them. *)
Inductive frames : sock -> list new_packet -> sock -> Prop :=
| frames_nil s : frames s [] s
| frames_cons s pkt s' pkts rest :
    _recv_new_packet s = inr (pkt, s') -> frames s' pkts rest ->
    frames s (pkt :: pkts) rest.

(** The payloads of the archive-stream packets among [pkts]. *)
Definition payload_1426 (pkts : list new_packet) : bytes :=
  concat (n_payload <$> filter (fun p => n_msgid p = 1426) pkts).

End Download.

(** ** Streams of tagged blocks *)

Module Stream.
Import Demux.

(** From offset [i] on, the stream [s] is a run of tagged blocks, each
    with a complete sub-header and a non-empty payload, that carry the
    payloads [ps].  The last block may be cut short by the end of the
    stream, and fewer than four stray bytes may follow the last block. *)
Inductive blocks (s : bytes) : nat -> list bytes -> Prop :=
| blocks_end i : (length s < i + 4)%nat -> blocks s i []
| blocks_cut i len hend :
    block_at s i len hend -> Z.of_nat (length s - hend) < len ->
    blocks s i [drop hend s]
| blocks_cons i len hend ps :
    block_at s i len hend -> 0 < len ->
    (hend + Z.to_nat len <= length s)%nat ->
    blocks s (hend + Z.to_nat len) ps ->
    blocks s i (slice hend (hend + Z.to_nat len) s :: ps).

End Stream.

(** ** What the frame-selection loop holds *)

Module Selection.
Section WithVision.
Context {V : Vision}.

(** What the loop holds in [(chosen, chosen_idx, chosen_score)] after the
    frames [l] were read. *)
Definition best_of (mode : score_mode) (sample : list nat)
    (l : list (nat * frame)) (acc : option (frame * nat) * float) : Prop :=
  match fst acc with
  | None =>
      snd acc = (-1)%float /\
      forall j g, (j, g) ∈ l -> j ∈ sample ->
                  (-1 <? Extract.score_of mode g)%float = false
  | Some (f, i) =>
      snd acc = Extract.score_of mode f /\ i ∈ sample /\
      (-1 <? Extract.score_of mode f)%float = true /\
      exists pre post, l = pre ++ (i, f) :: post /\
        (forall j g, (j, g) ∈ pre -> j ∈ sample ->
           (Extract.score_of mode f <=? Extract.score_of mode g)%float = false) /\
        (forall j g, (j, g) ∈ post -> j ∈ sample ->
           (Extract.score_of mode f <? Extract.score_of mode g)%float = false)
  end.

(** The frames the loop reads, with their indexes. *)
Definition read_frames (sample : list nat) (frames : list frame)
  : list (nat * frame) :=
  imap (fun i f => (i, f)) (take (S (foldr Nat.max 0%nat sample)) frames).

End WithVision.
End Selection.

(** ** Cameras that differ in the motion tier only *)

Module Tiers.
Import Hybrid.

(** Two cameras that answer the photo-marker tier alike. *)
Definition same_idea1 (c c' : Camera) : Prop :=
  HAS_DVRIP c = HAS_DVRIP c' /\ cam_login c Idea1 = cam_login c' Idea1 /\
  (forall b e ev ft,
     _opfilequery c Idea1 b e ev ft = _opfilequery c' Idea1 b e ev ft) /\
  (forall f b e k,
     download_motion_file_h264 c Idea1 f b e k
     = download_motion_file_h264 c' Idea1 f b e k).

End Tiers.

(** ** What the scan keeps true of its log and its rows *)

Module Windows.
Import Index.

(** The widest window the loop can reach. *)
Definition widest (p : params) : Z := Z.max (initial_chunk p) 14400.

(** A logged query asks for a non-empty window inside the lookback range,
    no wider than its window width. *)
Definition sound_window (p : params) (e : chunk_log) : Prop :=
  oldest_allowed p <= c_begin e /\ c_begin e < c_end e /\ c_end e <= end_dt p /\
  c_end e - c_begin e <= c_chunk_sec e /\
  1 <= c_chunk_sec e <= widest p /\
  (c_parsed e <= c_raw e)%nat.

Definition windows_ok (p : params) (s : scan) : Prop :=
  chunk s <= widest p /\
  forall e, e ∈ log s -> sound_window p e.

(** Every collected row was reported by the camera in answer to a logged
    query whose window was consumed. *)
Definition reported (c : Camera) (p : params) (s : scan) : Prop :=
  forall r, r ∈ collected s ->
    __type r = "jpg" /\
    exists k e, log s !! k = Some e /\ consumed p e = true /\
                n_row r ∈ opfilequery c k (c_begin e) (c_end e).

Section WithDateTime.
Context {DT : DateTime}.

(** Every parsable row of a consumed reply has its key among the
    collected rows, and the seen set holds the keys of collected rows
    only. *)
Definition kept (c : Camera) (p : params) (s : scan) : Prop :=
  (forall key, key ∈ seen s -> exists r, r ∈ collected s /\ dedup_key r = key) /\
  forall k e, log s !! k = Some e -> consumed p e = true ->
    forall raw bt, raw ∈ opfilequery c k (c_begin e) (c_end e) ->
      strptime (row_get raw "BeginTime") = Some bt ->
      exists r, r ∈ collected s /\ dedup_key r = dedup_key (mkNrow raw bt "jpg").

End WithDateTime.
End Windows.

(** ** The jobs of a pass *)

Module Passes.
Import Polling.

(** The entries handed to [executor.submit], in program order. *)
Definition jobs (evs : list event) : list alarm_entry :=
  omap (fun e => match e with Submit x => Some x | _ => None end) evs.

End Passes.

(** ** The reply handling of [opfilequery] *)

Module Reply.

(** The Python values [json.loads] builds. *)
#[local] Unset Elimination Schemes.
Inductive pyval :=
| PNone
| PBool (b : bool)
| PInt (n : Z)
| PFloat (q : Q)
| PStr (s : string)
| PList (l : list pyval)
| PDict (d : gmap string pyval).
#[local] Set Elimination Schemes.

(** [bool(v)] *)
Definition truthy (v : pyval) : bool :=
  match v with
  | PNone => false
  | PBool b => b
  | PInt n => negb (n =? 0)
  | PFloat q => negb (Qeq_bool q 0)
  | PStr s => nonempty s
  | PList l => match l with [] => false | _ => true end
  | PDict d => negb (bool_decide (dom d = (∅ : gset string)))
  end.

(** [isinstance(v, dict)], [isinstance(v, list)] *)
Definition is_dict (v : pyval) : bool :=
  match v with PDict _ => true | _ => false end.

(** [type(v).__name__] *)
Definition type_name (v : pyval) : string :=
  match v with
  | PNone => "NoneType"
  | PBool _ => "bool"
  | PInt _ => "int"
  | PFloat _ => "float"
  | PStr _ => "str"
  | PList _ => "list"
  | PDict _ => "dict"
  end.

(** [v.get(k, dflt)]; only a dict has the method. *)
Definition get (v : pyval) (k : string) (dflt : pyval) : res pyval :=
  match v with
  | PDict d => inr (default dflt (d !! k))
  | _ =>
      raise "AttributeError"
        ("'" +:+ type_name v +:+ "' object has no attribute 'get'")
  end.

(** From [if not res] to the [if not isinstance(data, list)] test, which
    both copies of the function share: [inr None] is [return []]. *)
Definition file_list (reply : pyval) : res (option (list pyval)) :=
  if negb (truthy reply) then inr None
  else
    data ← get reply "OPFileQuery" reply;
    data ← (if is_dict data then get data "FileList" (PList []) else inr data);
    match data with
    | PList l => inr (Some l)
    | _ => inr None
    end.

(** [alarm_index.opfilequery], after [cam.send]:
    [return [r for r in data if isinstance(r, dict)]] *)
Definition index_rows (reply : pyval) : res (list pyval) :=
  data ← file_list reply;
  match data with
  | None => inr []
  | Some l => inr (filter (fun r => is_dict r = true) l)
  end.

(** [alarm_hybrid_extractor._opfilequery], after [cam.send]: the [for]
    loop that appends the dicts to [out]. *)
Definition hybrid_rows (reply : pyval) : res (list pyval) :=
  data ← file_list reply;
  match data with
  | None => inr []
  | Some l => inr (foldl (fun out r => if is_dict r then out ++ [r] else out) [] l)
  end.

End Reply.

(** ** The job the poll loop submits, and the photo file it saves *)

Module Job.

(** An entry of [store["alarms"]] as a job meets it: [a.get("file")] and
    the three keys the job writes. *)
Record alarm := mkAlarm {
  file : option string;
  photo_file : option string;
  size : nat;
  photo_meta : option Hybrid.meta
}.

(** What a job does to the outside, in program order. *)
Inductive effect :=
| Saved (alarm_id : string) (jpeg : bytes)
| Sent (text : string) (photo : option bytes).

(** [s.replace(old, new)] for one-character [old] and [new]. *)
Fixpoint replace (old new : ascii) (s : string) : string :=
  match s with
  | EmptyString => EmptyString
  | String c r =>
      String (if Ascii.eqb c old then new else c) (replace old new r)
  end.

Definition nl : string := String (ascii_of_nat 10) EmptyString.

(** The [for a in store["alarms"]] loop, which stops at the first entry
    of the job's file. *)
Fixpoint annotate (fname : string) (photo : option string) (sz : nat)
    (m : Hybrid.meta) (alarms : list alarm) : list alarm :=
  match alarms with
  | [] => []
  | a :: rest =>
      if bool_decide (file a = Some fname)
      then mkAlarm (file a) photo sz (Some m) :: rest
      else a :: annotate fname photo sz m rest
  end.

(** [f"..."], with the ["type"] the poll loop gives its entries. *)
Definition caption (dt_txt fname : string) (with_photo : bool) : string :=
  "🚨 Движение" +:+ nl +:+ "🕐 " +:+ dt_txt +:+ nl +:+ "📼 " +:+ fname
  +:+ (if with_photo then EmptyString
       else nl +:+ "⚠️ Фото не удалось достать").

Section WithCallbacks.
Context {DT : DateTime} {V : Vision}.
Variables (c : Hybrid.Camera) (password : string).
Variable save_alarm_photo : string -> bytes -> res string.
Variable send_telegram : string -> option bytes -> res unit.

(** [job(entry)] on the history [alarms]: the history it leaves, what it
    did, and the text it stores in [store["polling_last_error"]] if an
    exception was caught. *)
Definition job (entry : Polling.alarm_entry) (alarms : list alarm)
  : list alarm * list effect * option string :=
  let dt_txt := Polling.a_time entry in
  match strptime dt_txt with
  | None => (alarms, [], None)
  | Some bt =>
      let '(jpeg, meta2) :=
        Hybrid.extract_alarm_photo_hybrid c bt password 2 0.25%Q in
      let photo := match jpeg with Some (b :: j) => Some (b :: j) | _ => None end in
      let alarm_id := replace " " "_" (replace ":" "_" dt_txt) in
      let saved : res (option string) :=
        match photo with
        | Some j =>
            match save_alarm_photo alarm_id j with
            | inl e => inl e
            | inr f => inr (Some f)
            end
        | None => inr None
        end in
      let did := match photo with Some j => [Saved alarm_id j] | None => [] end in
      match saved with
      | inl e => (alarms, did, Some (exn_msg e))
      | inr photo_file =>
          let alarms' :=
            annotate (Polling.a_file entry) photo_file
              (match photo with Some j => length j | None => 0%nat end)
              meta2 alarms in
          let text :=
            caption dt_txt (Polling.a_file entry)
              (match photo with Some _ => true | None => false end) in
          let ev := did ++ [Sent text photo] in
          match send_telegram text photo with
          | inl e => (alarms', ev, Some (exn_msg e))
          | inr _ => (alarms', ev, None)
          end
      end
  end.

End WithCallbacks.
End Job.

(** [save_alarm_photo] of [server.py]: the name of the file written into
    [ALARM_PHOTOS_DIR].  A [str] is its list of code points. *)
Module Photo.

(** A code point the pattern [[^a-zA-Z0-9_\-]] does not match. *)
Definition allowed (c : Z) : bool :=
  ((97 <=? c) && (c <=? 122)) || ((65 <=? c) && (c <=? 90))
  || ((48 <=? c) && (c <=? 57)) || (c =? 95) || (c =? 45).

(** [re.sub(r"[^a-zA-Z0-9_\-]", "_", alarm_id)] *)
Definition safe_id (alarm_id : list Z) : list Z :=
  map (fun c => if allowed c then c else 95) alarm_id.

(** [f"{safe_id}.jpg"] *)
Definition filename (alarm_id : list Z) : list Z :=
  safe_id alarm_id ++ [46; 106; 112; 103].

(** The code points of a [str] of the byte-string model that holds ASCII
    only. *)
Definition code_points (s : string) : list Z :=
  map (fun a => Z.of_nat (nat_of_ascii a)) (list_ascii_of_string s).

End Photo.


(** ** The order of candidate rows, in the words of the specification *)

Module Closest.
Section WithDateTime.
Context {DT : DateTime}.

(** The parsed interval [BeginTime, EndTime] of the row [r] contains the
    time [T], given in microseconds. *)
Definition contains (r : row) (T : Z) : Prop :=
  exists bt et,
    strptime (row_get r "BeginTime") = Some bt /\
    strptime (row_get r "EndTime") = Some et /\
    bt * 1000000 <= T <= et * 1000000.

(** |BeginTime - T|, in microseconds, of a row whose BeginTime parses. *)
Definition distance (r : row) (T : Z) : option Z :=
  bt ← strptime (row_get r "BeginTime");
  Some (Z.abs (bt * 1000000 - T)).

End WithDateTime.
End Closest.

(** ** More concrete inputs *)

Module Cases.

(** A marker that ended one second before [Samples.target], and a clip
    that began half a minute before it and runs on after it. *)
Definition near_miss : row :=
  Samples.marker "/idea1/2024-05-01/001/10.00.09-10.00.09[M][@0][0].jpg"
                 "2024-05-01 10:00:09" "2024-05-01 10:00:09".

Definition long_clip : row :=
  Samples.marker "/idea0/2024-05-01/001/09.59.40-10.00.30[M][@0][0].h264"
                 "2024-05-01 09:59:40" "2024-05-01 10:00:30".

(** Two markers of no duration, half a second after and half a second
    before the time 10:00:10.5. *)
Definition row_100011 : row :=
  Samples.marker "/idea1/2024-05-01/001/10.00.11-10.00.11[M][@0][0].jpg"
                 "2024-05-01 10:00:11" "2024-05-01 10:00:11".

Definition row_100010 : row :=
  Samples.marker "/idea1/2024-05-01/001/10.00.10-10.00.10[M][@0][0].jpg"
                 "2024-05-01 10:00:10" "2024-05-01 10:00:10".

(** 2024-05-01 10:00:10.500000, in microseconds. *)
Definition target_and_a_half : Z := Samples.target * 1000000 + 500000.

(** A vision library whose frames are their three measures: sharpness,
    contrast and gray ratio.  The capture delivers a frame of contrast
    0.02 and then a frame of sharpness 0.1. *)
Definition measures : Vision := {|
  frame := float * float * float;
  capture media :=
    Some [(0, 0x1.47ae147ae147bp-6, 0); (0x1.999999999999ap-4, 0, 0)]%float;
  sharpness_score f := fst (fst f);
  contrast_score f := snd (fst f);
  gray_ratio f := snd f;
  imencode f := Some [xff; xd8; xff; xd9];
  _bottom_white_ratio jpeg := None
|}.

(** An archive-stream packet that is not the last of its download. *)
Definition first_packet : Wire.new_packet :=
  Wire.NewPacket 1 7 1 0 0 1426 2 [x01; x02].

(** Twenty bytes that do not begin with the magic byte. *)
Definition no_magic : bytes := replicate 20 x00.

(** The camera of [Samples.camera], except that the login of the motion
    tier is refused. *)
Definition camera_without_motion : Hybrid.Camera := {|
  Hybrid.HAS_DVRIP := true;
  Hybrid.cam_login t :=
    match t with Hybrid.Idea1 => inr true | Hybrid.Motion => inr false end;
  Hybrid._opfilequery t b e ev ftype :=
    match t with
    | Hybrid.Idea1 => inr Samples.three_rows
    | Hybrid.Motion => inr []
    end;
  Hybrid.download_motion_file_h264 t f b e k := inr Samples.tagged_stream
|}.

(** A store that knows the first two markers. *)
Definition seeded_store : Polling.store :=
  Polling.mkStore
    {[ "/idea1/2024-05-01/001/10.00.05-10.00.05[M][@0][0].jpg";
       "/idea1/2024-05-01/001/10.00.09-10.00.12[M][@0][0].jpg" ]}
    [] None None.

(** A pass that meets the three markers and whose second submit is
    refused. *)
Definition failing_pass : Polling.cycle :=
  Polling.mkCycle (Some "192.168.1.10") Samples.target ∅
    (inr Samples.three_rows)
    (fun k => if (k =? 1)%nat
              then Some (Exn "RuntimeError"
                           "cannot schedule new futures after shutdown")
              else None).

End Cases.

(** * Properties *)

(** ** Wire codec *)

Module WireFacts.
Import Wire.

Lemma hdr_old_size : Struct.calcsize _HDR_OLD = Some 20%nat.
Proof. reflexivity. Qed.

Lemma hdr_new_size : Struct.calcsize _HDR_NEW = Some 20%nat.
Proof. reflexivity. Qed.

Lemma recvn_inv s n data rest :
  _recvn s n = inr (data, rest) ->
  s = data ++ rest /\ length data = n.
Proof.
  unfold _recvn. case_decide as Hn; [|discriminate].
  intros [= <- <-]. split.
  - symmetry. apply take_drop.
  - rewrite length_take. lia.
Qed.

Lemma recv_old_json_inv s pkt rest :
  _recv_old_json s = inr (pkt, rest) ->
  exists hdr, s = hdr ++ o_raw pkt ++ rest /\ length hdr = 20%nat /\
              length (o_raw pkt) = Z.to_nat (o_len pkt).
Proof.
  unfold _recv_old_json. destruct (_recvn s 20) as [e|[hdr s1]] eqn:H1; [discriminate|].
  apply recvn_inv in H1 as [-> Hlen]. cbn [mbind res_bind].
  destruct (Struct.unpack _HDR_OLD hdr) as [[|? [|? [|sess [|sq [|msgid [|dlen [|? ?]]]]]]]|];
    try discriminate.
  destruct (_recvn s1 (Z.to_nat dlen)) as [e|[data s2]] eqn:H2; [discriminate|].
  apply recvn_inv in H2 as [-> Hd]. cbn [mbind res_bind].
  intros [= <- <-]. exists hdr. cbn. auto.
Qed.

Lemma recv_new_packet_inv s pkt rest :
  _recv_new_packet s = inr (pkt, rest) ->
  exists hdr, s = hdr ++ n_payload pkt ++ rest /\ length hdr = 20%nat /\
              length (n_payload pkt) = Z.to_nat (n_len pkt).
Proof.
  unfold _recv_new_packet. rewrite hdr_new_size.
  destruct (_recvn s 20) as [e|[hdr s1]] eqn:H1; [discriminate|].
  apply recvn_inv in H1 as [-> Hlen]. cbn [mbind res_bind].
  destruct (Struct.unpack _HDR_NEW hdr)
    as [[|magic [|ver [|sess [|sq [|b1 [|b2 [|msgid [|dlen [|? ?]]]]]]]]]|];
    try discriminate.
  destruct (negb (magic =? 255)); [discriminate|].
  destruct (dlen =? 0) eqn:Hz; cbn [negb].
  - cbn [mbind res_bind]. intros [= <- <-]. exists hdr. cbn.
    apply Z.eqb_eq in Hz. subst dlen. auto.
  - destruct (_recvn s1 (Z.to_nat dlen)) as [e|[data s2]] eqn:H2; [discriminate|].
    apply recvn_inv in H2 as [-> Hd]. cbn [mbind res_bind].
    intros [= <- <-]. exists hdr. cbn. auto.
Qed.

End WireFacts.

Module WireClaims.
Import Wire WireFacts.

(** C6, as written, fails: the newer header is not 16 bytes long.  Its
    format [<BBxxIIBBHI] measures 20 bytes, and a peer that delivers only
    16 header bytes leaves [_recv_new_packet] with a closed socket. *)
Lemma new_header_is_not_16_bytes :
  Struct.calcsize _HDR_NEW <> Some 16%nat /\
  _recv_new_packet Samples.sixteen_bytes
  = inl (Exn "ConnectionError" "socket closed").
Proof. split; [discriminate | reflexivity]. Qed.

(** C6 (amended).  Both header formats measure exactly 20 bytes (they
    differ in layout, not in size), and each decoder that returns a packet
    has read exactly 20 header bytes followed by exactly payload-length
    bytes of the socket. *)
Theorem both_headers_are_20_bytes :
  Struct.calcsize _HDR_OLD = Some 20%nat /\
  Struct.calcsize _HDR_NEW = Some 20%nat /\
  (forall s pkt rest, _recv_old_json s = inr (pkt, rest) ->
     exists hdr, s = hdr ++ o_raw pkt ++ rest /\ length hdr = 20%nat /\
                 length (o_raw pkt) = Z.to_nat (o_len pkt)) /\
  (forall s pkt rest, _recv_new_packet s = inr (pkt, rest) ->
     exists hdr, s = hdr ++ n_payload pkt ++ rest /\ length hdr = 20%nat /\
                 length (n_payload pkt) = Z.to_nat (n_len pkt)).
Proof.
  split; [exact hdr_old_size|]. split; [exact hdr_new_size|].
  split; [exact recv_old_json_inv | exact recv_new_packet_inv].
Qed.

Lemma both_headers_are_20_bytes_witness :
  (exists hdr, Samples.old_stream = hdr ++ o_raw Samples.old_packet ++ [] /\
               length hdr = 20%nat /\
               length (o_raw Samples.old_packet)
               = Z.to_nat (o_len Samples.old_packet)) /\
  (exists hdr, Samples.new_stream = hdr ++ n_payload Samples.new_packet ++ [xaa] /\
               length hdr = 20%nat /\
               length (n_payload Samples.new_packet)
               = Z.to_nat (n_len Samples.new_packet)).
Proof.
  split.
  - apply (proj1 (proj2 (proj2 both_headers_are_20_bytes))). reflexivity.
  - apply (proj2 (proj2 (proj2 both_headers_are_20_bytes))). reflexivity.
Defined.

End WireClaims.

Module HashFacts.
Import Wire.

Lemma write_int_length o n v : length (Struct.write_int o n v) = n.
Proof.
  unfold Struct.write_int.
  destruct o; rewrite ?length_rev, length_map, length_seq; reflexivity.
Qed.

Lemma digest_length msg : length (MD5.digest msg) = 16%nat.
Proof.
  unfold MD5.digest.
  destruct (foldl MD5.compress MD5.init (MD5.blocks (MD5.pad msg)))
    as [[[a b] c] d].
  rewrite !length_app, !write_int_length. reflexivity.
Qed.

Lemma utf8_encode_cp_scalar c :
  scalar_value c -> exists bs, utf8_encode_cp c = Some bs.
Proof.
  intros [[H0 H1] Hs]. unfold utf8_encode_cp.
  destruct (c <? 0) eqn:E0; [lia|].
  destruct (c <? 128); [eauto|].
  destruct (c <? 2048); [eauto|].
  destruct ((55296 <=? c) && (c <=? 57343)) eqn:E; [lia|].
  destruct (c <? 65536); [eauto|].
  destruct (c <=? 1114111) eqn:E1; [eauto|lia].
Qed.

Lemma utf8_encode_scalars s :
  Forall scalar_value s -> exists data, utf8_encode s = inr data.
Proof.
  induction 1 as [|c r Hc _ [data IH]]; [eexists; reflexivity|].
  destruct (utf8_encode_cp_scalar c Hc) as [bs Hbs].
  cbn. rewrite Hbs, IH. cbn. eauto.
Qed.

Lemma chars_get (n : nat) :
  (n < 62)%nat -> exists c, String.get n chars = Some c.
Proof.
  intros Hn. do 62 (destruct n as [|n]; [eexists; reflexivity|]). lia.
Qed.

Lemma get_in_list (n : nat) s c :
  String.get n s = Some c -> c ∈ list_ascii_of_string s.
Proof.
  revert n. induction s as [|a s IH]; intros [|n]; cbn; try discriminate.
  - intros [= ->]. left.
  - intros H. right. eauto.
Qed.

Lemma chars_at_mod (v : Z) :
  exists c, chars_at (v mod 62) = inr c /\
            String.get (Z.to_nat (v mod 62)) chars = Some c /\
            c ∈ list_ascii_of_string chars.
Proof.
  destruct (chars_get (Z.to_nat (v mod 62))) as [c Hc].
  { pose proof (Z.mod_pos_bound v 62). lia. }
  exists c. unfold chars_at. rewrite Hc. eauto using get_in_list.
Qed.

Lemma spec_char_shift a b d i :
  sofia_spec_char (a :: b :: d) (S i) = sofia_spec_char d i.
Proof.
  unfold sofia_spec_char.
  replace (2 * S i)%nat with (S (S (2 * i))) by lia.
  replace (S (S (2 * i)) + 1)%nat with (S (S (2 * i + 1))) by lia.
  reflexivity.
Qed.

Lemma half_length_cons2 {A} (a b : A) d :
  (length (a :: b :: d) / 2)%nat = S (length d / 2).
Proof.
  cbn [length]. replace (S (S (length d))) with (1 * 2 + length d)%nat by lia.
  rewrite Nat.div_add_l by lia. reflexivity.
Qed.

Lemma sofia_spec_cons2 a b d :
  sofia_spec (a :: b :: d)
  = String (sofia_spec_char (a :: b :: d) 0) (sofia_spec d).
Proof.
  unfold sofia_spec. rewrite half_length_cons2. cbn [seq map string_of_list_ascii].
  f_equal. f_equal. rewrite <- seq_shift, map_map.
  apply map_ext. intros i. apply spec_char_shift.
Qed.

Lemma every_other_cons {A} (b : A) d :
  every_other (b :: d) = b :: every_other (tail d).
Proof. destruct d; reflexivity. Qed.

(** The comprehension over [zip(md5[0::2], md5[1::2])] computes the
    token of the specification, on a digest of any length. *)
Lemma join_chars_spec d :
  join_chars (zip (every_other d) (every_other (tail d))) = inr (sofia_spec d)
  /\ Forall (fun c => c ∈ list_ascii_of_string chars)
            (list_ascii_of_string (sofia_spec d)).
Proof.
  induction d as [d IH] using (induction_ltof1 _ length). unfold ltof in IH.
  destruct d as [|a [|b d]].
  - split; [reflexivity | constructor].
  - split; [reflexivity | constructor].
  - destruct (IH d) as [IH1 IH2]; [cbn; lia|].
    rewrite sofia_spec_cons2.
    assert (zip (every_other (a :: b :: d)) (every_other (tail (a :: b :: d)))
            = (a, b) :: zip (every_other d) (every_other (tail d))) as ->.
    { cbn [tail]. rewrite (every_other_cons b d). reflexivity. }
    destruct (chars_at_mod (b2z a + b2z b)) as (c & Hc & Hg & Hin).
    cbn [join_chars]. rewrite Hc. cbn [mbind res_bind]. rewrite IH1.
    cbn [mbind res_bind].
    assert (sofia_spec_char (a :: b :: d) 0 = c) as ->.
    { unfold sofia_spec_char. cbn [Nat.mul Nat.add nth]. rewrite Hg. reflexivity. }
    split; [reflexivity|]. cbn. constructor; assumption.
Qed.

Lemma sofia_spec_length d : String.length (sofia_spec d) = (length d / 2)%nat.
Proof.
  unfold sofia_spec.
  assert (forall l, String.length (string_of_list_ascii l) = length l) as Hl.
  { intros l. induction l as [|c l IH]; [reflexivity|].
    cbn [string_of_list_ascii String.length length]. f_equal. exact IH. }
  rewrite Hl, length_map, length_seq. reflexivity.
Qed.

End HashFacts.

Module HashClaims.
Import Wire HashFacts.

(** C7.  For every password made of encodable code points, [_sofia_hash]
    returns a token; it is a function of the password (equal passwords
    give equal tokens), it is the pairwise (even byte + odd byte) mod 62
    mapping of the MD5 digest of the UTF-8 password through the
    62-character alphabet, it is 8 characters long whatever the password,
    and each of its characters belongs to the alphabet. *)
Theorem sofia_hash_token (password : list Z) :
  Forall scalar_value password ->
  exists data tok,
    utf8_encode password = inr data /\
    _sofia_hash password = inr tok /\
    (forall password', password' = password -> _sofia_hash password' = inr tok) /\
    tok = sofia_spec (MD5.digest data) /\
    String.length tok = 8%nat /\
    Forall (fun c => c ∈ list_ascii_of_string chars) (list_ascii_of_string tok).
Proof.
  intros Hs. destruct (utf8_encode_scalars password Hs) as [data Hd].
  destruct (join_chars_spec (MD5.digest data)) as [Hj Ha].
  assert (_sofia_hash password = inr (sofia_spec (MD5.digest data))) as Hh.
  { unfold _sofia_hash. rewrite Hd. cbn [mbind res_bind]. exact Hj. }
  exists data, (sofia_spec (MD5.digest data)).
  split; [exact Hd|]. split; [exact Hh|].
  split; [intros ? ->; exact Hh|]. split; [reflexivity|]. split; [|exact Ha].
  rewrite sofia_spec_length, digest_length. reflexivity.
Qed.

Lemma sofia_hash_token_witness :
  exists data tok,
    utf8_encode Samples.admin = inr data /\
    _sofia_hash Samples.admin = inr tok /\
    (forall password', password' = Samples.admin -> _sofia_hash password' = inr tok) /\
    tok = sofia_spec (MD5.digest data) /\
    String.length tok = 8%nat /\
    Forall (fun c => c ∈ list_ascii_of_string chars) (list_ascii_of_string tok).
Proof.
  apply (sofia_hash_token Samples.admin).
  unfold Samples.admin, scalar_value. repeat constructor; lia.
Defined.

(** The token of "admin", as the camera expects it. *)
Example sofia_hash_admin : _sofia_hash Samples.admin = inr "6QNMIQGe".
Proof. vm_compute. reflexivity. Qed.

End HashClaims.

(** ** Media demuxer *)

Module DemuxFacts.
Import Demux.

Lemma slice_length {A} (a n : nat) (l : list A) :
  (a + n <= length l)%nat -> length (slice a (a + n) l) = n.
Proof.
  intros H. unfold slice. rewrite length_take, length_drop. lia.
Qed.

(** [struct.unpack] succeeds on a buffer of the size of its format. *)
Lemma unpack_sized fmt o cs lay total data :
  Struct.parse fmt = Some (o, cs) ->
  Struct.layout o cs 0 = (lay, total) ->
  length data = total ->
  Struct.unpack fmt data = Some (flat_map (Struct.field o data) lay).
Proof.
  intros Hp Hl Hd. unfold Struct.unpack. rewrite Hp. cbn [mbind option_bind].
  rewrite Hl. rewrite decide_True by exact Hd. reflexivity.
Qed.

Lemma unpack_dword data :
  length data = 4%nat ->
  nth_field ">I" 0 data = Some (Struct.be_int data).
Proof.
  intros H. unfold nth_field.
  rewrite (unpack_sized ">I" Struct.Big [Struct.cI] [(Struct.cI, 0%nat)] 4 data)
    by (reflexivity || exact H).
  cbn. rewrite drop_0, take_ge by (rewrite H; lia). reflexivity.
Qed.

Lemma unpack_video data :
  length data = 12%nat -> exists v, nth_field "BBBBII" 5 data = Some v.
Proof.
  intros H. unfold nth_field.
  erewrite (unpack_sized "BBBBII") by (reflexivity || exact H).
  cbn. eauto.
Qed.

Lemma unpack_audio data :
  length data = 4%nat -> exists v, nth_field "I" 0 data = Some v.
Proof.
  intros H. unfold nth_field.
  erewrite (unpack_sized "I") by (reflexivity || exact H).
  cbn. eauto.
Qed.

Lemma unpack_aux data :
  length data = 4%nat -> exists v, nth_field "BBH" 2 data = Some v.
Proof.
  intros H. unfold nth_field.
  erewrite (unpack_sized "BBH") by (reflexivity || exact H).
  cbn. eauto.
Qed.

Lemma copy_adv s c c0 r o :
  (c0 <= c <= length s)%nat -> (c0 < c)%nat \/ 0 < r ->
  advances s c0 (copy s c r o).
Proof.
  intros Hc Hr. unfold copy.
  destruct (Z.min r (Z.of_nat (length s) - Z.of_nat c) <=? 0) eqn:E; cbn; [exact I|].
  apply Z.leb_gt in E. lia.
Qed.

Lemma step_advances s x :
  (cursor x < length s)%nat ->
  exists r, step s x = Some r /\ advances s (cursor x) r.
Proof.
  intros Hc. unfold step.
  destruct (remain x =? 0) eqn:Hr.
  - destruct (length s <? cursor x + 4)%nat eqn:H4; [eexists; split; [reflexivity|exact I]|].
    apply Nat.ltb_ge in H4.
    rewrite unpack_dword by (apply slice_length; lia). cbn [mbind option_bind].
    set (dtype := Struct.be_int _).
    destruct ((dtype =? 508) || (dtype =? 510)).
    { destruct (length s <? cursor x + 4 + 12)%nat eqn:H12;
        [eexists; split; [reflexivity|exact I]|].
      apply Nat.ltb_ge in H12.
      destruct (unpack_video (slice (cursor x + 4) (cursor x + 4 + 12) s)) as [v ->];
        [apply slice_length; lia|].
      cbn [mbind option_bind]. eexists; split; [reflexivity|].
      apply copy_adv; lia. }
    destruct (dtype =? 509).
    { destruct (length s <? cursor x + 4 + 4)%nat eqn:H8;
        [eexists; split; [reflexivity|exact I]|].
      apply Nat.ltb_ge in H8.
      destruct (unpack_audio (slice (cursor x + 4) (cursor x + 4 + 4) s)) as [v ->];
        [apply slice_length; lia|].
      cbn [mbind option_bind]. eexists; split; [reflexivity|].
      apply copy_adv; lia. }
    destruct ((dtype =? 506) || (dtype =? 505)).
    { destruct (length s <? cursor x + 4 + 4)%nat eqn:H8;
        [eexists; split; [reflexivity|exact I]|].
      apply Nat.ltb_ge in H8.
      destruct (unpack_aux (slice (cursor x + 4) (cursor x + 4 + 4) s)) as [v ->];
        [apply slice_length; lia|].
      cbn [mbind option_bind]. eexists; split; [reflexivity|].
      apply copy_adv; lia. }
    destruct (dtype =? 4292411360);
      (eexists; split; [reflexivity|]); unfold advances; cbn [cursor]; lia.
  - eexists; split; [reflexivity|].
    unfold copy.
    destruct (Z.min (remain x) (Z.of_nat (length s) - Z.of_nat (cursor x)) <=? 0)
      eqn:E; cbn; [exact I|].
    apply Z.leb_gt in E. lia.
Qed.

Lemma loop_returns fuel s x :
  (length s <= fuel + cursor x)%nat -> exists o, loop fuel s x = Some o.
Proof.
  revert x. induction fuel as [|fuel IH]; intros x Hf.
  - cbn [loop]. destruct (cursor x <? length s)%nat eqn:E; [|eauto].
    apply Nat.ltb_lt in E. lia.
  - cbn [loop]. destruct (cursor x <? length s)%nat eqn:E; [|eauto].
    apply Nat.ltb_lt in E.
    destruct (step_advances s x E) as (r & -> & Hadv).
    destruct r as [o|x']; [eauto|]. cbn in Hadv. apply IH. lia.
Qed.

(** The demuxer returns on every input. *)
Lemma demux_total s : exists o, _extract_media_from_1426 s = Some o.
Proof. apply loop_returns. cbn. lia. Qed.

Lemma reach_cursor s k x : reach s k x -> (k <= cursor x <= length s)%nat.
Proof.
  induction 1 as [|k x x' _ IH Hc Hs]; [cbn; lia|].
  destruct (step_advances s x Hc) as (r & Hr & Hadv).
  rewrite Hs in Hr. injection Hr as <-. cbn in Hadv. lia.
Qed.

Lemma reach_loop s k x :
  reach s k x ->
  forall fuel, loop (k + fuel) s (St 0 0 []) = loop fuel s x.
Proof.
  induction 1 as [|k x x' _ IH Hc Hs]; intros fuel; [reflexivity|].
  replace (S k + fuel)%nat with (k + S fuel)%nat by lia.
  rewrite IH. cbn [loop].
  apply Nat.ltb_lt in Hc. rewrite Hc, Hs. reflexivity.
Qed.


(** Slices below [L] only depend on the first [L] bytes. *)
Lemma slice_prefix {A} (s s' : list A) (L a b : nat) :
  take L s = take L s' -> (b <= L)%nat -> slice a b s = slice a b s'.
Proof.
  intros Ht Hb. unfold slice.
  destruct (decide (a <= b)%nat) as [Hab|Hab].
  - rewrite !take_drop_commute. replace (a + (b - a))%nat with b by lia.
    replace b with (Nat.min b L) by lia. rewrite <- !take_take, Ht.
    reflexivity.
  - replace (b - a)%nat with 0%nat by lia. reflexivity.
Qed.

Lemma prefix_length {A} (s s' : list A) (L : nat) :
  take L s = take L s' -> (L <= length s)%nat -> (L <= length s')%nat.
Proof.
  intros Ht HL. apply (f_equal length) in Ht. rewrite !length_take in Ht. lia.
Qed.

Lemma copy_prefix s s' L c r o x' :
  take L s = take L s' -> (L <= length s)%nat ->
  copy s c r o = inr x' -> (cursor x' + 4 <= L)%nat ->
  copy s' c r o = inr x'.
Proof.
  intros Ht HL Hc Hx. pose proof (prefix_length s s' L Ht HL) as HL'.
  unfold copy in *.
  destruct (Z.min r (Z.of_nat (length s) - Z.of_nat c) <=? 0) eqn:E;
    [discriminate|].
  apply Z.leb_gt in E. injection Hc as <-. cbn [cursor] in Hx.
  assert (Z.min r (Z.of_nat (length s) - Z.of_nat c) = r) as Hr by lia.
  rewrite Hr in *.
  replace (Z.min r (Z.of_nat (length s') - Z.of_nat c)) with r by lia.
  replace (r <=? 0) with false by (symmetry; apply Z.leb_gt; lia).
  rewrite (slice_prefix s s' L) by (assumption || lia). reflexivity.
Qed.

(** An iteration that stays well inside the first [L] bytes runs the same
    on every stream with these first bytes. *)
Lemma step_prefix s s' L x x' :
  take L s = take L s' -> (L <= length s)%nat ->
  step s x = Some (inr x') -> (cursor x < cursor x')%nat ->
  (cursor x' + 4 <= L)%nat ->
  step s' x = Some (inr x').
Proof.
  intros Ht HL Hs Hlt Hx. pose proof (prefix_length s s' L Ht HL) as HL'.
  unfold step in *. destruct (remain x =? 0).
  - destruct (length s <? cursor x + 4)%nat eqn:H4; [discriminate|].
    replace (length s' <? cursor x + 4)%nat with false
      by (symmetry; apply Nat.ltb_ge; lia).
    rewrite <- (slice_prefix s s' L (cursor x) (cursor x + 4))
      by (assumption || lia).
    destruct (nth_field ">I" 0 (slice (cursor x) (cursor x + 4) s)) as [dtype|];
      [|discriminate].
    cbn [mbind option_bind] in *.
    destruct ((dtype =? 508) || (dtype =? 510)).
    { destruct (length s <? cursor x + 4 + 12)%nat eqn:H12; [discriminate|].
      destruct (nth_field "BBBBII" 5 _) as [r|] eqn:Hr; [|discriminate].
      cbn [mbind option_bind] in Hs. injection Hs as Hs.
      assert (cursor x + 4 + 12 <= cursor x')%nat as Hge.
      { unfold copy in Hs. destruct (_ <=? 0); [discriminate|].
        injection Hs as <-. cbn [cursor]. lia. }
      replace (length s' <? cursor x + 4 + 12)%nat with false
        by (symmetry; apply Nat.ltb_ge; lia).
      rewrite <- (slice_prefix s s' L (cursor x + 4) (cursor x + 4 + 12))
        by (assumption || lia).
      rewrite Hr. cbn [mbind option_bind]. f_equal.
      eapply copy_prefix; eassumption. }
    destruct (dtype =? 509).
    { destruct (length s <? cursor x + 4 + 4)%nat eqn:H8; [discriminate|].
      destruct (nth_field "I" 0 _) as [r|] eqn:Hr; [|discriminate].
      cbn [mbind option_bind] in Hs. injection Hs as Hs.
      assert (cursor x + 4 + 4 <= cursor x')%nat as Hge.
      { unfold copy in Hs. destruct (_ <=? 0); [discriminate|].
        injection Hs as <-. cbn [cursor]. lia. }
      replace (length s' <? cursor x + 4 + 4)%nat with false
        by (symmetry; apply Nat.ltb_ge; lia).
      rewrite <- (slice_prefix s s' L (cursor x + 4) (cursor x + 4 + 4))
        by (assumption || lia).
      rewrite Hr. cbn [mbind option_bind]. f_equal.
      eapply copy_prefix; eassumption. }
    destruct ((dtype =? 506) || (dtype =? 505)).
    { destruct (length s <? cursor x + 4 + 4)%nat eqn:H8; [discriminate|].
      destruct (nth_field "BBH" 2 _) as [r|] eqn:Hr; [|discriminate].
      cbn [mbind option_bind] in Hs. injection Hs as Hs.
      assert (cursor x + 4 + 4 <= cursor x')%nat as Hge.
      { unfold copy in Hs. destruct (_ <=? 0); [discriminate|].
        injection Hs as <-. cbn [cursor]. lia. }
      replace (length s' <? cursor x + 4 + 4)%nat with false
        by (symmetry; apply Nat.ltb_ge; lia).
      rewrite <- (slice_prefix s s' L (cursor x + 4) (cursor x + 4 + 4))
        by (assumption || lia).
      rewrite Hr. cbn [mbind option_bind]. f_equal.
      eapply copy_prefix; eassumption. }
    exact Hs.
  - injection Hs as Hs. f_equal. eapply copy_prefix; eassumption.
Qed.

Lemma reach_prefix s s' L k x :
  take L s = take L s' -> (L <= length s)%nat ->
  reach s k x -> (cursor x + 4 <= L)%nat -> reach s' k x.
Proof.
  intros Ht HL Hr. pose proof (prefix_length s s' L Ht HL) as HL'.
  induction Hr as [|k x x' Hr IH Hc Hs]; intros Hx; [constructor|].
  destruct (step_advances s x Hc) as (r & Hr' & Hadv).
  rewrite Hs in Hr'. injection Hr' as <-. cbn in Hadv.
  eapply reach_step.
  - apply IH. lia.
  - lia.
  - eapply step_prefix; try eassumption. lia.
Qed.

Lemma block_at_prefix s s' i len hend :
  take hend s = take hend s' -> block_at s i len hend -> block_at s' i len hend.
Proof.
  intros Ht (dtype & Hend & Hd & Hb).
  pose proof (prefix_length s s' hend Ht Hend) as Hend'.
  exists dtype. split; [exact Hend'|].
  unfold dword_at in *.
  assert (i + 8 <= hend)%nat as Hi
    by (destruct Hb as [(_ & -> & _) | [(_ & -> & _) | (_ & -> & _)]]; lia).
  rewrite <- (slice_prefix s s' hend i (i + 4)) by (assumption || lia).
  split; [exact Hd|].
  destruct Hb as [(Hv & -> & Hf) | [(Ha & -> & Hf) | (Hx & -> & Hf)]];
    [left | right; left | right; right];
    (split; [assumption|]); (split; [reflexivity|]);
    rewrite <- (slice_prefix s s' _ _ _ Ht) by lia; exact Hf.
Qed.

Lemma zero_block_stops s k x hend :
  reach s k x -> remain x = 0 -> block_at s (cursor x) 0 hend ->
  _extract_media_from_1426 s = Some (out x).
Proof.
  intros Hr Hrem (dtype & Hend & Hd & Hb).
  assert (cursor x + 4 <= length s)%nat as H4
    by (destruct Hb as [(_ & -> & _) | [(_ & -> & _) | (_ & -> & _)]]; lia).
  pose proof (reach_cursor s k x Hr) as Hk.
  unfold _extract_media_from_1426.
  replace (length s) with (k + S (length s - k - 1))%nat at 1 by lia.
  rewrite (reach_loop s k x Hr). cbn [loop].
  replace (cursor x <? length s)%nat with true by (symmetry; apply Nat.ltb_lt; lia).
  unfold step. rewrite Hrem. cbn [Z.eqb].
  replace (length s <? cursor x + 4)%nat with false
    by (symmetry; apply Nat.ltb_ge; lia).
  unfold dword_at in Hd. rewrite Hd. cbn [mbind option_bind].
  assert (forall c, copy s c 0 (out x) = inl (out x)) as Hcopy.
  { intros c. unfold copy.
    replace (Z.min 0 (Z.of_nat (length s) - Z.of_nat c) <=? 0) with true
      by (symmetry; apply Z.leb_le; lia).
    reflexivity. }
  unfold is_video, is_audio, is_aux in Hb.
  destruct Hb as [(Hv & -> & Hf) | [(Ha & -> & Hf) | (Hx & -> & Hf)]].
  - rewrite Hv.
    replace (length s <? cursor x + 4 + 12)%nat with false
      by (symmetry; apply Nat.ltb_ge; lia).
    rewrite Hf. cbn [mbind option_bind]. rewrite Hcopy. reflexivity.
  - destruct ((dtype =? 508) || (dtype =? 510)) eqn:Hv.
    { apply orb_true_iff in Hv. apply Z.eqb_eq in Ha. lia. }
    rewrite Ha.
    replace (length s <? cursor x + 4 + 4)%nat with false
      by (symmetry; apply Nat.ltb_ge; lia).
    rewrite Hf. cbn [mbind option_bind]. rewrite Hcopy. reflexivity.
  - destruct ((dtype =? 508) || (dtype =? 510)) eqn:Hv.
    { apply orb_true_iff in Hv. apply orb_true_iff in Hx. lia. }
    destruct (dtype =? 509) eqn:Ha.
    { apply orb_true_iff in Hx. lia. }
    rewrite Hx.
    replace (length s <? cursor x + 4 + 4)%nat with false
      by (symmetry; apply Nat.ltb_ge; lia).
    rewrite Hf. cbn [mbind option_bind]. rewrite Hcopy. reflexivity.
Qed.

End DemuxFacts.

Module DemuxClaims.
Import Demux DemuxFacts.

Lemma untagged_loop s :
  (forall i d, dword_at s i = Some d -> (i + 4 <= length s)%nat ->
               is_tag d = false) ->
  forall fuel c, (length s <= fuel + c)%nat -> loop fuel s (St c 0 []) = Some [].
Proof.
  intros Hno. induction fuel as [|fuel IH]; intros c Hf; cbn [loop cursor out].
  - destruct (c <? length s)%nat eqn:E; [|reflexivity].
    apply Nat.ltb_lt in E. lia.
  - destruct (c <? length s)%nat eqn:E; [|reflexivity].
    unfold step. cbn [cursor remain out Z.eqb].
    destruct (length s <? c + 4)%nat eqn:H4; [reflexivity|].
    apply Nat.ltb_ge in H4.
    pose proof (unpack_dword (slice c (c + 4) s)) as Hd.
    rewrite Hd by (apply slice_length; lia). cbn [mbind option_bind].
    specialize (Hno c _ (Hd ltac:(apply slice_length; lia)) H4).
    unfold is_tag, is_video, is_audio, is_aux, is_soi in Hno.
    apply orb_false_elim in Hno as [Hno Hsoi].
    apply orb_false_elim in Hno as [Hno Haux].
    apply orb_false_elim in Hno as [Hvid Haud].
    rewrite Hvid, Haud, Haux, Hsoi.
    apply IH. lia.
Qed.

(** C8, as written, fails: the output of a first demux that looks
    elementary (it opens with an H.264 start code) is not passed through
    by a second demux, which returns the empty byte string. *)
Lemma demux_is_not_idempotent :
  _extract_media_from_1426 Samples.tagged_stream = Some Samples.elementary /\
  _extract_media_from_1426 Samples.elementary = Some [] /\
  _extract_media_from_1426 Samples.elementary <> Some Samples.elementary.
Proof. split; [reflexivity | split; [reflexivity | discriminate]]. Qed.

(** C8 (amended).  On every byte stream in which no 4-byte window is a
    recognised block tag or the JPEG-SOI dword (an output that looks
    elementary and carries no tag pattern), the demuxer returns the empty
    byte string: demuxing again discards such a stream, it is neither a
    no-op nor a pass-through. *)
Theorem demux_of_untagged_stream_is_empty s :
  (forall i d, dword_at s i = Some d -> (i + 4 <= length s)%nat ->
               is_tag d = false) ->
  _extract_media_from_1426 s = Some [].
Proof. intros Hno. apply untagged_loop; [exact Hno | lia]. Qed.

Lemma demux_of_untagged_stream_is_empty_witness :
  _extract_media_from_1426 Samples.elementary = Some [].
Proof.
  apply (demux_of_untagged_stream_is_empty Samples.elementary).
  intros i d Hd Hi.
  do 5 (destruct i as [|i]; [vm_compute in Hd; injection Hd as <-; reflexivity|]).
  simpl in Hi. lia.
Defined.

(** C10.  When the loop, at the head of a block ([remain = 0]), reads a
    recognised tag (video, audio or auxiliary) whose complete sub-header
    declares a payload length of 0, [_extract_media_from_1426] returns at
    once with the output accumulated before that block.  What follows the
    sub-header is never looked at: every stream with the same bytes up to
    the end of that sub-header gives the same result. *)
Theorem zero_length_block_ends_demux s k x hend :
  reach s k x -> remain x = 0 -> block_at s (cursor x) 0 hend ->
  _extract_media_from_1426 s = Some (out x) /\
  forall s', take hend s' = take hend s ->
             _extract_media_from_1426 s' = Some (out x).
Proof.
  intros Hr Hrem Hb.
  assert (forall s', take hend s' = take hend s ->
                     _extract_media_from_1426 s' = Some (out x)) as Hall.
  { intros s' Ht. symmetry in Ht.
    assert (hend <= length s)%nat as Hend by (destruct Hb as (? & ? & _); lia).
    assert (cursor x + 4 <= hend)%nat as Hx.
    { destruct Hb as (? & _ & _ & [(_ & -> & _) | [(_ & -> & _) | (_ & -> & _)]]);
        lia. }
    apply (zero_block_stops s' k x hend).
    - eapply reach_prefix; eassumption.
    - exact Hrem.
    - eapply block_at_prefix; eassumption. }
  split; [apply Hall; reflexivity | exact Hall].
Qed.

Lemma zero_length_block_ends_demux_witness :
  _extract_media_from_1426 Samples.zero_block_stream = Some [xaa; xbb] /\
  forall s', take 34 s' = take 34 Samples.zero_block_stream ->
             _extract_media_from_1426 s' = Some [xaa; xbb].
Proof.
  apply (zero_length_block_ends_demux Samples.zero_block_stream 1
           (St 18 0 [xaa; xbb]) 34).
  - eapply reach_step; [apply reach_init | vm_compute; lia | reflexivity].
  - reflexivity.
  - exists 510. split; [vm_compute; lia|]. split; [reflexivity|].
    left. split; [reflexivity|]. split; reflexivity.
Defined.

End DemuxClaims.

(** ** Hybrid extraction *)

Module HybridFacts.
Import Hybrid.

Lemma Qltb_true x y : Qltb x y = true <-> (x < y)%Q.
Proof.
  unfold Qltb. rewrite negb_true_iff. split.
  - intros H. apply Qnot_le_lt. intros Hle.
    apply Qle_bool_iff in Hle. congruence.
  - intros H. destruct (Qle_bool y x) eqn:E; [|reflexivity].
    apply Qle_bool_iff in E. exfalso. exact (Qlt_not_le _ _ H E).
Qed.

Lemma Qltb_false x y : Qltb x y = false <-> (y <= x)%Q.
Proof.
  unfold Qltb. rewrite negb_false_iff. apply Qle_bool_iff.
Qed.

Lemma key_lt_true k1 k2 :
  key_lt k1 k2 = true <->
  fst k1 < fst k2 \/ (fst k1 = fst k2 /\ (snd k1 < snd k2)%Q).
Proof.
  unfold key_lt.
  rewrite orb_true_iff, andb_true_iff, Z.ltb_lt, Z.eqb_eq, Qltb_true.
  reflexivity.
Qed.

Lemma key_lt_false k1 k2 :
  key_lt k1 k2 = false <->
  fst k2 < fst k1 \/ (fst k1 = fst k2 /\ (snd k2 <= snd k1)%Q).
Proof.
  unfold key_lt.
  rewrite orb_false_iff, andb_false_iff, Z.ltb_ge, Z.eqb_neq, Qltb_false.
  split.
  - intros [H1 [H2|H2]]; [left; lia|].
    destruct (Z.eq_dec (fst k1) (fst k2)); [right; auto|left; lia].
  - intros [H|[H1 H2]]; (split; [lia|]); [left; lia|right; exact H2].
Qed.

Lemma key_lt_trans a b c :
  key_lt a b = true -> key_lt b c = true -> key_lt a c = true.
Proof.
  rewrite !key_lt_true.
  intros [H1|[H1 H1']] [H2|[H2 H2']]; try (left; lia).
  right. split; [lia|]. eapply Qlt_trans; eassumption.
Qed.

Lemma key_lt_le_trans a b c :
  key_lt a b = true -> key_lt c b = false -> key_lt a c = true.
Proof.
  rewrite !key_lt_true, key_lt_false.
  intros [H1|[H1 H1']] [H2|[H2 H2']]; try (left; lia).
  right. split; [lia|]. eapply Qlt_le_trans; eassumption.
Qed.

(** The sign of the dividend only signs the quotient. *)
Lemma SFdiv_sign s m d :
  SFdiv prec emax (S754_finite s m 0) (S754_finite false d 0) =
  match SFdiv prec emax (S754_finite false m 0) (S754_finite false d 0) with
  | S754_finite _ m' e' => S754_finite s m' e'
  | S754_zero _ => S754_zero s
  | S754_infinity _ => S754_infinity s
  | S754_nan => S754_nan
  end.
Proof.
  unfold SFdiv. rewrite xorb_false_r. cbn [xorb].
  destruct (SFdiv_core_binary _ _ _ _ _ _) as [[mz ez] lz].
  unfold binary_round_aux.
  destruct (shr_fexp _ _ _ _ _) as [mrs' e'].
  destruct (shr_fexp _ _ _ _ _) as [mrs'' e''].
  destruct (shr_m mrs''); [reflexivity| |reflexivity].
  destruct (_ <=? _); reflexivity.
Qed.

Lemma float_value_sign m e :
  (Qabs (float_value (S754_finite true m e))
   == float_value (S754_finite false m e))%Q /\
  (Qabs (float_value (S754_finite false m e))
   == float_value (S754_finite false m e))%Q.
Proof.
  assert (0 <= Qpower 2 e)%Q as Hp by (apply Qpower_0_le; discriminate).
  unfold float_value. rewrite !Qabs_Qmult, (Qabs_pos _ Hp).
  split; reflexivity.
Qed.

(** [abs(td.total_seconds())] is [total_seconds()] of the absolute
    difference. *)
Lemma total_seconds_abs us :
  (Qabs (total_seconds us) == total_seconds (Z.abs us))%Q.
Proof.
  unfold total_seconds. destruct us as [|m|m];
    [change (Z.abs 0) with 0|change (Z.abs (Z.pos m)) with (Z.pos m)
    |change (Z.abs (Z.neg m)) with (Z.pos m)]; cbn [int_operand].
  - reflexivity.
  - pose proof (SFdiv_sign false m 1000000) as H.
    destruct (SFdiv prec emax (S754_finite false m 0) _) as [sg|sg| |sg m' e'];
      try reflexivity.
    injection H as ->. apply float_value_sign.
  - rewrite (SFdiv_sign true m 1000000).
    pose proof (SFdiv_sign false m 1000000) as H.
    destruct (SFdiv prec emax (S754_finite false m 0) _) as [sg|sg| |sg m' e'];
      try reflexivity.
    injection H as ->. apply float_value_sign.
Qed.

(** [total_seconds()] rounds once: a second and a half is exact, a
    microsecond is the float nearest to 0.000001, and 2^53 + 1
    microseconds are divided as the integer they are, not as the float
    nearest to it. *)
Lemma total_seconds_rounds_once :
  (total_seconds 1500000 == 3 # 2)%Q /\
  (total_seconds (-290000000) == -290)%Q /\
  (total_seconds 1 == inject_Z 0x10c6f7a0b5ed8d * Qpower 2 (-72))%Q /\
  (total_seconds 9007199254740993
   == inject_Z 0x10c6f7a0b5ed8e * Qpower 2 (-19))%Q.
Proof. repeat split; vm_compute; reflexivity. Qed.

Section WithLibraries.
Context {DT : DateTime}.

Lemma key_of_parses r target :
  key_of r target = None <-> strptime (row_get r "BeginTime") = None.
Proof.
  unfold key_of, _parse_dt.
  destruct (strptime (row_get r "BeginTime")); cbn [mbind option_bind];
    split; congruence.
Qed.

(** The key the code computes is the key of the specification: the
    flag tells whether the interval contains the target, and the second
    component is the distance, in seconds as [total_seconds()] gives
    them. *)
Lemma key_of_spec r target k :
  key_of r target = Some k ->
  exists d,
    Closest.distance r target = Some d /\
    (snd k == total_seconds d)%Q /\
    ((fst k = 0 /\ Closest.contains r target) \/
     (fst k = 1 /\ ~ Closest.contains r target)).
Proof.
  unfold key_of, Closest.distance, Closest.contains, _parse_dt.
  destruct (strptime (row_get r "BeginTime")) as [bt|]; [|discriminate].
  cbn [mbind option_bind]. intros [= <-]. cbn [fst snd].
  eexists. split; [reflexivity|]. split; [apply total_seconds_abs|].
  destruct (strptime (row_get r "EndTime")) as [et|].
  - destruct ((bt * 1000000 <=? target) && (target <=? et * 1000000)) eqn:E.
    + apply andb_true_iff in E as [E1 E2].
      apply Z.leb_le in E1. apply Z.leb_le in E2.
      left. split; [reflexivity|]. exists bt, et. auto.
    + right. split; [reflexivity|]. intros (bt' & et' & [= <-] & [= <-] & H).
      apply andb_false_iff in E as [E|E]; apply Z.leb_gt in E; lia.
  - right. split; [reflexivity|]. intros (bt' & et' & _ & [=] & _).
Qed.

Lemma distance_key r target d :
  Closest.distance r target = Some d ->
  exists k, key_of r target = Some k.
Proof.
  unfold Closest.distance, key_of, _parse_dt.
  destruct (strptime (row_get r "BeginTime")) as [bt|]; [|discriminate].
  cbn [mbind option_bind]. intros _. eexists. reflexivity.
Qed.

Lemma pick_fold rows target :
  picked_from rows target (foldl (pick_step target) None rows).
Proof.
  induction rows as [|x l IH] using rev_ind.
  - intros r Hr. inversion Hr.
  - rewrite foldl_app. cbn [foldl]. unfold pick_step at 1.
    destruct (foldl (pick_step target) None l) as [[r k]|];
      destruct (key_of x target) as [kx|] eqn:Hx; cbn [picked_from] in *.
    + destruct IH as (pre & post & -> & Hk & Hpre & Hpost).
      destruct (key_lt kx k) eqn:Hlt.
      * exists (pre ++ r :: post), []. split; [reflexivity|]. split; [exact Hx|].
        split; [|intros r' k' Hin; inversion Hin].
        intros r' k' Hin Hk'.
        apply elem_of_app in Hin as [Hin|Hin].
        { eapply key_lt_trans; [exact Hlt|]. eapply Hpre; eassumption. }
        apply elem_of_cons in Hin as [->|Hin].
        { rewrite Hk in Hk'. injection Hk' as <-. exact Hlt. }
        eapply key_lt_le_trans; [exact Hlt|]. eapply Hpost; eassumption.
      * exists pre, (post ++ [x]). rewrite <- app_assoc. split; [reflexivity|].
        split; [exact Hk|]. split; [exact Hpre|].
        intros r' k' Hin Hk'. apply elem_of_app in Hin as [Hin|Hin]; [eauto|].
        apply list_elem_of_singleton in Hin as ->.
        rewrite Hx in Hk'. injection Hk' as <-. exact Hlt.
    + destruct IH as (pre & post & -> & Hk & Hpre & Hpost).
      exists pre, (post ++ [x]). rewrite <- app_assoc. split; [reflexivity|].
      split; [exact Hk|]. split; [exact Hpre|].
      intros r' k' Hin Hk'. apply elem_of_app in Hin as [Hin|Hin]; [eauto|].
      apply list_elem_of_singleton in Hin as ->. congruence.
    + exists l, []. split; [reflexivity|]. split; [exact Hx|].
      split; [|intros r' k' Hin; inversion Hin].
      intros r' k' Hin Hk'. rewrite (IH _ Hin) in Hk'. discriminate.
    + intros r Hin. apply elem_of_app in Hin as [Hin|Hin]; [eauto|].
      apply list_elem_of_singleton in Hin as ->. exact Hx.
Qed.

(** The attempts of [retry_loop], from attempt [a] with [n] left. *)
Lemma retry_loop_attempts (dl : Z -> res bytes) tries :
  forall n a last,
    Z.of_nat n = tries - a + 1 -> (0 < n)%nat ->
    exists m : nat,
      a + Z.of_nat m <= tries /\
      snd (retry_loop dl tries n a last) = attempts_from a m /\
      (forall j, a <= j < a + Z.of_nat m -> exists err, dl j = inl err) /\
      match fst (retry_loop dl tries n a last) with
      | inr data => dl (a + Z.of_nat m) = inr data
      | inl err => a + Z.of_nat m = tries /\ dl (a + Z.of_nat m) = inl err
      end.
Proof.
  induction n as [|n IH]; intros a last Hn Hpos; [lia|].
  cbn [retry_loop]. destruct (dl a) as [e|data] eqn:Ha.
  - destruct (a <? tries) eqn:Hlt.
    + apply Z.ltb_lt in Hlt.
      destruct (IH (a + 1) (Some e)) as (m & Hm & Hev & Hfail & Hres); [lia|lia|].
      destruct (retry_loop dl tries n (a + 1) (Some e)) as [r evs].
      cbn [fst snd] in *. exists (S m).
      split; [lia|]. split; [cbn [attempts_from]; congruence|].
      split.
      * intros j Hj. destruct (decide (j = a)) as [->|]; [eauto|].
        apply Hfail. lia.
      * replace (a + Z.of_nat (S m)) with (a + 1 + Z.of_nat m) by lia.
        exact Hres.
    + apply Z.ltb_ge in Hlt. exists 0%nat. cbn [fst snd attempts_from].
      rewrite Z.add_0_r. split; [lia|]. split; [reflexivity|].
      split; [intros j Hj; lia|]. split; [lia | exact Ha].
  - exists 0%nat. cbn [fst snd attempts_from]. rewrite Z.add_0_r.
    split; [lia|]. split; [reflexivity|]. split; [intros j Hj; lia | exact Ha].
Qed.

End WithLibraries.
End HybridFacts.

Module HybridClaims.
Import Hybrid HybridFacts.

(** C4.  For every list of rows and every target time [T] (any
    datetime, microseconds included), the picker returns nothing exactly
    when no row has a BeginTime that parses; otherwise it returns the
    row that minimizes, lexicographically, the key (0 if the parsed
    interval [BeginTime, EndTime] contains [T] else 1, |BeginTime - T|)
    among the rows whose BeginTime parses, the first row seen with the
    minimal key.  That is: if the interval of any row contains [T], so
    does the interval of the returned row (in range beats out of range);
    among the rows that are in range exactly when the returned row is,
    the returned row is strictly nearer to [T] than every earlier row
    and at least as near as every later row.  Distances are compared as
    Python compares them, as the floats [total_seconds()] gives for
    them, so distances that round to the same float are equal keys.  For
    the three rows beginning 10:00:05, 10:00:09 (ending 10:00:12) and
    10:05:00 and the target 10:00:10, the 10:00:09 row is selected; of
    the markers of 10:05:00 and 10:00:05 alone, the later seen and
    nearer one of 10:00:05 is selected; a clip running from 09:59:40 to
    10:00:30 is selected before a marker of 10:00:09 that is nearer but
    ended; of two markers half a second either side of 10:00:10.5 the
    first seen is selected. *)
Theorem pick_closest_file_minimal :
  (forall (DT : DateTime) (rows : list row) (T : Z),
     match _pick_closest_file rows T with
     | None =>
         forall r, r ∈ rows -> strptime (row_get r "BeginTime") = None
     | Some r =>
         exists pre post d,
           rows = pre ++ r :: post /\
           Closest.distance r T = Some d /\
           (forall r', r' ∈ rows ->
              Closest.contains r' T -> Closest.contains r T) /\
           (forall r' d', r' ∈ pre -> Closest.distance r' T = Some d' ->
              (Closest.contains r T -> Closest.contains r' T) ->
              (total_seconds d < total_seconds d')%Q) /\
           (forall r' d', r' ∈ post -> Closest.distance r' T = Some d' ->
              (Closest.contains r T -> Closest.contains r' T) ->
              (total_seconds d <= total_seconds d')%Q)
     end) /\
  @_pick_closest_file Calendar.datetime Samples.three_rows
    (Samples.target * 1000000)
  = Some Samples.row_100009 /\
  @_pick_closest_file Calendar.datetime
    [Samples.row_100500; Samples.row_100005] (Samples.target * 1000000)
  = Some Samples.row_100005 /\
  @_pick_closest_file Calendar.datetime [Cases.near_miss; Cases.long_clip]
    (Samples.target * 1000000)
  = Some Cases.long_clip /\
  @_pick_closest_file Calendar.datetime [Cases.row_100011; Cases.row_100010]
    Cases.target_and_a_half
  = Some Cases.row_100011.
Proof.
  split; [|repeat split; vm_compute; reflexivity].
  intros DT rows T. unfold _pick_closest_file.
  pose proof (pick_fold rows T) as H.
  destruct (foldl (pick_step T) None rows) as [[r k]|];
    cbn [fmap option_fmap option_map fst].
  2: { intros r Hr. apply (key_of_parses r T). exact (H r Hr). }
  destruct H as (pre & post & -> & Hk & Hpre & Hpost).
  destruct (key_of_spec _ _ _ Hk) as (d & Hd & Hval & Hflag).
  exists pre, post, d. split; [reflexivity|]. split; [exact Hd|].
  assert (forall r' d', Closest.distance r' T = Some d' ->
            exists k', key_of r' T = Some k' /\
              (snd k' == total_seconds d')%Q /\
              ((fst k' = 0 /\ Closest.contains r' T) \/
               (fst k' = 1 /\ ~ Closest.contains r' T))) as Hkey.
  { intros r' d' Hd'. destruct (distance_key _ _ _ Hd') as (k' & Hk').
    exists k'. split; [exact Hk'|].
    destruct (key_of_spec _ _ _ Hk') as (d0 & Hd0 & H0 & Hf0).
    rewrite Hd' in Hd0. injection Hd0 as <-. auto. }
  split; [|split].
  - intros r' Hin Hc'.
    assert (exists d', Closest.distance r' T = Some d') as [d' Hd'].
    { destruct Hc' as (bt & et & Hbt & _). unfold Closest.distance.
      rewrite Hbt. cbn. eauto. }
    destruct (Hkey _ _ Hd') as (k' & Hk' & _ & [[H0 _]|[_ Hn]]);
      [|contradiction].
    destruct Hflag as [[_ Hc]|[H1 _]]; [exact Hc|]. exfalso.
    apply elem_of_app in Hin as [Hin|Hin].
    { specialize (Hpre _ _ Hin Hk'). apply key_lt_true in Hpre. lia. }
    apply elem_of_cons in Hin as [->|Hin].
    { rewrite Hk in Hk'. injection Hk' as ->. lia. }
    specialize (Hpost _ _ Hin Hk'). apply key_lt_false in Hpost. lia.
  - intros r' d' Hin Hd' Hsame.
    destruct (Hkey _ _ Hd') as (k' & Hk' & Hval' & Hflag').
    specialize (Hpre _ _ Hin Hk'). apply key_lt_true in Hpre.
    destruct Hpre as [Hlt|[_ Hlt]]; [|rewrite <- Hval, <- Hval'; exact Hlt].
    exfalso.
    destruct Hflag as [[H0 Hc]|[H1 _]], Hflag' as [[H0' _]|[H1' Hn']];
      try lia. exact (Hn' (Hsame Hc)).
  - intros r' d' Hin Hd' Hsame.
    destruct (Hkey _ _ Hd') as (k' & Hk' & Hval' & Hflag').
    specialize (Hpost _ _ Hin Hk'). apply key_lt_false in Hpost.
    destruct Hpost as [Hlt|[_ Hle]]; [|rewrite <- Hval, <- Hval'; exact Hle].
    exfalso.
    destruct Hflag as [[H0 Hc]|[H1 _]], Hflag' as [[H0' _]|[H1' Hn']];
      try lia. exact (Hn' (Hsame Hc)).
Qed.

Lemma pick_closest_file_minimal_witness :
  exists pre post d,
    [Cases.near_miss; Cases.long_clip] = pre ++ Cases.long_clip :: post /\
    @Closest.distance Calendar.datetime Cases.long_clip
      (Samples.target * 1000000) = Some d /\
    (forall r', r' ∈ [Cases.near_miss; Cases.long_clip] ->
       @Closest.contains Calendar.datetime r' (Samples.target * 1000000) ->
       @Closest.contains Calendar.datetime Cases.long_clip
         (Samples.target * 1000000)) /\
    (forall r' d', r' ∈ pre ->
       @Closest.distance Calendar.datetime r' (Samples.target * 1000000)
       = Some d' ->
       (@Closest.contains Calendar.datetime Cases.long_clip
          (Samples.target * 1000000) ->
        @Closest.contains Calendar.datetime r' (Samples.target * 1000000)) ->
       (total_seconds d < total_seconds d')%Q) /\
    (forall r' d', r' ∈ post ->
       @Closest.distance Calendar.datetime r' (Samples.target * 1000000)
       = Some d' ->
       (@Closest.contains Calendar.datetime Cases.long_clip
          (Samples.target * 1000000) ->
        @Closest.contains Calendar.datetime r' (Samples.target * 1000000)) ->
       (total_seconds d <= total_seconds d')%Q).
Proof.
  pose proof (proj1 pick_closest_file_minimal Calendar.datetime
                [Cases.near_miss; Cases.long_clip]
                (Samples.target * 1000000)) as H.
  replace (@_pick_closest_file Calendar.datetime
             [Cases.near_miss; Cases.long_clip] (Samples.target * 1000000))
    with (Some Cases.long_clip) in H by (vm_compute; reflexivity).
  exact H.
Defined.

(** C3, as written, fails: with [retries = 2] a download that is reset on
    its first two attempts is not tried a third time; the second reset is
    re-raised although the third attempt would have delivered. *)
Lemma two_failures_exhaust_retries_2 :
  @_download_with_retries Calendar.datetime Samples.flaky
     "/idea1/a.jpg" "2024-05-01 10:00:09" "2024-05-01 10:00:12" 2
  = (inl Samples.reset, [EvDownload 1; EvSleep 0.8; EvDownload 2]) /\
  Samples.flaky "/idea1/a.jpg" "2024-05-01 10:00:09" "2024-05-01 10:00:12" 3
  = inr Samples.tagged_stream.
Proof. split; reflexivity. Qed.

(** C3 (amended).  [_download_with_retries] makes at most
    [max(1, retries)] attempts in all (with [download_retries = 2]: two
    attempts, one beyond the first), sleeping 0.8 s between two attempts.
    It returns the payload of the first attempt that succeeds, all
    earlier ones having failed; it raises only when the last attempt of
    the budget has failed, and then re-raises that attempt's error. *)
Theorem download_attempt_budget (DT : DateTime)
    (download : string -> string -> string -> Z -> res bytes)
    (filename begin_time end_time : string) (retries : Z) :
  let tries := Z.max 1 retries in
  let w := request_window begin_time end_time in
  let dl := download filename (fst w) (snd w) in
  let result := _download_with_retries download filename begin_time end_time
                  retries in
  exists m : nat,
    1 + Z.of_nat m <= tries /\
    snd result = attempts_from 1 m /\
    (forall j, 1 <= j < 1 + Z.of_nat m -> exists err, dl j = inl err) /\
    match fst result with
    | inr data => dl (1 + Z.of_nat m) = inr data
    | inl err => 1 + Z.of_nat m = tries /\ dl (1 + Z.of_nat m) = inl err
    end.
Proof.
  intros tries w dl result. subst result. unfold _download_with_retries.
  subst dl w. destruct (request_window begin_time end_time) as [bt et].
  cbn [fst snd]. apply retry_loop_attempts; subst tries; lia.
Qed.

Lemma download_attempt_budget_witness :
  exists m : nat,
    1 + Z.of_nat m <= 2 /\
    snd (@_download_with_retries Calendar.datetime Samples.flaky_once
           "/idea1/a.jpg" "2024-05-01 10:00:09" EmptyString 2)
    = attempts_from 1 m /\
    (forall j, 1 <= j < 1 + Z.of_nat m ->
       exists err, Samples.flaky_once "/idea1/a.jpg" "2024-05-01 10:00:09"
                     "2024-05-01 10:00:10" j = inl err) /\
    Samples.flaky_once "/idea1/a.jpg" "2024-05-01 10:00:09"
      "2024-05-01 10:00:10" (1 + Z.of_nat m) = inr Samples.tagged_stream.
Proof.
  exact (download_attempt_budget Calendar.datetime Samples.flaky_once
           "/idea1/a.jpg" "2024-05-01 10:00:09" EmptyString 2).
Defined.

(** With [retries = 2], one reset is survived: the second attempt's
    payload is returned after one sleep. *)
Example one_failure_is_retried :
  @_download_with_retries Calendar.datetime Samples.flaky_once
     "/idea1/a.jpg" "2024-05-01 10:00:09" "2024-05-01 10:00:12" 2
  = (inr Samples.tagged_stream, [EvDownload 1; EvSleep 0.8; EvDownload 2]).
Proof. reflexivity. Qed.



End HybridClaims.

(** ** Python's stable sort *)

Module SortFacts.
Section Sorting.
Context {A : Type} (le : A -> A -> bool).

Lemma insert_by_perm x l : insert_by le x l ≡ₚ x :: l.
Proof.
  induction l as [|y l IH]; cbn [insert_by]; [reflexivity|].
  destruct (le x y); [reflexivity|].
  rewrite IH. apply Permutation_swap.
Qed.

Lemma sort_by_perm l : sort_by le l ≡ₚ l.
Proof.
  induction l as [|x l IH]; cbn; [reflexivity|].
  unfold sort_by in IH. rewrite insert_by_perm, IH. reflexivity.
Qed.

Hypothesis le_total : forall x y, le x y = false -> le y x = true.
Hypothesis le_trans : forall x y z, le x y = true -> le y z = true -> le x z = true.

Lemma insert_by_sorted x l :
  StronglySorted (fun a b => le a b = true) l ->
  StronglySorted (fun a b => le a b = true) (insert_by le x l).
Proof.
  induction 1 as [|y l Hs IH Hy]; cbn [insert_by].
  - repeat constructor.
  - destruct (le x y) eqn:Hxy.
    + constructor; [constructor; assumption|].
      constructor; [exact Hxy|].
      eapply Forall_impl; [exact Hy|]. intros z Hz. eauto.
    + constructor; [exact IH|].
      rewrite insert_by_perm. constructor; [auto | exact Hy].
Qed.

Lemma sort_by_sorted l : StronglySorted (fun a b => le a b = true) (sort_by le l).
Proof.
  induction l as [|x l IH]; cbn; [constructor|].
  apply insert_by_sorted. exact IH.
Qed.

End Sorting.

Lemma strongly_sorted_mono {A} (R1 R2 : A -> A -> Prop) l :
  (forall x y, R1 x y -> R2 x y) -> StronglySorted R1 l -> StronglySorted R2 l.
Proof.
  intros Himp. induction 1 as [|x l _ IH Hx]; constructor; [exact IH|].
  eapply Forall_impl; [exact Hx|]. intros y. apply Himp.
Qed.

End SortFacts.

(** ** Event index scanner *)

Module IndexFacts.
Import Index.

Lemma walk_app p cur l1 l2 :
  walk p cur (l1 ++ l2) = c ← walk p cur l1; walk p c l2.
Proof.
  revert cur. induction l1 as [|e l1 IH]; intros cur; [reflexivity|].
  cbn [app walk]. destruct ((c_end e =? cur) && (c_begin e <=? cur));
    [apply IH | reflexivity].
Qed.

Section WithDateTime.
Context {DT : DateTime}.

Lemma absorb_fold norm : forall acc,
  NoDup (dedup_key <$> fst acc) ->
  (forall r, r ∈ fst acc -> dedup_key r ∈ snd acc) ->
  let acc' := foldl absorb acc norm in
  NoDup (dedup_key <$> fst acc') /\
  (forall r, r ∈ fst acc' -> dedup_key r ∈ snd acc') /\
  (forall r, r ∈ fst acc' -> r ∈ fst acc \/ r ∈ norm).
Proof.
  induction norm as [|x norm IH]; intros acc Hnd Hseen; cbn [foldl].
  - split; [exact Hnd|]. split; [exact Hseen | auto].
  - assert (NoDup (dedup_key <$> fst (absorb acc x)) /\
            (forall r, r ∈ fst (absorb acc x) -> dedup_key r ∈ snd (absorb acc x)) /\
            (forall r, r ∈ fst (absorb acc x) -> r ∈ fst acc \/ r = x))
      as (H1 & H2 & H3).
    { unfold absorb. case_bool_decide as Hin; cbn [fst snd].
      - split; [exact Hnd|]. split; [exact Hseen | auto].
      - split; [|split].
        + rewrite fmap_app. apply NoDup_app. split; [exact Hnd|].
          split; [|apply NoDup_singleton].
          intros k Hk Hk'. apply list_elem_of_singleton in Hk'. subst k.
          apply list_elem_of_fmap in Hk as (r & Hr & Hrin).
          apply Hin. rewrite Hr. apply Hseen. exact Hrin.
        + intros r Hr. apply elem_of_app in Hr as [Hr|Hr].
          * apply elem_of_union_r. apply Hseen. exact Hr.
          * apply list_elem_of_singleton in Hr. subst r.
            apply elem_of_union_l. apply elem_of_singleton. reflexivity.
        + intros r Hr. apply elem_of_app in Hr as [Hr|Hr]; [auto|].
          apply list_elem_of_singleton in Hr. auto. }
    destruct (IH (absorb acc x) H1 H2) as (G1 & G2 & G3).
    split; [exact G1|]. split; [exact G2|].
    intros r Hr. destruct (G3 r Hr) as [Hr'|Hr'].
    + destruct (H3 r Hr') as [?| ->]; [auto|]. right. left.
    + right. right. exact Hr'.
Qed.

Lemma normalize_rows_parsed rows ftype r :
  r ∈ normalize_rows rows ftype ->
  _parse_dt (row_get (n_row r) "BeginTime") = Some (__dt r).
Proof.
  unfold normalize_rows. rewrite SortFacts.sort_by_perm.
  intros Hr. apply list_elem_of_omap in Hr as (raw & _ & Hraw).
  destruct (_parse_dt (row_get raw "BeginTime")) as [bt|] eqn:Hbt;
    [|discriminate].
  cbn in Hraw. injection Hraw as <-. exact Hbt.
Qed.

Lemma begin_of_bounds p s :
  1 <= chunk s -> oldest_allowed p < cursor_end s ->
  oldest_allowed p <= begin_of p s < cursor_end s.
Proof.
  intros Hc Hr. unfold begin_of.
  destruct (cursor_end s - chunk s <? oldest_allowed p) eqn:E; lia.
Qed.

Lemma running_inv p s :
  running p s = true ->
  oldest_allowed p < cursor_end s /\ Z.of_nat (length (collected s)) < want p.
Proof. unfold running. rewrite andb_true_iff, !Z.ltb_lt. auto. Qed.

Lemma inv_start p : inv p (start p).
Proof.
  constructor; unfold start, oldest_allowed, initial_chunk;
    cbn [chunk cursor_end collected seen].
  - lia.
  - lia.
  - constructor.
  - intros r Hr. inversion Hr.
  - intros r Hr. inversion Hr.
  - auto.
Qed.

Lemma inv_iteration p rows s :
  inv p s -> running p s = true -> inv p (iteration p rows s).
Proof.
  intros [Hc Hb Hnd Hseen Hparsed Hwant] Hrun.
  apply running_inv in Hrun as [Hold Hlen].
  pose proof (begin_of_bounds p s Hc Hold) as Hbeg.
  unfold iteration.
  destruct ((cap_guard p <=? Z.of_nat (length rows)) && (min_chunk p <? chunk s)).
  - constructor; cbn [chunk cursor_end collected seen]; auto.
    unfold min_chunk. lia.
  - destruct (absorb_fold (normalize_rows rows "jpg") (collected s, seen s) Hnd Hseen)
      as (G1 & G2 & G3).
    destruct (foldl absorb (collected s, seen s) (normalize_rows rows "jpg"))
      as [collected' seen'].
    cbn [fst snd] in *.
    constructor; cbn [chunk cursor_end collected seen].
    + destruct (Z.of_nat (length rows) <? Z.max 1 (want p / 3)); lia.
    + lia.
    + exact G1.
    + exact G2.
    + intros r Hr. destruct (G3 r Hr) as [Hr'|Hr']; [auto|].
      eapply normalize_rows_parsed. exact Hr'.
    + right. lia.
Qed.

Lemma potential_drops p rows s :
  1 <= chunk s -> running p s = true ->
  0 <= potential p (iteration p rows s) < potential p s.
Proof.
  intros Hc Hrun. apply running_inv in Hrun as [Hold _].
  pose proof (begin_of_bounds p s Hc Hold) as Hbeg.
  assert (begin_of p s = oldest_allowed p \/
          begin_of p s = cursor_end s - chunk s) as Hcase.
  { unfold begin_of.
    destruct (cursor_end s - chunk s <? oldest_allowed p); auto. }
  unfold iteration.
  destruct ((cap_guard p <=? Z.of_nat (length rows)) && (min_chunk p <? chunk s))
    eqn:Hcap.
  - apply andb_true_iff in Hcap as [_ Hmin]. apply Z.ltb_lt in Hmin.
    unfold potential. cbn [chunk cursor_end].
    replace (cursor_end s <=? oldest_allowed p) with false
      by (symmetry; apply Z.leb_gt; lia).
    assert (chunk s / 2 < chunk s) by (apply Z.div_lt; lia).
    unfold min_chunk in *. lia.
  - destruct (foldl absorb (collected s, seen s) (normalize_rows rows "jpg"))
      as [collected' seen'].
    unfold potential. cbn [chunk cursor_end].
    replace (cursor_end s <=? oldest_allowed p) with false
      by (symmetry; apply Z.leb_gt; lia).
    destruct (begin_of p s <=? oldest_allowed p) eqn:E; [lia|].
    apply Z.leb_gt in E.
    destruct (Z.of_nat (length rows) <? Z.max 1 (want p / 3)); lia.
Qed.

Lemma scan_loop_total (c : Camera) p : forall fuel s,
  inv p s -> potential p s <= Z.of_nat fuel ->
  exists s', scan_loop fuel c p s = Some s' /\ inv p s' /\ running p s' = false.
Proof.
  induction fuel as [|fuel IH]; intros s Hinv Hpot; cbn [scan_loop];
    destruct (running p s) eqn:Hrun; try (exists s; auto; fail).
  - pose proof (potential_drops p (query c p s) s (inv_chunk _ _ Hinv) Hrun). lia.
  - apply IH; [apply inv_iteration; assumption|].
    pose proof (potential_drops p (query c p s) s (inv_chunk _ _ Hinv) Hrun). lia.
Qed.

(** The loop exits within its budget. *)
Lemma run_total (c : Camera) p :
  exists s, run c p = Some s /\ inv p s /\ running p s = false.
Proof.
  apply scan_loop_total; [apply inv_start|].
  unfold budget, potential, start, oldest_allowed, initial_chunk.
  cbn [cursor_end chunk].
  destruct (end_dt p <=? end_dt p - 3600 * Z.max 1 (max_lookback_hours p)); lia.
Qed.

End WithDateTime.
End IndexFacts.

Module IndexClaims.
Import Index IndexFacts.

Section WithDateTime.
Context {DT : DateTime}.

Lemma scan_loop_preserves (P : scan -> Prop) (c : Camera) p :
  (forall rows s, inv p s -> running p s = true -> P s ->
                  P (iteration p rows s)) ->
  forall fuel s s', inv p s -> P s -> scan_loop fuel c p s = Some s' -> P s'.
Proof.
  intros Hstep. induction fuel as [|fuel IH]; intros s s' Hinv HP; cbn [scan_loop];
    destruct (running p s) eqn:Hrun; try discriminate;
    try (intros [= <-]; exact HP).
  apply IH; [apply inv_iteration; assumption | apply Hstep; assumption].
Qed.

Lemma trail_iteration p rows s :
  inv p s -> running p s = true -> trail p s -> trail p (iteration p rows s).
Proof.
  intros Hinv Hrun [Hwalk Hcov].
  pose proof (inv_chunk _ _ Hinv) as Hc.
  apply running_inv in Hrun as [Hold _].
  pose proof (begin_of_bounds p s Hc Hold) as Hbeg.
  unfold iteration, trail, covered.
  destruct ((cap_guard p <=? Z.of_nat (length rows)) && (min_chunk p <? chunk s))
    eqn:Hcap; [|destruct (foldl absorb _ _) as [collected' seen']];
    cbn [log cursor_end]; rewrite walk_app, Hwalk; cbn [mbind option_bind walk];
    unfold consumed; cbn [c_begin c_end c_raw c_chunk_sec]; rewrite Hcap;
    cbn [negb];
    (replace ((cursor_end s =? cursor_end s) && (begin_of p s <=? cursor_end s))
       with true by (symmetry; apply andb_true_iff; split;
                     [apply Z.eqb_eq | apply Z.leb_le]; lia)).
  - split; [reflexivity|]. intros t Ht.
    destruct (Hcov t Ht) as (e & He & Hce & Hte).
    exists e. split; [apply elem_of_app; auto | auto].
  - split; [reflexivity|]. intros t Ht.
    destruct (decide (cursor_end s <= t)) as [Hge|Hlt].
    + destruct (Hcov t ltac:(lia)) as (e & He & Hce & Hte).
      exists e. split; [apply elem_of_app; auto | auto].
    + eexists. split; [apply elem_of_app; right; left|].
      cbn [c_begin c_end c_raw c_chunk_sec]. rewrite Hcap. split; [reflexivity|lia].
Qed.

End WithDateTime.

(** C2.  An iteration whose query returns at least [cap_guard] rows while
    the window width still exceeds the minimum leaves the cursor end, the
    collected rows and the seen set as they were, replaces the width by
    max(minimum, width // 2), which is strictly smaller, and the loop
    goes on: the next query ends at the same cursor and begins no earlier
    than the one just made (strictly later whenever that one began at
    cursor - width).  In every iteration the cursor end stays or moves
    back to the begin of the window just queried; over the whole run the
    log retraces the cursor from the end of the scan, and every instant
    between the final cursor and the end of the scan lies in a queried
    window whose rows were consumed: no interval is skipped. *)
Theorem cap_hit_retries_same_cursor_smaller_window :
  (forall (DT : DateTime) p rows s,
     running p s = true ->
     cap_guard p <= Z.of_nat (length rows) -> min_chunk p < chunk s ->
     let s' := iteration p rows s in
     cursor_end s' = cursor_end s /\
     chunk s' = Z.max (min_chunk p) (chunk s / 2) /\
     min_chunk p <= chunk s' < chunk s /\
     collected s' = collected s /\ seen s' = seen s /\
     running p s' = true /\
     begin_of p s <= begin_of p s' /\
     (oldest_allowed p <= cursor_end s - chunk s ->
      begin_of p s = cursor_end s - chunk s /\
      begin_of p s' = cursor_end s - chunk s' /\
      begin_of p s < begin_of p s')) /\
  (forall (DT : DateTime) p rows s,
     running p s = true -> 1 <= chunk s ->
     let s' := iteration p rows s in
     (cursor_end s' = cursor_end s \/ cursor_end s' = begin_of p s) /\
     begin_of p s < cursor_end s) /\
  (forall (DT : DateTime) (c : Camera) p,
     exists s, run c p = Some s /\
       walk p (end_dt p) (log s) = Some (cursor_end s) /\
       oldest_allowed p <= cursor_end s <= end_dt p /\
       covered p s).
Proof.
  split; [|split].
  - intros DT p rows s Hrun Hcap Hmin s'. subst s'. unfold iteration.
    replace ((cap_guard p <=? Z.of_nat (length rows)) && (min_chunk p <? chunk s))
      with true
      by (symmetry; apply andb_true_iff; split;
          [apply Z.leb_le | apply Z.ltb_lt]; assumption).
    assert (1 <= min_chunk p) as Hm by (unfold min_chunk; lia).
    assert (chunk s / 2 < chunk s) as Hhalf by (apply Z.div_lt; lia).
    unfold running, begin_of in *. cbn [cursor_end chunk collected seen].
    split; [reflexivity|]. split; [reflexivity|]. split; [lia|].
    split; [reflexivity|]. split; [reflexivity|]. split; [exact Hrun|].
    destruct (cursor_end s - chunk s <? oldest_allowed p) eqn:E1;
      destruct (cursor_end s - Z.max (min_chunk p) (chunk s / 2)
                <? oldest_allowed p) eqn:E2;
      try apply Z.ltb_lt in E1; try apply Z.ltb_ge in E1;
      try apply Z.ltb_lt in E2; try apply Z.ltb_ge in E2; lia.
  - intros DT p rows s Hrun Hc s'. subst s'.
    apply running_inv in Hrun as [Hold _].
    pose proof (begin_of_bounds p s Hc Hold) as Hbeg.
    split; [|lia]. unfold iteration.
    destruct ((cap_guard p <=? Z.of_nat (length rows)) && (min_chunk p <? chunk s));
      [left; reflexivity|].
    destruct (foldl absorb _ _) as [collected' seen']. right. reflexivity.
  - intros DT c p. destruct (run_total c p) as (s & Hs & Hinv & _).
    exists s. split; [exact Hs|].
    assert (trail p s) as [Hw Hc].
    { apply (scan_loop_preserves (trail p) c p (fun rows s0 => trail_iteration p rows s0)
               (budget p) (start p) s (inv_start p)); [|exact Hs].
      split; [reflexivity|]. intros t Ht. cbn in Ht. lia. }
    split; [exact Hw|]. split; [exact (inv_bounds _ _ Hinv) | exact Hc].
Qed.

Lemma cap_hit_retries_same_cursor_smaller_window_witness :
  let s := start Samples.scan_params in
  let s' := @iteration Calendar.datetime Samples.scan_params Samples.sixty_rows s in
  cursor_end s' = cursor_end s /\
  chunk s' = Z.max (min_chunk Samples.scan_params) (chunk s / 2) /\
  min_chunk Samples.scan_params <= chunk s' < chunk s /\
  collected s' = collected s /\ seen s' = seen s /\
  running Samples.scan_params s' = true /\
  begin_of Samples.scan_params s <= begin_of Samples.scan_params s' /\
  (oldest_allowed Samples.scan_params <= cursor_end s - chunk s ->
   begin_of Samples.scan_params s = cursor_end s - chunk s /\
   begin_of Samples.scan_params s' = cursor_end s - chunk s' /\
   begin_of Samples.scan_params s < begin_of Samples.scan_params s').
Proof.
  apply (proj1 cap_hit_retries_same_cursor_smaller_window Calendar.datetime
           Samples.scan_params Samples.sixty_rows (start Samples.scan_params)).
  - reflexivity.
  - vm_compute. discriminate.
  - vm_compute. reflexivity.
Defined.

(** The window of the first query, ten minutes, comes back five minutes
    wide over the same cursor. *)
Example first_window_halved :
  let s' := @iteration Calendar.datetime Samples.scan_params Samples.sixty_rows
              (start Samples.scan_params) in
  (cursor_end s', chunk s', begin_of Samples.scan_params s')
  = (Samples.target, 300, Samples.target - 300).
Proof. reflexivity. Qed.

(** A window cut at the lookback horizon: the retry divides the width
    (14400 s, then 7200 s) but, both windows reaching past the horizon,
    asks for the same hour again. *)
Example clamped_retry_asks_same_window :
  let s := start Samples.short_lookback in
  let s' := @iteration Calendar.datetime Samples.short_lookback
              Samples.sixty_rows s in
  (chunk s, begin_of Samples.short_lookback s,
   chunk s', begin_of Samples.short_lookback s')
  = (14400, Samples.target - 3600, 7200, Samples.target - 3600).
Proof. reflexivity. Qed.

Section Fetch.
Context {DT : DateTime}.

Lemma slice_to_take {A} (n : Z) (l : list A) : exists k, slice_to n l = take k l.
Proof. unfold slice_to. destruct (0 <=? n); eauto. Qed.

Lemma dt_desc_sorted l :
  StronglySorted (fun x y => __dt y <= __dt x) (sort_by dt_desc l).
Proof.
  eapply SortFacts.strongly_sorted_mono;
    [|apply (SortFacts.sort_by_sorted dt_desc)].
  - intros x y H. apply Z.leb_le. exact H.
  - intros x y H. unfold dt_desc in *. apply Z.leb_gt in H. apply Z.leb_le. lia.
  - intros x y z H1 H2. unfold dt_desc in *.
    apply Z.leb_le in H1, H2. apply Z.leb_le. lia.
Qed.

End Fetch.

(** C5.  Whatever the camera answers to the queries, overlapping windows
    returning the same row again included, [fetch_recent_alarm_markers]
    returns, and the rows it returns hold no two rows with the same
    (FileName, BeginTime), are sorted by parsed begin time in descending
    order, and are at most [want] many (none for a negative [want]). *)
Theorem fetched_rows_unique_sorted_bounded (DT : DateTime) (c : Camera)
    (password : string) (p : params) :
  exists rows meta,
    fetch_recent_alarm_markers c password p = Some (rows, meta) /\
    NoDup (marker_id <$> rows) /\
    StronglySorted (fun x y => __dt y <= __dt x) rows /\
    (forall r, r ∈ rows ->
       strptime (row_get (n_row r) "BeginTime") = Some (__dt r)) /\
    Z.of_nat (length rows) <= Z.max 0 (want p).
Proof.
  assert (forall m : meta, exists rows meta,
            Some (@nil nrow, m) = Some (rows, meta) /\
            NoDup (marker_id <$> rows) /\
            StronglySorted (fun x y => __dt y <= __dt x) rows /\
            (forall r, r ∈ rows ->
               strptime (row_get (n_row r) "BeginTime") = Some (__dt r)) /\
            Z.of_nat (length rows) <= Z.max 0 (want p)) as Hnil.
  { intros m. exists [], m. split; [reflexivity|]. split; [constructor|].
    split; [constructor|]. split; [intros r Hr; inversion Hr | cbn; lia]. }
  unfold fetch_recent_alarm_markers.
  destruct (negb (HAS_DVRIP c)); [apply Hnil|].
  destruct (negb (nonempty password)); [apply Hnil|].
  destruct (negb (cam_login c)); [apply Hnil|].
  destruct (run_total c p) as (s & Hs & Hinv & _). rewrite Hs.
  cbn [mbind option_bind]. eexists _, _. split; [reflexivity|].
  set (sorted := sort_by dt_desc (collected s)).
  assert (sorted ≡ₚ collected s) as Hperm by apply SortFacts.sort_by_perm.
  destruct (slice_to_take (want p) sorted) as [k Hk].
  split; [|split; [|split]].
  - apply (NoDup_fmap_1 (fun id => fst id +:+ "|" +:+ snd id)).
    rewrite <- list_fmap_compose, Hk, fmap_take.
    eapply sublist_NoDup; [|apply sublist_take].
    change ((fun id => fst id +:+ "|" +:+ snd id) ∘ marker_id) with dedup_key.
    rewrite Hperm. exact (inv_nodup _ _ Hinv).
  - rewrite Hk. pose proof (dt_desc_sorted (collected s)) as Hsorted.
    fold sorted in Hsorted. rewrite <- (take_drop k sorted) in Hsorted.
    eapply StronglySorted_app_1_l. exact Hsorted.
  - intros r Hr. rewrite Hk in Hr. apply subseteq_take in Hr.
    rewrite Hperm in Hr. exact (inv_parsed _ _ Hinv r Hr).
  - unfold slice_to. destruct (0 <=? want p) eqn:Hw.
    + apply Z.leb_le in Hw. rewrite length_take. lia.
    + apply Z.leb_gt in Hw. destruct (inv_want _ _ Hinv) as [Hnone|]; [|lia].
      subst sorted. rewrite Hnone. cbn [sort_by foldr]. rewrite take_nil.
      cbn [length]. lia.
Qed.

(** Every window returns the same three rows: they come back once each,
    newest first. *)
Example repeated_rows_come_back_once :
  fst <$> @fetch_recent_alarm_markers Calendar.datetime Samples.repeating_camera
            "secret" Samples.scan_params
  = Some [mkNrow Samples.row_100500 1714557900 "jpg";
          mkNrow Samples.row_100009 1714557609 "jpg";
          mkNrow Samples.row_100005 1714557605 "jpg"].
Proof. vm_compute. reflexivity. Qed.

End IndexClaims.

(** ** Alarm poll loop *)

Module PollingFacts.
Import Polling.

Lemma submitted_cons e evs :
  submitted (e :: evs)
  = match e with
    | Submit x => a_file x :: submitted evs
    | _ => submitted evs
    end.
Proof. destruct e; reflexivity. Qed.

Lemma submitted_app a b : submitted (a ++ b) = submitted a ++ submitted b.
Proof. unfold submitted. apply omap_app. Qed.

Lemma monitor_app w a b :
  monitor w (a ++ b) = w' ← monitor w a; monitor w' b.
Proof.
  revert w. induction a as [|e a IH]; intros w; [reflexivity|].
  cbn [app monitor]. destruct (observe w e) as [w'|]; [apply IH | reflexivity].
Qed.

Lemma seed_rows_spec rows : forall known,
  known ⊆ fst (seed_rows rows known) /\
  submitted (snd (seed_rows rows known)) = [] /\
  forall R, monitor (mkWatch true None R) (snd (seed_rows rows known))
            = Some (mkWatch true None R).
Proof.
  induction rows as [|r rows IH]; intros known; cbn [seed_rows].
  - split; [reflexivity|]. split; reflexivity.
  - destruct (nonempty (row_get r "FileName")); [|apply IH].
    destruct (IH ({[row_get r "FileName"]} ∪ known)) as (H1 & H2 & H3).
    destruct (seed_rows rows _) as [k ev]. cbn [fst snd] in *.
    split; [etrans; [apply union_subseteq_r | exact H1]|]. split; [exact H2|].
    intros R. cbn [monitor observe held pending ready mbind option_bind].
    rewrite bool_decide_false by discriminate. apply H3.
Qed.

Lemma check_rows_spec rows : forall known,
  let '(k, new, ev) := check_rows rows known in
  known ⊆ k /\ NoDup (fname <$> new) /\
  (forall r, r ∈ new -> (fname r ∉ known) /\ fname r ∈ k) /\
  submitted ev = [] /\
  forall pd R, exists pd' R',
    monitor (mkWatch true pd R) ev = Some (mkWatch true pd' R') /\
    R ⊆ R' /\ forall r, r ∈ new -> fname r ∈ R'.
Proof.
  induction rows as [|r rows IH]; intros known; cbn [check_rows].
  - split; [reflexivity|]. split; [constructor|].
    split; [intros r Hr; inversion Hr|]. split; [reflexivity|].
    intros pd R. exists pd, R. split; [reflexivity|].
    split; [reflexivity | intros r Hr; inversion Hr].
  - destruct (negb (nonempty (row_get r "FileName"))); [apply IH|].
    case_bool_decide as Hin.
    + specialize (IH known). destruct (check_rows rows known) as [[k new] ev].
      destruct IH as (H1 & H2 & H3 & H4 & H5).
      split; [exact H1|]. split; [exact H2|]. split; [exact H3|].
      split; [exact H4|].
      intros pd R. cbn [monitor observe held mbind option_bind].
      apply H5.
    + specialize (IH ({[row_get r "FileName"]} ∪ known)).
      destruct (check_rows rows _) as [[k new] ev].
      destruct IH as (H1 & H2 & H3 & H4 & H5).
      assert (row_get r "FileName" ∈ k) as Hrk
        by (apply H1, elem_of_union_l, elem_of_singleton; reflexivity).
      split; [etrans; [apply union_subseteq_r | exact H1]|].
      split; [|split; [|split]].
      * cbn [fmap list_fmap]. constructor; [|exact H2].
        intros Hr. apply list_elem_of_fmap in Hr as (r' & Hf & Hr').
        destruct (H3 r' Hr') as [Hnot _]. apply Hnot.
        unfold fname in Hf at 1. rewrite Hf.
        apply elem_of_union_l, elem_of_singleton. reflexivity.
      * intros r' Hr'. apply elem_of_cons in Hr' as [->|Hr'].
        { split; [exact Hin | exact Hrk]. }
        destruct (H3 r' Hr') as [Hnot Hk]. split; [|exact Hk].
        intros Hknown. apply Hnot, elem_of_union_r. exact Hknown.
      * exact H4.
      * intros pd R.
        cbn [monitor observe held pending ready mbind option_bind].
        rewrite bool_decide_true by reflexivity.
        destruct (H5 None ({[row_get r "FileName"]} ∪ R)) as (pd' & R' & Hm & HR & Hnew).
        exists pd', R'. split; [exact Hm|].
        split; [etrans; [apply union_subseteq_r | exact HR]|].
        intros r' Hr'. apply elem_of_cons in Hr' as [->|Hr']; [|auto].
        apply HR, elem_of_union_l, elem_of_singleton. reflexivity.
Qed.

Lemma dispatch_spec history_max raises markers : forall k alarms,
  let '(a, ev, err) := dispatch history_max raises k markers alarms in
  (exists n, submitted ev = take n (fname <$> markers)) /\
  forall R, (forall r, r ∈ markers -> fname r ∈ R) ->
            monitor (mkWatch false None R) ev = Some (mkWatch false None R).
Proof.
  induction markers as [|r markers IH]; intros k alarms; cbn [dispatch].
  - split; [exists 0%nat; reflexivity | reflexivity].
  - destruct (raises k) as [e|].
    + split; [exists 0%nat; reflexivity|]. intros R _. reflexivity.
    + specialize (IH (S k) (slice_to history_max (entry_of r :: alarms))).
      destruct (dispatch history_max raises (S k) markers _) as [[a ev] err].
      destruct IH as [[n Hn] Hm]. split.
      * exists (S n). rewrite !submitted_cons, Hn. reflexivity.
      * intros R HR.
        cbn [monitor observe held pending ready mbind option_bind entry_of a_file].
        rewrite bool_decide_true by (apply (HR r); left).
        apply Hm. intros r' Hr'. apply HR. right. exact Hr'.
Qed.

Lemma quiet_pass (known known' : gset string) (ev : list event) :
  known ⊆ known' -> submitted ev = [] ->
  (forall R, monitor (mkWatch false None R) ev = Some (mkWatch false None R)) ->
  known ⊆ known' /\ NoDup (submitted ev) /\
  (forall f, f ∈ submitted ev -> (f ∉ known) /\ f ∈ known') /\
  forall R, exists R',
    monitor (mkWatch false None R) ev = Some (mkWatch false None R') /\ R ⊆ R'.
Proof.
  intros Hk Hs Hm. rewrite Hs. split; [exact Hk|]. split; [constructor|].
  split; [intros f Hf; inversion Hf|].
  intros R. exists R. split; [apply Hm | reflexivity].
Qed.

Lemma poll_cycle_ok history_max poll_interval_sec c st :
  pass_ok history_max poll_interval_sec c st.
Proof.
  unfold pass_ok, poll_cycle. destruct st as [seeded s]. cbn [snd].
  assert (known_files s ⊆ added_elsewhere c ∪ known_files s) as Hgrow
    by apply union_subseteq_r.
  destruct (ip c) as [addr|]; [|apply quiet_pass; auto].
  destruct (nonempty addr); cbn [negb]; [|apply quiet_pass; auto].
  destruct (fetched c) as [e|rows]; [apply quiet_pass; auto|].
  destruct seeded; cbn [negb].
  - pose proof (check_rows_spec rows (added_elsewhere c ∪ known_files s)) as Hc.
    destruct (check_rows rows _) as [[k new] ev].
    destruct Hc as (H1 & H2 & H3 & H4 & H5).
    pose proof (SortFacts.sort_by_perm by_begin_time new) as Hperm.
    pose proof (dispatch_spec history_max (submit_raises c)
                  (sort_by by_begin_time new) 0 (alarms s)) as Hd.
    destruct (dispatch history_max (submit_raises c) 0 _ (alarms s))
      as [[alarms' ev'] err].
    destruct Hd as [[n Hn] Hm].
    assert (forall tail, submitted tail = [] ->
              submitted (Acquire :: ev ++ Release :: ev' ++ tail)
              = take n (fname <$> sort_by by_begin_time new)) as Hsub.
    { intros tail Ht.
      rewrite submitted_cons, submitted_app, submitted_cons, submitted_app.
      rewrite H4, Hn, Ht, app_nil_r. reflexivity. }
    assert (forall tail,
              (forall R, monitor (mkWatch false None R) tail
                         = Some (mkWatch false None R)) ->
              forall R, exists R',
                monitor (mkWatch false None R)
                  (Acquire :: ev ++ Release :: ev' ++ tail)
                = Some (mkWatch false None R') /\ R ⊆ R') as Hmon.
    { intros tail Ht R. destruct (H5 None R) as (pd' & R' & Hm1 & HR & Hnew).
      exists R'. split; [|exact HR].
      cbn [monitor observe held ready mbind option_bind].
      rewrite monitor_app, Hm1.
      cbn [monitor observe held ready mbind option_bind].
      rewrite monitor_app, Hm
        by (intros r Hr; apply Hnew; rewrite <- Hperm; exact Hr).
      cbn [mbind option_bind]. apply Ht. }
    assert (forall f, f ∈ take n (fname <$> sort_by by_begin_time new) ->
              (f ∉ known_files s) /\ f ∈ k) as Hfiles.
    { intros f Hf. apply subseteq_take in Hf.
      apply list_elem_of_fmap in Hf as (r & -> & Hr). rewrite Hperm in Hr.
      destruct (H3 r Hr) as [Hnot Hk]. split; [|exact Hk].
      intros Hin. apply Hnot. apply Hgrow. exact Hin. }
    assert (NoDup (take n (fname <$> sort_by by_begin_time new))) as Hnd.
    { eapply sublist_NoDup; [|apply sublist_take]. rewrite Hperm. exact H2. }
    assert (known_files s ⊆ k) as Hk by (etrans; [exact Hgrow | exact H1]).
    destruct err as [e|]; cbn [snd known_files].
    + rewrite Hsub by reflexivity. split; [exact Hk|]. split; [exact Hnd|].
      split; [exact Hfiles|]. apply Hmon. reflexivity.
    + rewrite Hsub by reflexivity. split; [exact Hk|]. split; [exact Hnd|].
      split; [exact Hfiles|]. apply Hmon. reflexivity.
  - destruct (seed_rows_spec rows (added_elsewhere c ∪ known_files s))
      as (H1 & H2 & H3).
    destruct (seed_rows rows _) as [k ev]. cbn [fst snd known_files] in *.
    apply quiet_pass.
    + etrans; [exact Hgrow | exact H1].
    + rewrite submitted_cons, submitted_app, H2. reflexivity.
    + intros R. cbn [monitor observe held ready mbind option_bind].
      rewrite monitor_app, H3. reflexivity.
Qed.

End PollingFacts.

Module PollingClaims.
Import Polling PollingFacts.

(** C9.  Over any number of passes of the poll loop, from any store: the
    jobs submitted are for pairwise distinct file names, so no marker
    gets a second job; a submitted file name was not in the known-files
    set when the passes began and is in it afterwards; the set only
    grows; and the lock monitor accepts the whole run: every job is
    submitted only after its file name was checked and, as the very next
    step, inserted while the lock was held. *)
Theorem each_marker_dispatched_at_most_once
    (history_max poll_interval_sec : Z) (cs : list cycle) (st : bool * store) :
  let '(st', evs) := alarm_poll_loop history_max poll_interval_sec cs st in
  NoDup (submitted evs) /\
  (forall f, f ∈ submitted evs ->
             (f ∉ known_files (snd st)) /\ f ∈ known_files (snd st')) /\
  known_files (snd st) ⊆ known_files (snd st') /\
  forall R, exists R',
    monitor (mkWatch false None R) evs = Some (mkWatch false None R') /\ R ⊆ R'.
Proof.
  revert st. induction cs as [|c cs IH]; intros st; cbn [alarm_poll_loop].
  - split; [constructor|]. split; [intros f Hf; inversion Hf|].
    split; [reflexivity|]. intros R. exists R. split; reflexivity.
  - pose proof (poll_cycle_ok history_max poll_interval_sec c st) as H1.
    unfold pass_ok in H1.
    destruct (poll_cycle history_max poll_interval_sec c st) as [st1 ev1].
    specialize (IH st1).
    destruct (alarm_poll_loop history_max poll_interval_sec cs st1) as [st2 ev2].
    destruct H1 as (Hk1 & Hnd1 & Hf1 & Hm1).
    destruct IH as (Hnd2 & Hf2 & Hk2 & Hm2).
    rewrite submitted_app. split; [|split; [|split]].
    + apply NoDup_app. split; [exact Hnd1|]. split; [|exact Hnd2].
      intros f Hin1 Hin2. destruct (Hf1 f Hin1) as [_ Hknown].
      destruct (Hf2 f Hin2) as [Hnot _]. exact (Hnot Hknown).
    + intros f Hf. apply elem_of_app in Hf as [Hf|Hf].
      * destruct (Hf1 f Hf) as [Hnot Hin]. split; [exact Hnot|].
        apply Hk2. exact Hin.
      * destruct (Hf2 f Hf) as [Hnot Hin]. split; [|exact Hin].
        intros Hold. apply Hnot. apply Hk1. exact Hold.
    + etrans; [exact Hk1 | exact Hk2].
    + intros R. destruct (Hm1 R) as (R1 & HR1 & Hsub1).
      destruct (Hm2 R1) as (R2 & HR2 & Hsub2).
      exists R2. rewrite monitor_app, HR1. cbn [mbind option_bind].
      split; [exact HR2 | etrans; [exact Hsub1 | exact Hsub2]].
Qed.

(** The row that is new in the second pass gets its one job there; the
    third pass, which meets it again, submits nothing. *)
Example new_row_dispatched_once :
  submitted (snd (alarm_poll_loop 100 10 Samples.three_passes
                    (false, Samples.empty_store)))
  = ["/idea1/2024-05-01/001/10.05.00-10.05.00[M][@0][0].jpg"].
Proof. vm_compute. reflexivity. Qed.

End PollingClaims.

(** * Further properties *)

(** ** Frames on the wire *)

Module WireCodec.
Import Wire WireFacts Layout.

Lemma b2z_range b : 0 <= b2z b < 256.
Proof.
  unfold b2z. pose proof (Byte.to_N_bounded b). lia.
Qed.

Lemma b2z_z2b z : b2z (z2b z) = z mod 256.
Proof.
  unfold b2z, z2b. pose proof (Z.mod_pos_bound z 256 ltac:(lia)) as Hm.
  destruct (Byte.of_N (Z.to_N (z mod 256))) as [b|] eqn:E.
  - apply Byte.to_of_N in E. rewrite E. lia.
  - apply Byte.of_N_None_iff in E. lia.
Qed.

Lemma le_int_digits v n : forall k,
  Struct.le_int (map (fun i => z2b (v / 256 ^ Z.of_nat i)) (seq k n))
  = (v / 256 ^ Z.of_nat k) mod 256 ^ Z.of_nat n.
Proof.
  induction n as [|n IH]; intros k.
  - cbn. rewrite Z.mod_1_r. reflexivity.
  - cbn [seq map Struct.le_int]. rewrite IH, b2z_z2b.
    replace (Z.of_nat (S k)) with (Z.of_nat k + 1) by lia.
    replace (Z.of_nat (S n)) with (1 + Z.of_nat n) by lia.
    rewrite !Z.pow_add_r, Z.pow_1_r by lia.
    rewrite <- Z.div_div by lia.
    rewrite Z.rem_mul_r by lia. reflexivity.
Qed.

Lemma read_write_le n v :
  0 <= v < 256 ^ Z.of_nat n ->
  Struct.le_int (Struct.write_int Struct.Little n v) = v.
Proof.
  intros Hv. unfold Struct.write_int. rewrite le_int_digits.
  cbn [Z.of_nat Z.pow]. rewrite Z.div_1_r. apply Z.mod_small. exact Hv.
Qed.


Lemma in_range_true v (n : nat) :
  0 <= v < 256 ^ Z.of_nat n ->
  (0 <=? v) && (v <? 256 ^ Z.of_nat n) = true.
Proof.
  intros H. apply andb_true_iff. split; [apply Z.leb_le | apply Z.ltb_lt]; lia.
Qed.

Lemma pack_old session sq msgid len :
  0 <= session < 2 ^ 32 -> 0 <= sq < 2 ^ 32 -> 0 <= msgid < 2 ^ 16 ->
  0 <= len < 2 ^ 32 ->
  Struct.pack _HDR_OLD [255; 0; session; sq; msgid; len]
  = Some (Layout.old_header session sq msgid len).
Proof.
  intros H1 H2 H3 H4. unfold Layout.old_header, Struct.pack.
  replace (Struct.parse _HDR_OLD)
    with (Some (Struct.Native,
                [Struct.cB; Struct.cB; Struct.cx; Struct.cx; Struct.cI; Struct.cI;
                 Struct.cx; Struct.cx; Struct.cH; Struct.cI])) by reflexivity.
  cbn [mbind option_bind].
  replace (Struct.layout _ _ 0)
    with ([(Struct.cB, 0%nat); (Struct.cB, 1%nat); (Struct.cx, 2%nat);
           (Struct.cx, 3%nat); (Struct.cI, 4%nat); (Struct.cI, 8%nat);
           (Struct.cx, 12%nat); (Struct.cx, 13%nat); (Struct.cH, 14%nat);
           (Struct.cI, 16%nat)], 20%nat) by reflexivity.
  cbn [fst Struct.pack_items Struct.size_of].
  rewrite (in_range_true 255 1), (in_range_true 0 1) by (cbn; lia).
  rewrite (in_range_true session 4), (in_range_true sq 4),
    (in_range_true msgid 2), (in_range_true len 4) by assumption.
  reflexivity.
Qed.

Lemma unpack_old session sq msgid len :
  0 <= session < 2 ^ 32 -> 0 <= sq < 2 ^ 32 -> 0 <= msgid < 2 ^ 16 ->
  0 <= len < 2 ^ 32 ->
  Struct.unpack _HDR_OLD (Layout.old_header session sq msgid len)
  = Some [255; 0; session; sq; msgid; len].
Proof.
  intros H1 H2 H3 H4. unfold Layout.old_header.
  rewrite (DemuxFacts.unpack_sized _HDR_OLD Struct.Native
             [Struct.cB; Struct.cB; Struct.cx; Struct.cx; Struct.cI; Struct.cI;
              Struct.cx; Struct.cx; Struct.cH; Struct.cI]
             [(Struct.cB, 0%nat); (Struct.cB, 1%nat); (Struct.cx, 2%nat);
              (Struct.cx, 3%nat); (Struct.cI, 4%nat); (Struct.cI, 8%nat);
              (Struct.cx, 12%nat); (Struct.cx, 13%nat); (Struct.cH, 14%nat);
              (Struct.cI, 16%nat)] 20) by reflexivity.
  pose proof (read_write_le 4 session H1) as E1.
  pose proof (read_write_le 4 sq H2) as E2.
  pose proof (read_write_le 2 msgid H3) as E3.
  pose proof (read_write_le 4 len H4) as E4.
  unfold Layout.le_bytes, Struct.write_int in *. cbn [seq map] in *.
  cbn [flat_map Struct.field Struct.size_of app take drop Struct.read_int].
  rewrite E1, E2, E3, E4. reflexivity.
Qed.


Lemma pack_new ver sess sq b1 b2 msgid len :
  0 <= ver < 2 ^ 8 -> 0 <= sess < 2 ^ 32 -> 0 <= sq < 2 ^ 32 ->
  0 <= b1 < 2 ^ 8 -> 0 <= b2 < 2 ^ 8 -> 0 <= msgid < 2 ^ 16 ->
  0 <= len < 2 ^ 32 ->
  Struct.pack _HDR_NEW [255; ver; sess; sq; b1; b2; msgid; len]
  = Some (Layout.new_header ver sess sq b1 b2 msgid len).
Proof.
  intros H1 H2 H3 H4 H5 H6 H7. unfold Layout.new_header, Struct.pack.
  replace (Struct.parse _HDR_NEW)
    with (Some (Struct.Little,
                [Struct.cB; Struct.cB; Struct.cx; Struct.cx; Struct.cI; Struct.cI;
                 Struct.cB; Struct.cB; Struct.cH; Struct.cI])) by reflexivity.
  cbn [mbind option_bind].
  replace (Struct.layout _ _ 0)
    with ([(Struct.cB, 0%nat); (Struct.cB, 1%nat); (Struct.cx, 2%nat);
           (Struct.cx, 3%nat); (Struct.cI, 4%nat); (Struct.cI, 8%nat);
           (Struct.cB, 12%nat); (Struct.cB, 13%nat); (Struct.cH, 14%nat);
           (Struct.cI, 16%nat)], 20%nat) by reflexivity.
  cbn [fst Struct.pack_items Struct.size_of].
  rewrite (in_range_true 255 1) by (cbn; lia).
  rewrite (in_range_true ver 1), (in_range_true sess 4), (in_range_true sq 4),
    (in_range_true b1 1), (in_range_true b2 1), (in_range_true msgid 2),
    (in_range_true len 4) by assumption.
  reflexivity.
Qed.

Lemma unpack_new ver sess sq b1 b2 msgid len :
  0 <= ver < 2 ^ 8 -> 0 <= sess < 2 ^ 32 -> 0 <= sq < 2 ^ 32 ->
  0 <= b1 < 2 ^ 8 -> 0 <= b2 < 2 ^ 8 -> 0 <= msgid < 2 ^ 16 ->
  0 <= len < 2 ^ 32 ->
  Struct.unpack _HDR_NEW (Layout.new_header ver sess sq b1 b2 msgid len)
  = Some [255; ver; sess; sq; b1; b2; msgid; len].
Proof.
  intros H1 H2 H3 H4 H5 H6 H7. unfold Layout.new_header.
  rewrite (DemuxFacts.unpack_sized _HDR_NEW Struct.Little
             [Struct.cB; Struct.cB; Struct.cx; Struct.cx; Struct.cI; Struct.cI;
              Struct.cB; Struct.cB; Struct.cH; Struct.cI]
             [(Struct.cB, 0%nat); (Struct.cB, 1%nat); (Struct.cx, 2%nat);
              (Struct.cx, 3%nat); (Struct.cI, 4%nat); (Struct.cI, 8%nat);
              (Struct.cB, 12%nat); (Struct.cB, 13%nat); (Struct.cH, 14%nat);
              (Struct.cI, 16%nat)] 20) by reflexivity.
  pose proof (read_write_le 1 ver H1) as E1.
  pose proof (read_write_le 4 sess H2) as E2.
  pose proof (read_write_le 4 sq H3) as E3.
  pose proof (read_write_le 1 b1 H4) as E4.
  pose proof (read_write_le 1 b2 H5) as E5.
  pose proof (read_write_le 2 msgid H6) as E6.
  pose proof (read_write_le 4 len H7) as E7.
  unfold Layout.le_bytes, Struct.write_int in *. cbn [seq map] in *.
  cbn [flat_map Struct.field Struct.size_of app take drop Struct.read_int].
  rewrite E1, E2, E3, E4, E5, E6, E7. reflexivity.
Qed.

Lemma le_bytes_length n v : length (le_bytes n v) = n.
Proof. apply HashFacts.write_int_length. Qed.

Lemma recvn_app (a b : bytes) : _recvn (a ++ b) (length a) = inr (a, b).
Proof.
  unfold _recvn. rewrite decide_True by (rewrite length_app; lia).
  rewrite take_app_length, drop_app_length. reflexivity.
Qed.

Lemma recvn_short (s : bytes) n :
  (length s < n)%nat -> _recvn s n = inl (Exn "ConnectionError" "socket closed").
Proof. intros H. unfold _recvn. rewrite decide_False by lia. reflexivity. Qed.


Import Layout.

(** X1.  A legacy frame survives the wire: what [_send_old] hands to
    the socket for a session, sequence number and message id that fit
    their fields is the 20-byte header, the payload and the two trailer
    bytes 0A 00; [_recv_old_json] reads those fields and that body back
    and leaves what follows on the socket untouched; and on every proper
    prefix of the frame it raises [ConnectionError]. *)
Theorem legacy_frame_round_trip session sq msgid (payload rest : bytes) :
  0 <= session < 2 ^ 32 -> 0 <= sq < 2 ^ 32 -> 0 <= msgid < 2 ^ 16 ->
  Z.of_nat (length payload) + 2 < 2 ^ 32 ->
  let len := Z.of_nat (length payload) + 2 in
  let wire := old_header session sq msgid len ++ payload ++ [x0a; x00] in
  _send_old session sq msgid payload = inr wire /\
  _recv_old_json (wire ++ rest)
  = inr (OldPacket session sq msgid len (payload ++ [x0a; x00]), rest) /\
  forall n, (n < length wire)%nat ->
    _recv_old_json (take n wire) = inl (Exn "ConnectionError" "socket closed").
Proof.
  intros H1 H2 H3 H4 len wire.
  assert (0 <= len < 2 ^ 32) as Hlen by (subst len; lia).
  assert (length (old_header session sq msgid len) = 20%nat) as Hh
    by (unfold old_header; rewrite !length_app, !le_bytes_length; reflexivity).
  assert (length (payload ++ [x0a; x00]) = Z.to_nat len) as Hb
    by (rewrite length_app; cbn; subst len; lia).
  split; [|split].
  - unfold _send_old. fold len. rewrite (pack_old session sq msgid len) by assumption.
    reflexivity.
  - unfold _recv_old_json. subst wire. rewrite <- app_assoc.
    rewrite <- Hh at 1. rewrite recvn_app. cbn [mbind res_bind].
    rewrite unpack_old by assumption.
    rewrite <- Hb. rewrite recvn_app. reflexivity.
  - intros n Hn. unfold _recv_old_json.
    destruct (decide (n < 20)%nat) as [Hs|Hs].
    + rewrite recvn_short by (rewrite length_take; lia). reflexivity.
    + subst wire. rewrite take_app_ge by lia. rewrite Hh.
      rewrite <- Hh at 1. rewrite recvn_app. cbn [mbind res_bind].
      rewrite unpack_old by assumption.
      rewrite recvn_short; [reflexivity|].
      rewrite length_take. rewrite length_app in Hn. subst len. lia.
Qed.


Lemma legacy_frame_round_trip_witness :
  _send_old 7 2 1000 [x7b; x7d] = inr Samples.old_stream /\
  _recv_old_json (Samples.old_stream ++ [xaa])
  = inr (Samples.old_packet, [xaa]) /\
  forall n, (n < length Samples.old_stream)%nat ->
    _recv_old_json (take n Samples.old_stream)
    = inl (Exn "ConnectionError" "socket closed").
Proof.
  apply (legacy_frame_round_trip 7 2 1000 [x7b; x7d] [xaa]); cbn; lia.
Defined.

Lemma recv_new_frame (p : new_packet) (rest : bytes) :
  well_formed p -> _recv_new_packet (new_frame p ++ rest) = inr (p, rest).
Proof.
  destruct p as [ver sess sq b1 b2 msgid len payload].
  unfold well_formed, new_frame. cbn [n_ver n_sess n_seq n_b1 n_b2 n_msgid n_len n_payload].
  intros (H1 & H2 & H3 & H4 & H5 & H6 & Hl & H7).
  assert (0 <= len < 2 ^ 32) as Hlen by lia.
  assert (length (new_header ver sess sq b1 b2 msgid len) = 20%nat) as Hh
    by (unfold new_header; rewrite !length_app, !le_bytes_length; reflexivity).
  unfold _recv_new_packet. rewrite hdr_new_size, <- app_assoc.
  rewrite <- Hh at 1. rewrite recvn_app. cbn [mbind res_bind].
  rewrite unpack_new by assumption.
  replace (255 =? 255) with true by reflexivity. cbn [negb].
  destruct (len =? 0) eqn:Hz; cbn [negb mbind res_bind].
  - apply Z.eqb_eq in Hz. destruct payload; [reflexivity|cbn in Hl; lia].
  - replace (Z.to_nat len) with (length payload) by lia.
    rewrite recvn_app. reflexivity.
Qed.

(** X2.  [_recv_new_packet] decodes the frame of every well-formed
    packet (fields within their widths, the length field counting the
    payload) back to that packet, leaving the bytes behind the frame on
    the socket; a connection that ends anywhere inside the frame raises
    [ConnectionError]. *)
Theorem new_frame_decodes (p : new_packet) (rest : bytes) :
  well_formed p ->
  _recv_new_packet (new_frame p ++ rest) = inr (p, rest) /\
  forall n, (n < length (new_frame p))%nat ->
    _recv_new_packet (take n (new_frame p))
    = inl (Exn "ConnectionError" "socket closed").
Proof.
  intros Hwf. split; [apply recv_new_frame; exact Hwf|]. revert Hwf.
  destruct p as [ver sess sq b1 b2 msgid len payload].
  unfold well_formed, new_frame. cbn [n_ver n_sess n_seq n_b1 n_b2 n_msgid n_len n_payload].
  intros (H1 & H2 & H3 & H4 & H5 & H6 & Hl & H7).
  assert (0 <= len < 2 ^ 32) as Hlen by lia.
  assert (length (new_header ver sess sq b1 b2 msgid len) = 20%nat) as Hh
    by (unfold new_header; rewrite !length_app, !le_bytes_length; reflexivity).
  intros n Hn. unfold _recv_new_packet. rewrite hdr_new_size.
  destruct (decide (n < 20)%nat) as [Hs|Hs].
  - rewrite recvn_short by (rewrite length_take; lia). reflexivity.
  - rewrite take_app_ge by lia. rewrite Hh.
    rewrite <- Hh at 1. rewrite recvn_app. cbn [mbind res_bind].
    rewrite unpack_new by assumption.
    replace (255 =? 255) with true by reflexivity. cbn [negb].
    rewrite length_app in Hn.
    replace (len =? 0) with false by (symmetry; apply Z.eqb_neq; lia).
    cbn [negb]. rewrite recvn_short; [reflexivity|].
    rewrite length_take. lia.
Qed.

Lemma new_frame_decodes_witness :
  _recv_new_packet (new_frame Samples.new_packet ++ [xaa])
  = inr (Samples.new_packet, [xaa]) /\
  forall n, (n < length (new_frame Samples.new_packet))%nat ->
    _recv_new_packet (take n (new_frame Samples.new_packet))
    = inl (Exn "ConnectionError" "socket closed").
Proof.
  apply (new_frame_decodes Samples.new_packet [xaa]).
  unfold well_formed. cbn. lia.
Defined.

(** X3.  Twenty bytes or more whose first byte is not 0xFF make
    [_recv_new_packet] raise [ValueError] ("invalid DVRIP magic"),
    whatever the rest of the header says. *)
Theorem bad_magic_is_refused (b : byte) (s : bytes) :
  b2z b <> 255 -> (19 <= length s)%nat ->
  _recv_new_packet (b :: s) = inl (Exn "ValueError" "invalid DVRIP magic").
Proof.
  intros Hb Hs. unfold _recv_new_packet. rewrite hdr_new_size.
  unfold _recvn. rewrite decide_True by (cbn; lia). cbn [mbind res_bind].
  rewrite (DemuxFacts.unpack_sized _HDR_NEW Struct.Little
             [Struct.cB; Struct.cB; Struct.cx; Struct.cx; Struct.cI; Struct.cI;
              Struct.cB; Struct.cB; Struct.cH; Struct.cI]
             [(Struct.cB, 0%nat); (Struct.cB, 1%nat); (Struct.cx, 2%nat);
              (Struct.cx, 3%nat); (Struct.cI, 4%nat); (Struct.cI, 8%nat);
              (Struct.cB, 12%nat); (Struct.cB, 13%nat); (Struct.cH, 14%nat);
              (Struct.cI, 16%nat)] 20)
    by (reflexivity || (rewrite length_take; cbn [length]; lia)).
  cbn [flat_map Struct.field app Struct.size_of Struct.read_int].
  replace (Struct.le_int (take 1 (drop 0 (take 20 (b :: s))))) with (b2z b)
    by (cbn [take drop Struct.le_int]; rewrite take_0; cbn [Struct.le_int]; lia).
  replace (b2z b =? 255) with false by (symmetry; apply Z.eqb_neq; exact Hb).
  reflexivity.
Qed.

Lemma bad_magic_is_refused_witness :
  _recv_new_packet Cases.no_magic
  = inl (Exn "ValueError" "invalid DVRIP magic").
Proof.
  apply (bad_magic_is_refused x00 (replicate 19 x00)); [discriminate | cbn; lia].
Defined.

End WireCodec.

Module DownloadLoop.
Import Wire WireFacts Download Layout.

Lemma recv_new_shrinks s pkt s' :
  _recv_new_packet s = inr (pkt, s') -> (length s' + 20 <= length s)%nat.
Proof.
  intros H. apply recv_new_packet_inv in H as (hdr & -> & Hh & _).
  rewrite !length_app. lia.
Qed.

Lemma payload_one p ps :
  payload_1426 (p :: ps)
  = (if decide (n_msgid p = 1426) then n_payload p else []) ++ payload_1426 ps.
Proof.
  unfold payload_1426. rewrite filter_cons.
  destruct (decide (n_msgid p = 1426)); reflexivity.
Qed.

Lemma absorb_packet_spec raw p :
  absorb_packet raw p
  = if decide (n_b2 p = 0) then inr (raw ++ payload_1426 [p])
    else inl (raw ++ payload_1426 [p]).
Proof.
  unfold absorb_packet. rewrite payload_one.
  assert ((if (n_msgid p =? 1426) && negb (bool_decide (n_payload p = []))
           then raw ++ n_payload p else raw)
          = raw ++ (if decide (n_msgid p = 1426) then n_payload p else [])
                ++ payload_1426 []) as ->.
  { unfold payload_1426. cbn. rewrite app_nil_r.
    destruct (decide (n_msgid p = 1426)) as [E|E].
    - rewrite (proj2 (Z.eqb_eq _ _) E). cbn [andb].
      case_bool_decide as Hp; cbn [negb]; [rewrite Hp, app_nil_r|]; reflexivity.
    - rewrite (proj2 (Z.eqb_neq _ _) E). cbn [andb]. rewrite app_nil_r. reflexivity. }
  destruct (decide (n_b2 p = 0)) as [E|E].
  - rewrite (proj2 (Z.eqb_eq _ _) E). reflexivity.
  - rewrite (proj2 (Z.eqb_neq _ _) E). reflexivity.
Qed.

Lemma frames_length s pkts rest :
  frames s pkts rest -> (length rest + 20 * length pkts <= length s)%nat.
Proof.
  induction 1 as [|s pkt s' pkts rest Hr _ IH]; [cbn; lia|].
  apply recv_new_shrinks in Hr. cbn [length]. lia.
Qed.

Lemma recv_loop_frames pkts : forall fuel s raw last rest,
  frames s (pkts ++ [last]) rest ->
  Forall (fun p => n_b2 p = 0) pkts -> n_b2 last <> 0 ->
  (length pkts < fuel)%nat ->
  recv_loop fuel s raw = Some (inr (raw ++ payload_1426 (pkts ++ [last]), rest)).
Proof.
  induction pkts as [|p pkts IH]; intros fuel s raw last rest Hf Hz Hl Hfuel;
    (destruct fuel as [|fuel]; [cbn in Hfuel; lia|]); cbn [recv_loop];
    inversion Hf as [|? ? s' ? ? Hr Hf']; subst; rewrite Hr, absorb_packet_spec.
  - inversion Hf'; subst. rewrite decide_False by exact Hl. reflexivity.
  - inversion Hz as [|? ? Hp Hz']; subst. rewrite decide_True by exact Hp.
    rewrite (IH fuel s' _ last rest Hf' Hz' Hl) by (cbn in Hfuel; lia).
    cbn [app]. rewrite (payload_one p (pkts ++ [last])), <- app_assoc.
    rewrite (payload_one p []). unfold payload_1426 at 2. cbn.
    rewrite app_nil_r. reflexivity.
Qed.

Lemma recv_loop_inv : forall fuel s raw out rest,
  recv_loop fuel s raw = Some (inr (out, rest)) ->
  exists pkts last,
    frames s (pkts ++ [last]) rest /\
    Forall (fun p => n_b2 p = 0) pkts /\ n_b2 last <> 0 /\
    out = raw ++ payload_1426 (pkts ++ [last]).
Proof.
  induction fuel as [|fuel IH]; intros s raw out rest; cbn [recv_loop];
    [discriminate|].
  destruct (_recv_new_packet s) as [e|[pkt s']] eqn:Hr; [discriminate|].
  rewrite absorb_packet_spec. destruct (decide (n_b2 pkt = 0)) as [Hz|Hz].
  - intros H. destruct (IH _ _ _ _ H) as (pkts & last & Hf & Hall & Hl & ->).
    exists (pkt :: pkts), last. split; [econstructor; eassumption|].
    split; [constructor; assumption|]. split; [exact Hl|].
    cbn [app]. rewrite (payload_one pkt (pkts ++ [last])), (payload_one pkt []).
    unfold payload_1426 at 1. cbn. rewrite app_nil_r, <- app_assoc. reflexivity.
  - intros [= <- <-]. exists [], pkt. split; [econstructor; [eassumption|constructor]|].
    split; [constructor|]. split; [exact Hz | reflexivity].
Qed.

Lemma recv_loop_broken pkts : forall fuel s raw rest e,
  frames s pkts rest -> Forall (fun p => n_b2 p = 0) pkts ->
  _recv_new_packet rest = inl e -> (length pkts < fuel)%nat ->
  recv_loop fuel s raw = Some (inl e).
Proof.
  induction pkts as [|p pkts IH]; intros fuel s raw rest e Hf Hz He Hfuel;
    (destruct fuel as [|fuel]; [cbn in Hfuel; lia|]); cbn [recv_loop];
    inversion Hf as [|? ? s' ? ? Hr Hf']; subst.
  - rewrite He. reflexivity.
  - rewrite Hr, absorb_packet_spec. inversion Hz as [|? ? Hp Hz']; subst.
    rewrite decide_True by exact Hp. eapply IH; try eassumption. cbn in Hfuel. lia.
Qed.

(** X4.  On the bytes [s] that the peer delivers, the receive loop of
    [download_motion_file_h264] returns exactly when they begin with a
    run of packets whose flag byte [b2] is 0 followed by one whose [b2]
    is not 0, and then returns the payloads of the packets with message
    id 1426 among them, in order, that last packet included; if a read
    fails before such a packet, the error of the failing read comes out
    and nothing is returned.  Nothing is said of a peer that never stops
    sending packets with [b2 = 0]: the loop has no other exit. *)
Theorem download_gathers_archive_payloads (s : sock) :
  (forall out rest,
     recv_1426 s = Some (inr (out, rest)) <->
     exists pkts last,
       frames s (pkts ++ [last]) rest /\
       Forall (fun p => n_b2 p = 0) pkts /\ n_b2 last <> 0 /\
       out = payload_1426 (pkts ++ [last])) /\
  (forall pkts rest e,
     frames s pkts rest -> Forall (fun p => n_b2 p = 0) pkts ->
     _recv_new_packet rest = inl e -> recv_1426 s = Some (inl e)).
Proof.
  split.
  - intros out rest. split.
    + intros H. apply recv_loop_inv in H. exact H.
    + intros (pkts & last & Hf & Hz & Hl & ->).
      unfold recv_1426. rewrite (recv_loop_frames pkts _ s [] last rest); auto.
      pose proof (frames_length _ _ _ Hf) as Hlen. rewrite length_app in Hlen.
      cbn in Hlen. lia.
  - intros pkts rest e Hf Hz He. unfold recv_1426.
    eapply recv_loop_broken; try eassumption.
    pose proof (frames_length _ _ _ Hf). lia.
Qed.

Lemma frames_of_well_formed (pkts : list new_packet) (rest : bytes) :
  Forall Layout.well_formed pkts ->
  frames (concat (Layout.new_frame <$> pkts) ++ rest) pkts rest.
Proof.
  induction 1 as [|p pkts Hp _ IH]; [constructor|].
  cbn [fmap list_fmap concat]. rewrite <- app_assoc.
  econstructor; [apply WireCodec.recv_new_frame; exact Hp|exact IH].
Qed.

(** X27.  Fed the frames of well-formed packets of which only the last
    has a flag byte [b2] other than 0, the receive loop of
    [download_motion_file_h264] returns the payloads of the packets
    with message id 1426 among them, in order, and leaves what follows
    the last frame unread. *)
Theorem download_of_framed_packets (pkts : list new_packet)
    (last : new_packet) (rest : bytes) :
  Forall Layout.well_formed (pkts ++ [last]) ->
  Forall (fun p => n_b2 p = 0) pkts -> n_b2 last <> 0 ->
  recv_1426 (concat (Layout.new_frame <$> (pkts ++ [last])) ++ rest)
  = Some (inr (payload_1426 (pkts ++ [last]), rest)).
Proof.
  intros Hwf Hz Hl. apply frames_of_well_formed with (rest := rest) in Hwf.
  unfold recv_1426.
  rewrite (recv_loop_frames pkts _ _ [] last rest Hwf Hz Hl); [reflexivity|].
  pose proof (frames_length _ _ _ Hwf) as Hlen. rewrite length_app in Hlen.
  cbn in Hlen. lia.
Qed.

Lemma download_of_framed_packets_witness :
  recv_1426 (concat (Layout.new_frame
                       <$> ([Cases.first_packet] ++ [Samples.new_packet]))
             ++ [xaa])
  = Some (inr (payload_1426 ([Cases.first_packet] ++ [Samples.new_packet]),
               [xaa])).
Proof.
  apply (download_of_framed_packets [Cases.first_packet] Samples.new_packet
           [xaa]).
  - repeat constructor; cbn; lia.
  - repeat constructor.
  - discriminate.
Defined.

End DownloadLoop.

(** ** Demuxing streams of blocks *)

Module DemuxStreams.
Import Demux DemuxFacts Stream.

Lemma copy_out_bound s c r o :
  (length o <= c)%nat -> (c <= length s)%nat ->
  match copy s c r o with
  | inl o' => o' = o
  | inr x' => (length (out x') <= cursor x')%nat
  end.
Proof.
  intros Ho Hc. unfold copy.
  destruct (Z.min r (Z.of_nat (length s) - Z.of_nat c) <=? 0) eqn:E; [reflexivity|].
  apply Z.leb_gt in E. cbn [out cursor].
  rewrite length_app. unfold slice. rewrite length_take, length_drop. lia.
Qed.

Lemma step_out_bound s x r :
  (cursor x < length s)%nat -> (length (out x) <= cursor x)%nat ->
  step s x = Some r ->
  match r with
  | inl o => o = out x
  | inr x' => (length (out x') <= cursor x')%nat
  end.
Proof.
  intros Hc Ho. unfold step.
  destruct (remain x =? 0) eqn:Hr.
  - destruct (length s <? cursor x + 4)%nat eqn:H4; [intros [= <-]; reflexivity|].
    apply Nat.ltb_ge in H4.
    rewrite unpack_dword by (apply slice_length; lia). cbn [mbind option_bind].
    set (dtype := Struct.be_int _).
    destruct ((dtype =? 508) || (dtype =? 510)).
    { destruct (length s <? cursor x + 4 + 12)%nat eqn:H12;
        [intros [= <-]; reflexivity|].
      apply Nat.ltb_ge in H12.
      destruct (nth_field "BBBBII" 5 _) as [v|]; cbn [mbind option_bind];
        [|discriminate].
      intros [= <-]. apply copy_out_bound; lia. }
    destruct (dtype =? 509).
    { destruct (length s <? cursor x + 4 + 4)%nat eqn:H8;
        [intros [= <-]; reflexivity|].
      apply Nat.ltb_ge in H8.
      destruct (nth_field "I" 0 _) as [v|]; cbn [mbind option_bind];
        [|discriminate].
      intros [= <-]. apply copy_out_bound; lia. }
    destruct ((dtype =? 506) || (dtype =? 505)).
    { destruct (length s <? cursor x + 4 + 4)%nat eqn:H8;
        [intros [= <-]; reflexivity|].
      apply Nat.ltb_ge in H8.
      destruct (nth_field "BBH" 2 _) as [v|]; cbn [mbind option_bind];
        [|discriminate].
      intros [= <-]. apply copy_out_bound; lia. }
    destruct (dtype =? 4292411360); intros [= <-]; cbn [out cursor].
    + rewrite length_app. cbn [length]. lia.
    + lia.
  - intros [= <-]. apply copy_out_bound; lia.
Qed.

Lemma loop_out_bound s : forall fuel x o,
  (length (out x) <= cursor x)%nat ->
  (cursor x <= length s \/ length (out x) <= length s)%nat ->
  loop fuel s x = Some o -> (length o <= length s)%nat.
Proof.
  induction fuel as [|fuel IH]; intros x o Ho Hb; cbn [loop];
    destruct (cursor x <? length s)%nat eqn:E;
    try discriminate; try (intros [= <-]; apply Nat.ltb_ge in E; lia).
  apply Nat.ltb_lt in E.
  destruct (step s x) as [[o'|x']|] eqn:Hs; [| |discriminate].
  - intros [= <-]. apply (step_out_bound s x _ E Ho) in Hs. cbn beta iota in Hs. subst. lia.
  - pose proof (step_out_bound s x _ E Ho Hs) as Hb'. cbn beta iota in Hb'.
    destruct (step_advances s x E) as (r & Hr & Hadv). rewrite Hs in Hr.
    injection Hr as <-. cbn in Hadv.
    apply IH; [exact Hb'|lia].
Qed.

(** X5.  [_extract_media_from_1426] returns on every input, without a
    [struct.error], and its output is never longer than its input. *)
Theorem demux_returns_no_more_than_it_read (s : bytes) :
  exists o, _extract_media_from_1426 s = Some o /\ (length o <= length s)%nat.
Proof.
  destruct (demux_total s) as [o Ho]. exists o. split; [exact Ho|].
  eapply loop_out_bound; [| |exact Ho]; cbn; lia.
Qed.

Lemma step_block s x len hend :
  remain x = 0 -> block_at s (cursor x) len hend ->
  step s x = Some (copy s hend len (out x)).
Proof.
  intros Hrem (dtype & Hend & Hd & Hb).
  assert (cursor x + 4 <= length s)%nat as H4
    by (destruct Hb as [(_ & -> & _) | [(_ & -> & _) | (_ & -> & _)]]; lia).
  unfold step. rewrite Hrem. cbn [Z.eqb].
  replace (length s <? cursor x + 4)%nat with false
    by (symmetry; apply Nat.ltb_ge; lia).
  unfold dword_at in Hd. rewrite Hd. cbn [mbind option_bind].
  unfold is_video, is_audio, is_aux in Hb.
  destruct Hb as [(Hv & -> & Hf) | [(Ha & -> & Hf) | (Hx & -> & Hf)]].
  - rewrite Hv.
    replace (length s <? cursor x + 4 + 12)%nat with false
      by (symmetry; apply Nat.ltb_ge; lia).
    rewrite Hf. cbn [mbind option_bind].
    replace (cursor x + 4 + 12)%nat with (cursor x + 16)%nat by lia. reflexivity.
  - destruct ((dtype =? 508) || (dtype =? 510)) eqn:Hv.
    { apply orb_true_iff in Hv. apply Z.eqb_eq in Ha. lia. }
    rewrite Ha.
    replace (length s <? cursor x + 4 + 4)%nat with false
      by (symmetry; apply Nat.ltb_ge; lia).
    rewrite Hf. cbn [mbind option_bind].
    replace (cursor x + 4 + 4)%nat with (cursor x + 8)%nat by lia. reflexivity.
  - destruct ((dtype =? 508) || (dtype =? 510)) eqn:Hv.
    { apply orb_true_iff in Hv. apply orb_true_iff in Hx. lia. }
    destruct (dtype =? 509) eqn:Ha.
    { apply orb_true_iff in Hx. lia. }
    rewrite Hx.
    replace (length s <? cursor x + 4 + 4)%nat with false
      by (symmetry; apply Nat.ltb_ge; lia).
    rewrite Hf. cbn [mbind option_bind].
    replace (cursor x + 4 + 4)%nat with (cursor x + 8)%nat by lia. reflexivity.
Qed.

Lemma block_at_bounds s i len hend :
  block_at s i len hend -> (i + 8 <= hend <= length s)%nat.
Proof.
  intros (dtype & Hend & _ & Hb).
  destruct Hb as [(_ & -> & _) | [(_ & -> & _) | (_ & -> & _)]]; lia.
Qed.

Lemma loop_blocks s i ps :
  blocks s i ps ->
  forall fuel o, (length s <= fuel + i)%nat ->
    loop fuel s (St i 0 o) = Some (o ++ concat ps).
Proof.
  induction 1 as [i Hi|i len hend Hb Hlen|i len hend ps Hb Hlen Hfit _ IH];
    intros fuel o Hf.
  - cbn [concat]. rewrite app_nil_r.
    destruct fuel as [|fuel]; cbn [loop cursor out];
      destruct (i <? length s)%nat eqn:E; try reflexivity.
    + apply Nat.ltb_lt in E. lia.
    + unfold step. cbn [remain cursor out Z.eqb].
      replace (length s <? i + 4)%nat with true
        by (symmetry; apply Nat.ltb_lt; lia).
      reflexivity.
  - pose proof (block_at_bounds _ _ _ _ Hb) as Hbd.
    cbn [concat]. rewrite app_nil_r.
    destruct fuel as [|fuel]; [lia|]. cbn [loop cursor].
    replace (i <? length s)%nat with true by (symmetry; apply Nat.ltb_lt; lia).
    rewrite (step_block s (St i 0 o) len hend eq_refl Hb). cbn [out].
    unfold copy.
    destruct (Z.min len (Z.of_nat (length s) - Z.of_nat hend) <=? 0) eqn:E.
    + apply Z.leb_le in E. rewrite drop_ge by lia. rewrite app_nil_r. reflexivity.
    + apply Z.leb_gt in E.
      replace (Z.min len (Z.of_nat (length s) - Z.of_nat hend))
        with (Z.of_nat (length s - hend)) by lia.
      rewrite Nat2Z.id. replace (hend + (length s - hend))%nat with (length s) by lia.
      destruct fuel as [|fuel]; cbn [loop cursor out];
        rewrite Nat.ltb_irrefl; unfold slice; rewrite take_ge by (rewrite length_drop; lia);
        reflexivity.
  - pose proof (block_at_bounds _ _ _ _ Hb) as Hbd.
    destruct fuel as [|fuel]; [lia|]. cbn [loop cursor].
    replace (i <? length s)%nat with true by (symmetry; apply Nat.ltb_lt; lia).
    rewrite (step_block s (St i 0 o) len hend eq_refl Hb). cbn [out].
    unfold copy.
    replace (Z.min len (Z.of_nat (length s) - Z.of_nat hend)) with len by lia.
    replace (len <=? 0) with false by (symmetry; apply Z.leb_gt; lia).
    rewrite Z.sub_diag. rewrite IH by lia.
    cbn [concat]. rewrite app_assoc. reflexivity.
Qed.

(** X6.  A stream made of tagged blocks with complete sub-headers and
    non-empty payloads is demuxed to the concatenation of the payloads,
    in order: tags and sub-headers are stripped, a last block cut short
    by the end of the stream gives the bytes that are there, and up to
    three stray bytes behind the last block are dropped. *)
Theorem demux_of_block_stream (s : bytes) (ps : list bytes) :
  blocks s 0 ps -> _extract_media_from_1426 s = Some (concat ps).
Proof.
  intros H. unfold _extract_media_from_1426.
  rewrite (loop_blocks s 0 ps H) by lia. reflexivity.
Qed.

Lemma demux_of_block_stream_witness :
  _extract_media_from_1426 Samples.tagged_stream
  = Some (concat [Samples.elementary]).
Proof.
  apply (demux_of_block_stream Samples.tagged_stream [Samples.elementary]).
  apply (blocks_cons Samples.tagged_stream 0 8 16 []).
  - exists 508. split; [cbn; lia|]. split; [reflexivity|].
    left. split; [reflexivity|]. split; reflexivity.
  - lia.
  - cbn. lia.
  - apply blocks_end. cbn. lia.
Defined.

End DemuxStreams.

(** ** Frame selection *)

Module ExtractFacts.
Import Extract Selection.

(** The order of binary64 values, from the specification of the
    comparisons ([SFcompare]): no NaN is below or above anything. *)
Lemma SFcompare_lt_trans a b c :
  SFcompare a b = Some Lt ->
  SFcompare b c = Some Lt \/ SFcompare b c = Some Eq ->
  SFcompare a c = Some Lt.
Proof.
  destruct a as [sa|sa| |sa ma ea], b as [sb|sb| |sb mb eb],
    c as [sc|sc| |sc mc ec]; cbn;
    try destruct sa; try destruct sb; try destruct sc; cbn;
    intros H1 [H2|H2]; try discriminate; try reflexivity;
    revert H1 H2; change (PosDef.Pos.compare_cont Eq) with Pos.compare;
    destruct (Z.compare_spec ea eb), (Z.compare_spec eb ec),
      (Z.compare_spec ea ec); try lia; try discriminate; try reflexivity;
    destruct (Pos.compare_spec ma mb), (Pos.compare_spec mb mc),
      (Pos.compare_spec ma mc); cbn; try lia; try discriminate; try reflexivity.
Qed.

Lemma SFcompare_lt_gt a b :
  SFcompare a b = Some Lt -> SFcompare b a = Some Gt.
Proof.
  destruct a as [sa|sa| |sa ma ea], b as [sb|sb| |sb mb eb]; cbn;
    try destruct sa; try destruct sb; cbn;
    intros H1; try discriminate; try reflexivity;
    revert H1; change (PosDef.Pos.compare_cont Eq) with Pos.compare;
    destruct (Z.compare_spec ea eb), (Z.compare_spec eb ea);
      try lia; try discriminate; try reflexivity;
    destruct (Pos.compare_spec ma mb), (Pos.compare_spec mb ma);
      cbn; try lia; try discriminate; try reflexivity.
Qed.

Lemma ltb_compare x y :
  (x <? y)%float = true <-> SFcompare (Prim2SF x) (Prim2SF y) = Some Lt.
Proof.
  rewrite ltb_spec. unfold SFltb.
  destruct (SFcompare _ _) as [[]|]; split; congruence.
Qed.

Lemma leb_compare x y :
  (x <=? y)%float = true <->
  SFcompare (Prim2SF x) (Prim2SF y) = Some Lt \/
  SFcompare (Prim2SF x) (Prim2SF y) = Some Eq.
Proof.
  rewrite leb_spec. unfold SFleb.
  destruct (SFcompare _ _) as [[]|]; split; intros H; try tauto;
    try congruence; destruct H; congruence.
Qed.

Lemma ltb_trans x y z :
  (x <? y)%float = true -> (y <? z)%float = true -> (x <? z)%float = true.
Proof.
  rewrite !ltb_compare. intros H1 H2. eapply SFcompare_lt_trans; eauto.
Qed.

Lemma ltb_leb_trans x y z :
  (x <? y)%float = true -> (y <=? z)%float = true -> (x <? z)%float = true.
Proof.
  rewrite !ltb_compare, leb_compare. intros H1 H2.
  eapply SFcompare_lt_trans; eauto.
Qed.

Lemma ltb_leb x y : (x <? y)%float = true -> (x <=? y)%float = true.
Proof. rewrite ltb_compare, leb_compare. auto. Qed.

Lemma ltb_not_leb x y : (x <? y)%float = true -> (y <=? x)%float = false.
Proof.
  rewrite ltb_compare. intros H. apply SFcompare_lt_gt in H.
  rewrite leb_spec. unfold SFleb. rewrite H. reflexivity.
Qed.

Lemma not_leb_not_ltb x y : (x <=? y)%float = false -> (x <? y)%float = false.
Proof.
  intros H. destruct (x <? y)%float eqn:E; [|reflexivity].
  apply ltb_leb in E. congruence.
Qed.

Lemma ltb_irrefl x : (x <? x)%float = false.
Proof.
  destruct (x <? x)%float eqn:E; [|reflexivity].
  pose proof (ltb_not_leb _ _ E) as H1. apply ltb_leb in E. congruence.
Qed.

(** A score that beats the best so far is not matched by anything the
    best so far was not below. *)
Lemma beats_all x y z :
  (x <? y)%float = true -> (x <? z)%float = false -> (y <=? z)%float = false.
Proof.
  intros Hxy Hxz. destruct (y <=? z)%float eqn:E; [|reflexivity].
  pose proof (ltb_leb_trans _ _ _ Hxy E). congruence.
Qed.

Lemma max_idx_bound (sample : list nat) j :
  j ∈ sample -> (j <= foldr Nat.max 0%nat sample)%nat.
Proof.
  induction sample as [|a l IH]; intros H.
  - apply elem_of_nil in H. destruct H.
  - cbn [foldr]. apply elem_of_cons in H as [->|H]; [lia|].
    specialize (IH H). lia.
Qed.

Section WithVision.
Context {V : Vision}.

Lemma consider_fold mode sample l :
  best_of mode sample l (foldl (consider mode sample) (None, (-1)%float) l).
Proof.
  induction l as [|[j g] l IH] using rev_ind.
  - cbn. split; [reflexivity|]. intros j g H. apply elem_of_nil in H. destruct H.
  - rewrite foldl_snoc.
    destruct (foldl (consider mode sample) (None, (-1)%float) l) as [best sc].
    unfold best_of in IH. cbn [fst snd] in IH. unfold consider.
    case_bool_decide as Hj.
    + cbn [snd]. destruct (sc <? score_of mode g)%float eqn:Hlt.
      * unfold best_of. cbn [fst snd].
        split; [reflexivity|]. split; [exact Hj|].
        destruct best as [[f i]|].
        -- destruct IH as (-> & Hi & Hpos & pre & post & -> & Hpre & Hpost).
           split; [eapply ltb_trans; eassumption|].
           exists (pre ++ (i, f) :: post), []. split; [reflexivity|].
           split; [|intros j' g' H; apply elem_of_nil in H; destruct H].
           intros j' g' H Hs. apply (beats_all _ _ _ Hlt).
           apply elem_of_app in H as [H|H].
           ++ apply not_leb_not_ltb. eapply Hpre; eassumption.
           ++ apply elem_of_cons in H as [[= -> ->]|H]; [apply ltb_irrefl|].
              eapply Hpost; eassumption.
        -- destruct IH as (-> & Hall). split; [exact Hlt|].
           exists l, []. split; [reflexivity|].
           split; [|intros j' g' H; apply elem_of_nil in H; destruct H].
           intros j' g' H Hs. apply (beats_all _ _ _ Hlt).
           eapply Hall; eassumption.
      * unfold best_of. cbn [fst snd].
        destruct best as [[f i]|].
        -- destruct IH as (-> & Hi & Hpos & pre & post & -> & Hpre & Hpost).
           split; [reflexivity|]. split; [exact Hi|]. split; [exact Hpos|].
           exists pre, (post ++ [(j, g)]). split; [by rewrite <- app_assoc|].
           split; [exact Hpre|].
           intros j' g' H Hs. apply elem_of_app in H as [H|H].
           ++ eapply Hpost; eassumption.
           ++ apply list_elem_of_singleton in H as [= -> ->]. exact Hlt.
        -- destruct IH as (-> & Hall). split; [reflexivity|].
           intros j' g' H Hs. apply elem_of_app in H as [H|H].
           ++ eapply Hall; eassumption.
           ++ apply list_elem_of_singleton in H as [= -> ->]. exact Hlt.
    + unfold best_of. cbn [fst snd]. destruct best as [[f i]|].
      * destruct IH as (-> & Hi & Hpos & pre & post & -> & Hpre & Hpost).
        split; [reflexivity|]. split; [exact Hi|]. split; [exact Hpos|].
        exists pre, (post ++ [(j, g)]). split; [by rewrite <- app_assoc|].
        split; [exact Hpre|].
        intros j' g' H Hs. apply elem_of_app in H as [H|H].
        -- eapply Hpost; eassumption.
        -- apply list_elem_of_singleton in H as [= -> ->]. contradiction.
      * destruct IH as (-> & Hall). split; [reflexivity|].
        intros j' g' H Hs. apply elem_of_app in H as [H|H].
        -- eapply Hall; eassumption.
        -- apply list_elem_of_singleton in H as [= -> ->]. contradiction.
Qed.

Lemma read_frames_lookup sample frames j g :
  j ∈ sample -> frames !! j = Some g ->
  read_frames sample frames !! j = Some (j, g).
Proof.
  intros Hj Hg. unfold read_frames. rewrite list_lookup_imap.
  rewrite lookup_take_lt by (apply max_idx_bound in Hj; lia).
  rewrite Hg. reflexivity.
Qed.

Lemma read_frames_elem sample frames k j g :
  read_frames sample frames !! k = Some (j, g) ->
  j = k /\ frames !! k = Some g.
Proof.
  unfold read_frames. rewrite list_lookup_imap. intros H.
  destruct (take _ frames !! k) as [x|] eqn:E; [|discriminate].
  cbn in H. injection H as <- <-. split; [reflexivity|].
  apply lookup_take_Some in E as [E _]. exact E.
Qed.

Lemma best_frame mode sample frames :
  match fst (foldl (consider mode sample) (None, (-1)%float)
               (read_frames sample frames)) with
  | None =>
      forall j g, j ∈ sample -> frames !! j = Some g ->
                  (-1 <? score_of mode g)%float = false
  | Some (f, i) =>
      frames !! i = Some f /\ i ∈ sample /\
      (-1 <? score_of mode f)%float = true /\
      (forall j g, j ∈ sample -> frames !! j = Some g ->
                   (score_of mode f <? score_of mode g)%float = false) /\
      (forall j g, j ∈ sample -> (j < i)%nat -> frames !! j = Some g ->
                   (score_of mode f <=? score_of mode g)%float = false)
  end.
Proof.
  pose proof (consider_fold mode sample (read_frames sample frames)) as H.
  unfold best_of in H.
  destruct (fst (foldl _ _ _)) as [[f i]|].
  - destruct H as (_ & Hi & Hpos & pre & post & Hl & Hpre & Hpost).
    assert (read_frames sample frames !! length pre = Some (i, f)) as Hat
      by (rewrite Hl, lookup_app_r, Nat.sub_diag by lia; reflexivity).
    apply read_frames_elem in Hat as [-> Hf].
    split; [exact Hf|]. split; [exact Hi|]. split; [exact Hpos|].
    assert (forall j g, j ∈ sample -> frames !! j = Some g ->
              ((j < length pre)%nat /\ (j, g) ∈ pre) \/
              (j = length pre /\ g = f) \/ (j, g) ∈ post) as Hwhere.
    { intros j g Hj Hg. pose proof (read_frames_lookup _ _ _ _ Hj Hg) as Hr.
      rewrite Hl in Hr.
      destruct (decide (j < length pre)%nat) as [Hlt|Hge].
      - left. split; [exact Hlt|]. rewrite lookup_app_l in Hr by exact Hlt.
        eapply list_elem_of_lookup_2; exact Hr.
      - right. rewrite lookup_app_r in Hr by lia.
        destruct (j - length pre)%nat as [|m] eqn:Em.
        + left. cbn in Hr. injection Hr as -> ->. split; [lia|reflexivity].
        + right. cbn in Hr. eapply list_elem_of_lookup_2; exact Hr. }
    split.
    + intros j g Hj Hg. destruct (Hwhere j g Hj Hg) as [[_ H]|[[_ ->]|H]].
      * apply not_leb_not_ltb. eapply Hpre; eassumption.
      * apply ltb_irrefl.
      * eapply Hpost; eassumption.
    + intros j g Hj Hlt Hg. destruct (Hwhere j g Hj Hg) as [[_ H]|[[-> _]|H]].
      * eapply Hpre; eassumption.
      * lia.
      * exfalso. apply list_elem_of_lookup_1 in H as [k Hk].
        assert (read_frames sample frames !! (length pre + S k)%nat = Some (j, g))
          as Hat by (rewrite Hl, lookup_app_r by lia;
                     replace (length pre + S k - length pre)%nat with (S k) by lia;
                     exact Hk).
        apply read_frames_elem in Hat as [-> _]. lia.
  - destruct H as (_ & Hall). intros j g Hj Hg.
    eapply Hall; [|exact Hj].
    eapply list_elem_of_lookup_2. eapply read_frames_lookup; eassumption.
Qed.

End WithVision.
End ExtractFacts.

Module FrameSelection.
Import Extract Selection ExtractFacts.
Section WithVision.
Context {V : Vision}.

Lemma chosen_frame_facts (stream : bytes) (sample : list nat)
    (mode : score_mode) (r : ExtractResult) :
  extract_best_jpeg_from_motion_h264 stream sample mode = Some r ->
  (forall i, chosen_frame_index r = Some i ->
     exists media frames f,
       Demux._extract_media_from_1426 stream = Some media /\
       capture media = Some frames /\ frames !! i = Some f /\
       i ∈ sample /\ (-1 <? score_of mode f)%float = true /\
       (forall j g, j ∈ sample -> frames !! j = Some g ->
                    (score_of mode f <? score_of mode g)%float = false) /\
       (forall j g, j ∈ sample -> (j < i)%nat -> frames !! j = Some g ->
                    (score_of mode f <=? score_of mode g)%float = false) /\
       jpeg_bytes r = imencode f) /\
  (reason r = "no_frames_decoded" ->
     exists media frames,
       Demux._extract_media_from_1426 stream = Some media /\
       capture media = Some frames /\
       forall j g, j ∈ sample -> frames !! j = Some g ->
                   (-1 <? score_of mode g)%float = false).
Proof.
  unfold extract_best_jpeg_from_motion_h264.
  destruct stream as [|b stream]; [intros [= <-]; split; [intros i [=]|intros [=]]|].
  destruct (Demux._extract_media_from_1426 (b :: stream)) as [media|];
    cbn [mbind option_bind]; [|discriminate].
  destruct media as [|m media]; [intros [= <-]; split; [intros i [=]|intros [=]]|].
  destruct (capture (m :: media)) as [frames|] eqn:Hcap;
    [|intros [= <-]; split; [intros i [=]|intros [=]]].
  pose proof (best_frame mode sample frames) as Hbest.
  unfold read_frames in Hbest.
  destruct (fst (foldl _ _ _)) as [[f i]|].
  - destruct Hbest as (Hf & Hi & Hpos & Hle & Hlt).
    destruct (imencode f) as [jpeg|] eqn:Henc; intros [= <-];
      (split; [|intros [=]]); intros i' [= <-];
      exists (m :: media), frames, f; rewrite Henc; auto 10.
  - intros [= <-]. split; [intros i [=]|]. intros _.
    exists (m :: media), frames. auto.
Qed.

Lemma extract_returns (stream : bytes) (sample : list nat) (mode : score_mode) :
  exists r, extract_best_jpeg_from_motion_h264 stream sample mode = Some r.
Proof.
  unfold extract_best_jpeg_from_motion_h264.
  destruct stream as [|b stream]; [eauto|].
  destruct (DemuxFacts.demux_total (b :: stream)) as [media ->].
  cbn [mbind option_bind].
  destruct media as [|m media]; [eauto|].
  destruct (capture (m :: media)) as [frames|]; [|eauto].
  destruct (fst (foldl _ _ _)) as [[f i]|]; [|eauto].
  destruct (imencode f); eauto.
Qed.

(** X7.  [extract_best_jpeg_from_motion_h264] always returns a
    result.  Scores are the binary64 values Python computes and are
    compared as Python compares floats.  When the result names a chosen
    frame, that frame was delivered by the capture at a sampled index,
    its score compares greater than -1.0, it compares less than the
    score of no sampled frame that was delivered, it compares less than
    or equal to the score of no earlier one (the first wins a tie, also
    a tie that only rounding makes), and the JPEG of the result is the
    encoding of that frame.  The reason no_frames_decoded means that no
    sampled frame whose score compares greater than -1.0 was
    delivered. *)
Theorem chosen_frame_is_the_best_sample (stream : bytes) (sample : list nat)
    (mode : score_mode) :
  exists r,
    extract_best_jpeg_from_motion_h264 stream sample mode = Some r /\
    (forall i, chosen_frame_index r = Some i ->
       exists media frames f,
         Demux._extract_media_from_1426 stream = Some media /\
         capture media = Some frames /\ frames !! i = Some f /\
         i ∈ sample /\ (-1 <? score_of mode f)%float = true /\
         (forall j g, j ∈ sample -> frames !! j = Some g ->
                      (score_of mode f <? score_of mode g)%float = false) /\
         (forall j g, j ∈ sample -> (j < i)%nat -> frames !! j = Some g ->
                      (score_of mode f <=? score_of mode g)%float = false) /\
         jpeg_bytes r = imencode f) /\
    (reason r = "no_frames_decoded" ->
       exists media frames,
         Demux._extract_media_from_1426 stream = Some media /\
         capture media = Some frames /\
         forall j g, j ∈ sample -> frames !! j = Some g ->
                     (-1 <? score_of mode g)%float = false).
Proof.
  destruct (extract_returns stream sample mode) as [r Hr].
  exists r. split; [exact Hr|]. apply chosen_frame_facts. exact Hr.
Qed.

(** In content mode a frame of contrast 0.02 scores [0.02 * 5.0], which
    is the float 0.1: a later frame of sharpness 0.1 only ties with it,
    and the first frame is kept. *)
Lemma rounded_scores_tie :
  @extract_best_jpeg_from_motion_h264 Cases.measures Samples.tagged_stream
    [0; 1]%nat Content
  = Some (mkExtractResult true "ok" (Some [xff; xd8; xff; xd9]) (Some 0%nat)).
Proof. vm_compute. reflexivity. Qed.

(** X8.  The result of [extract_best_jpeg_from_motion_h264] is
    coherent: [ok] holds exactly when the reason is ok, exactly when
    JPEG bytes are present, and then a chosen frame index is present as
    well; an empty stream gives the reason empty_1426_stream. *)
Theorem extract_result_is_coherent (stream : bytes) (sample : list nat)
    (mode : score_mode) :
  exists r, extract_best_jpeg_from_motion_h264 stream sample mode = Some r /\
    (ok r = true <-> reason r = "ok") /\
    (ok r = true <-> exists jpeg, jpeg_bytes r = Some jpeg) /\
    (ok r = true -> exists i, chosen_frame_index r = Some i) /\
    (stream = [] -> reason r = "empty_1426_stream").
Proof.
  unfold extract_best_jpeg_from_motion_h264.
  destruct stream as [|b stream].
  { eexists; split; [reflexivity|]. cbn.
    repeat split; try discriminate; try (intros [? [=]]); reflexivity. }
  destruct (DemuxFacts.demux_total (b :: stream)) as [media ->].
  cbn [mbind option_bind].
  destruct media as [|m media];
    [eexists; split; [reflexivity|]; cbn;
     repeat split; try discriminate; intros [? [=]]|].
  destruct (capture (m :: media)) as [frames|];
    [|eexists; split; [reflexivity|]; cbn;
      repeat split; try discriminate; intros [? [=]]].
  destruct (fst (foldl _ _ _)) as [[f i]|];
    [|eexists; split; [reflexivity|]; cbn;
      repeat split; try discriminate; intros [? [=]]].
  destruct (imencode f) as [jpeg|];
    eexists; (split; [reflexivity|]); cbn;
    repeat split; try discriminate; try (intros [? [=]]); eauto.
Qed.

(** X9.  A non-empty download in which no four-byte window is a
    recognised tag yields the result failed_to_extract_h264, with no
    image and no frame index, whatever the vision library would do. *)
Theorem untagged_download_is_not_video (stream : bytes) (sample : list nat)
    (mode : score_mode) :
  stream <> [] ->
  (forall i d, Demux.dword_at stream i = Some d -> (i + 4 <= length stream)%nat ->
               Demux.is_tag d = false) ->
  extract_best_jpeg_from_motion_h264 stream sample mode
  = Some (mkExtractResult false "failed_to_extract_h264" None None).
Proof.
  intros Hne Hno. unfold extract_best_jpeg_from_motion_h264.
  destruct stream as [|b stream]; [congruence|].
  unfold Demux._extract_media_from_1426.
  rewrite (DemuxClaims.untagged_loop _ Hno) by lia. reflexivity.
Qed.

End WithVision.

Lemma untagged_download_is_not_video_witness :
  @extract_best_jpeg_from_motion_h264 Samples.vision Samples.elementary
     [0%nat] Sharpness
  = Some (mkExtractResult false "failed_to_extract_h264" None None).
Proof.
  apply (@untagged_download_is_not_video Samples.vision Samples.elementary
           [0%nat] Sharpness); [discriminate|].
  intros i d Hd Hi.
  do 5 (destruct i as [|i]; [vm_compute in Hd; injection Hd as <-; reflexivity|]).
  simpl in Hi. lia.
Defined.

End FrameSelection.

(** ** Outcomes of the hybrid extraction *)

Module TierFacts.
Import Hybrid Tiers.

Lemma retry_loop_ext (dl dl' : Z -> res bytes) tries :
  (forall k, dl k = dl' k) ->
  forall n a last, retry_loop dl tries n a last = retry_loop dl' tries n a last.
Proof.
  intros H. induction n as [|n IH]; intros a last; cbn [retry_loop]; [reflexivity|].
  rewrite <- H. destruct (dl a); [|reflexivity].
  rewrite IH. reflexivity.
Qed.

Section WithLibraries.
Context {DT : DateTime} {V : Vision}.

Lemma download_ext (d d' : string -> string -> string -> Z -> res bytes)
    f b e retries :
  (forall f b e k, d f b e k = d' f b e k) ->
  _download_with_retries d f b e retries = _download_with_retries d' f b e retries.
Proof.
  intros H. unfold _download_with_retries.
  destruct (request_window b e) as [bt et].
  apply retry_loop_ext. intros k. apply H.
Qed.

Lemma tier_idea1_ext c c' target_dt retries :
  same_idea1 c c' -> tier_idea1 c target_dt retries = tier_idea1 c' target_dt retries.
Proof.
  intros (_ & Hl & Hq & Hd). unfold tier_idea1. rewrite <- Hl.
  destruct (cam_login c Idea1) as [e|[|]]; [reflexivity| |reflexivity].
  unfold attempt_tier. rewrite <- Hq.
  destruct (_opfilequery c Idea1 _ _ _ _) as [e|rows]; [reflexivity|].
  destruct (_pick_closest_file rows _) as [p|]; [|reflexivity].
  case_bool_decide; [reflexivity|].
  rewrite (download_ext (download_motion_file_h264 c Idea1)
             (download_motion_file_h264 c' Idea1)) by exact Hd.
  reflexivity.
Qed.

Lemma extract_jpeg_encoded raw sample mode r jpeg :
  Extract.extract_best_jpeg_from_motion_h264 raw sample mode = Some r ->
  Extract.jpeg_bytes r = Some jpeg ->
  exists f, imencode f = Some jpeg.
Proof.
  unfold Extract.extract_best_jpeg_from_motion_h264.
  destruct raw as [|b raw]; [intros [= <-] [=]|].
  destruct (Demux._extract_media_from_1426 (b :: raw)) as [media|];
    cbn [mbind option_bind]; [|discriminate].
  destruct media as [|m media]; [intros [= <-] [=]|].
  destruct (capture (m :: media)) as [frames|]; [|intros [= <-] [=]].
  destruct (fst (foldl _ _ _)) as [[f i]|]; [|intros [= <-] [=]].
  destruct (imencode f) as [j|] eqn:E; intros [= <-] [=]. subst. eauto.
Qed.

Lemma attempt_tier_image c t target_dt span ev ftype sample mode retries m jpeg :
  attempt_tier c t target_dt span ev ftype sample mode retries = (m, Some jpeg) ->
  jpeg <> [] /\ (exists f, imencode f = Some jpeg) /\
  exists x, t_extract m = Some x /\ x_ok x = true /\
            x_bottom_white_ratio x = _bottom_white_ratio jpeg.
Proof.
  unfold attempt_tier.
  destruct (_opfilequery c t _ _ ev ftype) as [e|rows]; [intros [=]|].
  destruct (_pick_closest_file rows _) as [p|]; [|intros [=]].
  case_bool_decide; [intros [=]|].
  destruct (fst (_download_with_retries _ _ _ _ _)) as [e|raw]; [intros [=]|].
  destruct (Extract.extract_best_jpeg_from_motion_h264 raw sample mode)
    as [r|] eqn:Hx; [|intros [=]].
  destruct (Extract.ok r); [|intros [=]].
  destruct (Extract.jpeg_bytes r) as [[|b j]|] eqn:Hj; try discriminate.
  intros [= <- <-]. split; [discriminate|].
  split; [eapply extract_jpeg_encoded; eassumption|].
  eexists. cbn. split; [reflexivity|]. split; reflexivity.
Qed.

Lemma tier_idea1_image c target_dt retries m jpeg :
  tier_idea1 c target_dt retries = Some (m, Some jpeg) ->
  jpeg <> [] /\ (exists f, imencode f = Some jpeg) /\
  exists x, t_extract m = Some x /\ x_ok x = true /\
            x_bottom_white_ratio x = _bottom_white_ratio jpeg.
Proof.
  unfold tier_idea1. destruct (cam_login c Idea1) as [e|[|]]; try discriminate.
  intros [= H]. eapply attempt_tier_image. exact H.
Qed.

Lemma tier_motion_image c target_dt retries m jpeg :
  tier_motion c target_dt retries = (m, Some jpeg) ->
  jpeg <> [] /\ exists f, imencode f = Some jpeg.
Proof.
  unfold tier_motion. destruct (cam_login c Motion) as [e|[|]]; try discriminate.
  intros H. apply attempt_tier_image in H as (? & ? & _). auto.
Qed.

End WithLibraries.
End TierFacts.

Module HybridOutcomes.
Import Hybrid Tiers TierFacts.
Section WithLibraries.
Context {DT : DateTime} {V : Vision}.

(** X10.  When the hybrid extractor answers with the reason ok, the
    motion tier was never consulted: the whole result is the same for
    every camera that answers the photo-marker tier alike, the motion
    entry of the meta data is absent, the chosen tier is idea1, and the
    image has a bottom-white ratio below the threshold. *)
Theorem accepted_idea1_never_asks_for_the_motion_clip (c c' : Camera)
    (target_dt : Z) (password : string) (download_retries : Z)
    (bottom_white_threshold : Q) :
  same_idea1 c c' ->
  reason (snd (extract_alarm_photo_hybrid c target_dt password download_retries
                 bottom_white_threshold)) = "ok" ->
  let result := extract_alarm_photo_hybrid c target_dt password download_retries
                  bottom_white_threshold in
  extract_alarm_photo_hybrid c' target_dt password download_retries
    bottom_white_threshold = result /\
  motion (snd result) = None /\ chosen (snd result) = Some "idea1" /\
  exists jpeg bw,
    fst result = Some jpeg /\ _bottom_white_ratio jpeg = Some bw /\
    (bw < bottom_white_threshold)%Q.
Proof.
  intros Hsame. pose proof Hsame as (Hdv & _).
  unfold extract_alarm_photo_hybrid. rewrite <- Hdv.
  rewrite <- (tier_idea1_ext c c' target_dt download_retries Hsame).
  destruct (negb (HAS_DVRIP c)); [intros [=]|].
  destruct (negb (nonempty password)); [intros [=]|].
  destruct (tier_idea1 c target_dt download_retries) as [[m1 j1]|] eqn:H1;
    [|intros [=]].
  destruct j1 as [jpeg|].
  - destruct (tier_idea1_image _ _ _ _ _ H1) as (_ & _ & x & Hx & _ & Hbw).
    unfold idea1_bw. rewrite Hx. cbn [mbind option_bind]. rewrite Hbw.
    destruct (_bottom_white_ratio jpeg) as [bw|] eqn:Hr.
    + destruct (Qltb bw bottom_white_threshold) eqn:Hlt.
      * intros _. cbn. split; [reflexivity|]. split; [reflexivity|].
        split; [reflexivity|]. exists jpeg, bw.
        split; [reflexivity|]. split; [exact Hr|].
        unfold Qltb in Hlt. apply negb_true_iff in Hlt.
        apply Qnot_le_lt. intros Hle. apply Qle_bool_iff in Hle. congruence.
      * destruct (tier_motion c target_dt download_retries) as [m2 [j2|]];
          intros [=].
    + destruct (tier_motion c target_dt download_retries) as [m2 [j2|]];
        intros [=].
  - destruct (idea1_bw m1);
      destruct (tier_motion c target_dt download_retries) as [m2 [j2|]];
      intros [=].
Qed.

Ltac image Hni Himg :=
  cbn; split; [split; eauto|]; split; [split; eauto|];
  split; [split; [intros _; apply Hni; auto|reflexivity]|];
  split; [intros ? [= <-]; exact Himg|reflexivity].

Ltac no_image Hin :=
  cbn; split; [split; [discriminate|intros [? [=]]]|];
  split; [split; [discriminate|intros [? [=]]]|];
  split; [split; [discriminate
                 |let H := fresh in
                  intros H; apply Hin in H as [H|[H|H]]; discriminate]|];
  split; [intros ? [=]|reflexivity].

(** X11.  The result of [extract_alarm_photo_hybrid] is coherent: an
    image is returned exactly when [ok] holds, exactly when a tier is
    named as chosen, and exactly when the reason is one of ok,
    ok_fallback_motion, ok_but_bottom_white; a returned image is never
    empty and is the encoding of a frame by the vision library (raw
    downloaded bytes are never passed on); the target text is the
    formatted target time. *)
Theorem hybrid_result_is_coherent (c : Camera) (target_dt : Z)
    (password : string) (download_retries : Z) (bottom_white_threshold : Q) :
  let result := extract_alarm_photo_hybrid c target_dt password download_retries
                  bottom_white_threshold in
  (ok (snd result) = true <-> exists jpeg, fst result = Some jpeg) /\
  (ok (snd result) = true <-> exists t, chosen (snd result) = Some t) /\
  (ok (snd result) = true <->
   reason (snd result) ∈ ["ok"; "ok_fallback_motion"; "ok_but_bottom_white"]) /\
  (forall jpeg, fst result = Some jpeg ->
     jpeg <> [] /\ exists f, imencode f = Some jpeg) /\
  target (snd result) = strftime target_dt.
Proof.
  assert (forall s : string,
            s ∈ ["ok"; "ok_fallback_motion"; "ok_but_bottom_white"] ->
            s = "ok" \/ s = "ok_fallback_motion" \/ s = "ok_but_bottom_white")
    as Hin.
  { intros s H. repeat (apply elem_of_cons in H as [H|H]; [auto|]).
    apply elem_of_nil in H. destruct H. }
  assert (forall s : string,
            s = "ok" \/ s = "ok_fallback_motion" \/ s = "ok_but_bottom_white" ->
            s ∈ ["ok"; "ok_fallback_motion"; "ok_but_bottom_white"]) as Hni.
  { intros s [ -> | [ -> | -> ] ]; repeat constructor. }
  unfold extract_alarm_photo_hybrid.
  destruct (negb (HAS_DVRIP c)); [no_image Hin|].
  destruct (negb (nonempty password)); [no_image Hin|].
  destruct (tier_idea1 c target_dt download_retries) as [[m1 j1]|] eqn:H1;
    [|no_image Hin].
  assert (forall j, j1 = Some j -> j <> [] /\ exists f, imencode f = Some j) as Hj1.
  { intros j ->. apply tier_idea1_image in H1 as (? & ? & _). auto. }
  destruct (match j1 with
            | Some _ => match idea1_bw m1 with
                        | Some bw => Qltb bw bottom_white_threshold
                        | None => false
                        end
            | None => false
            end) eqn:Hacc.
  { destruct j1 as [j|]; [|discriminate]. image Hni (Hj1 j eq_refl). }
  destruct (tier_motion c target_dt download_retries) as [m2 j2] eqn:H2.
  destruct j2 as [j|]; [image Hni (tier_motion_image _ _ _ _ _ H2)|].
  destruct j1 as [j|]; [image Hni (Hj1 j eq_refl)|no_image Hin].
Qed.

(** X12.  When the stripped begin time is non-empty and parses, and
    the second after it survives formatting and parsing,
    [_download_with_retries] never asks for an empty interval: the
    requested start is the stripped begin time and the requested end
    differs from it.  The requested end is the begin time plus one
    second, formatted, when the stripped end time is empty or equal to
    the stripped begin time, and the stripped end time otherwise. *)
Theorem download_window_is_never_empty (begin_time end_time : string) (dt : Z) :
  nonempty (strip begin_time) = true ->
  strptime (strip begin_time) = Some dt ->
  strptime (strftime (dt + 1)) = Some (dt + 1) ->
  let w := request_window begin_time end_time in
  fst w = strip begin_time /\ snd w <> fst w /\
  (strip end_time = EmptyString \/ strip end_time = strip begin_time ->
   snd w = strftime (dt + 1)) /\
  (strip end_time <> EmptyString -> strip end_time <> strip begin_time ->
   snd w = strip end_time).
Proof.
  intros Hne Hp Hrt. unfold request_window, _parse_dt.
  rewrite Hne, Hp. cbn [andb].
  assert (strftime (dt + 1) <> strip begin_time) as Hbump.
  { intros H. rewrite H, Hp in Hrt. injection Hrt. lia. }
  destruct (strip end_time) as [|a et] eqn:He; cbn [nonempty negb orb].
  - cbn [fst snd]. split; [reflexivity|]. split; [exact Hbump|].
    split; [reflexivity|]. intros H. contradiction.
  - case_bool_decide as Heq; cbn [fst snd].
    + split; [reflexivity|]. split; [exact Hbump|].
      split; [reflexivity|]. intros _ H. contradiction.
    + split; [reflexivity|]. split; [exact Heq|].
      split; [|reflexivity]. intros [H|H]; [discriminate|contradiction].
Qed.

End WithLibraries.

Lemma accepted_idea1_never_asks_for_the_motion_clip_witness :
  let result := @extract_alarm_photo_hybrid Calendar.datetime Samples.vision
                  Samples.camera Samples.target "secret" 2 0.5%Q in
  @extract_alarm_photo_hybrid Calendar.datetime Samples.vision
    Cases.camera_without_motion Samples.target "secret" 2 0.5%Q = result /\
  motion (snd result) = None /\ chosen (snd result) = Some "idea1" /\
  exists jpeg bw,
    fst result = Some jpeg /\
    @_bottom_white_ratio Samples.vision jpeg = Some bw /\ (bw < 0.5)%Q.
Proof.
  apply (@accepted_idea1_never_asks_for_the_motion_clip Calendar.datetime
           Samples.vision Samples.camera Cases.camera_without_motion
           Samples.target "secret" 2 0.5%Q).
  - split; [reflexivity|]. split; [reflexivity|]. split; intros; reflexivity.
  - vm_compute. reflexivity.
Defined.

Lemma download_window_is_never_empty_witness :
  let w := @request_window Calendar.datetime "2024-05-01 10:00:09" EmptyString in
  fst w = "2024-05-01 10:00:09" /\ snd w <> fst w /\
  snd w = "2024-05-01 10:00:10".
Proof.
  destruct (@download_window_is_never_empty Calendar.datetime
              "2024-05-01 10:00:09" EmptyString 1714557609)
    as (H1 & H2 & H3 & _); [vm_compute; reflexivity ..|].
  split; [exact H1|]. split; [exact H2|].
  rewrite H3 by (left; reflexivity). vm_compute. reflexivity.
Defined.

End HybridOutcomes.

(** ** The scan as a whole *)

Module ScanFacts.
Import Index IndexFacts Windows.

Section WithDateTime.
Context {DT : DateTime}.

Lemma scan_loop_keeps (P : scan -> Prop) (c : Camera) p :
  (forall s, inv p s -> running p s = true -> P s ->
             P (iteration p (query c p s) s)) ->
  forall fuel s s', inv p s -> P s -> scan_loop fuel c p s = Some s' -> P s'.
Proof.
  intros Hstep. induction fuel as [|fuel IH]; intros s s' Hinv HP; cbn [scan_loop];
    destruct (running p s) eqn:Hrun; try discriminate;
    try (intros [= <-]; exact HP).
  apply IH; [apply inv_iteration; assumption | apply Hstep; assumption].
Qed.

Lemma normalize_rows_elem rows ftype n :
  n ∈ normalize_rows rows ftype <->
  exists r, r ∈ rows /\ strptime (row_get r "BeginTime") = Some (__dt n) /\
            n = mkNrow r (__dt n) ftype.
Proof.
  unfold normalize_rows. rewrite SortFacts.sort_by_perm.
  rewrite list_elem_of_omap. unfold _parse_dt. split.
  - intros (r & Hr & Hn). exists r. split; [exact Hr|].
    destruct (strptime (row_get r "BeginTime")) as [bt|]; [|discriminate].
    cbn in Hn. injection Hn as <-. auto.
  - intros (r & Hr & Hp & Hn). exists r. split; [exact Hr|].
    rewrite Hp. cbn. rewrite <- Hn. reflexivity.
Qed.

Lemma normalize_rows_length rows ftype :
  length (normalize_rows rows ftype)
  = length (filter (fun r => is_Some (strptime (row_get r "BeginTime"))) rows).
Proof.
  unfold normalize_rows. rewrite SortFacts.sort_by_perm. unfold _parse_dt.
  induction rows as [|r rows IH]; [reflexivity|].
  cbn [omap list_omap]. rewrite filter_cons.
  destruct (strptime (row_get r "BeginTime")) as [bt|]; cbn [mbind option_bind].
  - rewrite decide_True by eauto. cbn [length]. f_equal. exact IH.
  - rewrite decide_False by (intros [? [=]]). exact IH.
Qed.

Lemma normalize_rows_le rows ftype :
  (length (normalize_rows rows ftype) <= length rows)%nat.
Proof. rewrite normalize_rows_length. apply length_filter. Qed.

Lemma windows_iteration p rows s :
  inv p s -> running p s = true -> windows_ok p s ->
  windows_ok p (iteration p rows s).
Proof.
  intros Hinv Hrun [Hw Hlog].
  pose proof (inv_chunk _ _ Hinv) as Hc.
  pose proof (inv_bounds _ _ Hinv) as Hb.
  apply running_inv in Hrun as [Hold _].
  pose proof (begin_of_bounds p s Hc Hold) as Hbeg.
  assert (cursor_end s - begin_of p s <= chunk s) as Hwd
    by (unfold begin_of; destruct (cursor_end s - chunk s <? oldest_allowed p)
          eqn:E; [apply Z.ltb_lt in E|]; lia).
  assert (sound_window p (mkChunk (begin_of p s) (cursor_end s) (length rows)
                            (length (normalize_rows rows "jpg")) (chunk s)))
    as Hnew.
  { unfold sound_window. cbn [c_begin c_end c_raw c_parsed c_chunk_sec].
    pose proof (normalize_rows_le rows "jpg"). lia. }
  assert (forall e, e ∈ log s ++ [mkChunk (begin_of p s) (cursor_end s)
                      (length rows) (length (normalize_rows rows "jpg")) (chunk s)] ->
                    sound_window p e) as Hlog'.
  { intros e He. apply elem_of_app in He as [He|He]; [auto|].
    apply list_elem_of_singleton in He. subst e. exact Hnew. }
  unfold windows_ok, widest, min_chunk in *.
  unfold iteration.
  destruct ((cap_guard p <=? Z.of_nat (length rows)) && (min_chunk p <? chunk s))
    eqn:Hcap.
  - apply andb_true_iff in Hcap as [_ Hmin]. apply Z.ltb_lt in Hmin.
    split; cbn [chunk log]; [|exact Hlog'].
    assert (chunk s / 2 < chunk s) by (apply Z.div_lt; lia). lia.
  - destruct (foldl absorb _ _) as [collected' seen'].
    split; cbn [chunk log]; [|exact Hlog'].
    destruct (Z.of_nat (length rows) <? Z.max 1 (want p / 3)); lia.
Qed.

Lemma windows_start p : windows_ok p (start p).
Proof.
  split; cbn [start chunk log].
  - unfold widest. lia.
  - intros e He. apply elem_of_nil in He. destruct He.
Qed.

Lemma trail_start p : trail p (start p).
Proof.
  split; [reflexivity|]. intros t Ht. cbn [start cursor_end] in Ht. lia.
Qed.

Lemma reported_iteration c p s :
  inv p s -> running p s = true -> reported c p s ->
  reported c p (iteration p (query c p s) s).
Proof.
  intros Hinv Hrun Hrep. unfold iteration.
  set (rows := query c p s).
  set (entry := mkChunk _ _ _ _ _).
  assert (forall r, r ∈ collected s ->
            __type r = "jpg" /\
            exists k e, (log s ++ [entry]) !! k = Some e /\ consumed p e = true /\
                        n_row r ∈ opfilequery c k (c_begin e) (c_end e)) as Hold.
  { intros r Hr. destruct (Hrep r Hr) as (Ht & k & e & Hk & Hc & Hin).
    split; [exact Ht|]. exists k, e. split; [|auto].
    rewrite lookup_app_l by (eapply lookup_lt_Some; exact Hk). exact Hk. }
  destruct ((cap_guard p <=? Z.of_nat (length rows)) && (min_chunk p <? chunk s))
    eqn:Hcap.
  - exact Hold.
  - destruct (absorb_fold (normalize_rows rows "jpg") (collected s, seen s)
                (inv_nodup _ _ Hinv) (inv_seen _ _ Hinv)) as (_ & _ & G3).
    destruct (foldl absorb _ _) as [collected' seen']. cbn [fst snd] in G3.
    intros r Hr. cbn [collected log] in *.
    destruct (G3 r Hr) as [Hr'|Hr']; [auto|].
    apply normalize_rows_elem in Hr' as (raw & Hraw & _ & Hn).
    split; [rewrite Hn; reflexivity|].
    exists (length (log s)), entry.
    split; [rewrite lookup_app_r, Nat.sub_diag by lia; reflexivity|].
    split; [unfold consumed; subst entry; cbn [c_raw c_chunk_sec];
            rewrite Hcap; reflexivity|].
    subst entry. cbn [c_begin c_end]. rewrite Hn. cbn [n_row]. exact Hraw.
Qed.

Lemma absorb_keeps norm : forall acc,
  (forall key, key ∈ snd acc -> exists r, r ∈ fst acc /\ dedup_key r = key) ->
  let acc' := foldl absorb acc norm in
  (forall key, key ∈ snd acc' -> exists r, r ∈ fst acc' /\ dedup_key r = key) /\
  (forall r, r ∈ fst acc -> r ∈ fst acc') /\
  (forall key, key ∈ snd acc -> key ∈ snd acc') /\
  (forall n, n ∈ norm -> dedup_key n ∈ snd acc').
Proof.
  induction norm as [|x norm IH]; intros acc Hs; cbn [foldl].
  - split; [exact Hs|]. split; [auto|]. split; [auto|].
    intros n Hn. apply elem_of_nil in Hn. destruct Hn.
  - assert ((forall key, key ∈ snd (absorb acc x) ->
               exists r, r ∈ fst (absorb acc x) /\ dedup_key r = key) /\
            (forall r, r ∈ fst acc -> r ∈ fst (absorb acc x)) /\
            dedup_key x ∈ snd (absorb acc x) /\
            (forall key, key ∈ snd acc -> key ∈ snd (absorb acc x)))
      as (H1 & H2 & H3 & H4).
    { unfold absorb. case_bool_decide as Hin; cbn [fst snd].
      - auto.
      - split; [|split; [|split]].
        + intros key Hk. apply elem_of_union in Hk as [Hk|Hk].
          * apply elem_of_singleton in Hk. subst key. exists x.
            split; [apply elem_of_app; right; left|reflexivity].
          * destruct (Hs key Hk) as (r & Hr & Hkey). exists r.
            split; [apply elem_of_app; auto|exact Hkey].
        + intros r Hr. apply elem_of_app. auto.
        + apply elem_of_union_l. apply elem_of_singleton. reflexivity.
        + intros key Hk. apply elem_of_union_r. exact Hk. }
    destruct (IH (absorb acc x) H1) as (G1 & G2 & G3 & G4).
    split; [exact G1|]. split; [auto|]. split; [auto|].
    intros n Hn. apply elem_of_cons in Hn as [->|Hn]; auto.
Qed.

Lemma kept_start c p : kept c p (start p).
Proof.
  split; cbn [start seen log collected].
  - intros key Hk. apply elem_of_empty in Hk. destruct Hk.
  - intros k e Hk. destruct k; discriminate Hk.
Qed.

Lemma kept_iteration c p s :
  inv p s -> running p s = true -> kept c p s ->
  kept c p (iteration p (query c p s) s).
Proof.
  intros Hinv Hrun [Hseen Hkept]. unfold iteration.
  pose proof (eq_refl : query c p s
                        = opfilequery c (length (log s)) (begin_of p s)
                            (cursor_end s)) as Hq.
  set (rows := query c p s) in *.
  set (entry := mkChunk _ _ _ _ _).
  destruct ((cap_guard p <=? Z.of_nat (length rows)) && (min_chunk p <? chunk s))
    eqn:Hcap.
  - split; cbn [seen collected log]; [exact Hseen|].
    intros k e Hk Hc. destruct (decide (k < length (log s))%nat) as [Hlt|Hge].
    + rewrite lookup_app_l in Hk by exact Hlt. eapply Hkept; eassumption.
    + rewrite lookup_app_r in Hk by lia.
      destruct (k - length (log s))%nat; [|cbn in Hk; discriminate].
      cbn in Hk. injection Hk as <-. unfold consumed in Hc. subst entry.
      cbn [c_raw c_chunk_sec] in Hc. rewrite Hcap in Hc. discriminate.
  - destruct (absorb_keeps (normalize_rows rows "jpg") (collected s, seen s) Hseen)
      as (G1 & G2 & G3 & G4).
    destruct (foldl absorb _ _) as [collected' seen']. cbn [fst snd] in *.
    split; cbn [seen collected log]; [exact G1|].
    intros k e Hk Hc raw bt Hraw Hbt.
    destruct (decide (k < length (log s))%nat) as [Hlt|Hge].
    + rewrite lookup_app_l in Hk by exact Hlt.
      destruct (Hkept k e Hk Hc raw bt Hraw Hbt) as (r & Hr & Hkey).
      exists r. auto.
    + rewrite lookup_app_r in Hk by lia.
      destruct (k - length (log s))%nat eqn:Ek;
        [|cbn in Hk; discriminate].
      cbn in Hk. injection Hk as <-. subst entry. cbn [c_begin c_end] in Hraw.
      replace k with (length (log s)) in Hraw by lia. rewrite <- Hq in Hraw.
      apply G1. apply G4. apply normalize_rows_elem. exists raw.
      cbn [__dt]. auto.
Qed.

(** The two ways [fetch_recent_alarm_markers] returns: before the scan,
    with no rows and no log, or after the loop has come to its end. *)
Lemma fetch_cases (c : Camera) (password : string) (p : params) :
  (exists m, fetch_recent_alarm_markers c password p = Some ([], m) /\
             ok m = false /\ chunks m = [] /\ count m = None) \/
  (exists s, run c p = Some s /\ inv p s /\ running p s = false /\
     fetch_recent_alarm_markers c password p
     = Some (slice_to (want p) (sort_by dt_desc (collected s)),
             mkMeta true "ok" (log s)
               (Some (length (sort_by dt_desc (collected s))))
               (strftime ∘ __dt <$> head (sort_by dt_desc (collected s))))).
Proof.
  unfold fetch_recent_alarm_markers.
  destruct (negb (HAS_DVRIP c)); [left; eexists; eauto|].
  destruct (negb (nonempty password)); [left; eexists; eauto|].
  destruct (negb (cam_login c)); [left; eexists; eauto|].
  destruct (run_total c p) as (s & Hs & Hinv & Hrun). right. exists s.
  rewrite Hs. auto.
Qed.

End WithDateTime.
End ScanFacts.

Module ScanProperties.
Import Index IndexFacts Windows ScanFacts.
Section WithDateTime.
Context {DT : DateTime}.

(** X13.  [normalize_rows] keeps exactly the rows whose BeginTime
    parses, each tagged with its parsed time and the given type, as
    many as there are such rows, newest first. *)
Theorem normalize_rows_keeps_parsable_rows_newest_first (rows : list row)
    (ftype : string) :
  (forall n, n ∈ normalize_rows rows ftype <->
     exists r, r ∈ rows /\ strptime (row_get r "BeginTime") = Some (__dt n) /\
               n = mkNrow r (__dt n) ftype) /\
  length (normalize_rows rows ftype)
  = length (filter (fun r => is_Some (strptime (row_get r "BeginTime"))) rows) /\
  StronglySorted (fun x y => __dt y <= __dt x) (normalize_rows rows ftype).
Proof.
  split; [intros n; apply normalize_rows_elem|].
  split; [apply normalize_rows_length|].
  apply IndexClaims.dt_desc_sorted.
Qed.

(** X14.  Every query that [fetch_recent_alarm_markers] logs asks for
    a non-empty window inside the lookback range, no wider than the
    window width of the moment, which stays between one second and the
    larger of the initial width and four hours; it never counts more
    parsed rows than raw ones. *)
Theorem every_query_window_is_sound (c : Camera) (password : string)
    (p : params) :
  exists rows m,
    fetch_recent_alarm_markers c password p = Some (rows, m) /\
    forall e, e ∈ chunks m -> sound_window p e.
Proof.
  destruct (fetch_cases c password p)
    as [(m & -> & _ & Hch & _)|(s & Hs & Hinv & Hrun & ->)].
  - eexists _, _. split; [reflexivity|]. rewrite Hch. intros e He.
    apply elem_of_nil in He. destruct He.
  - eexists _, _. split; [reflexivity|]. cbn [chunks].
    eapply (scan_loop_keeps (windows_ok p) c p); [| | |exact Hs].
    + intros s0 H1 H2 H3. apply windows_iteration; assumption.
    + apply inv_start.
    + apply windows_start.
Qed.

(** X15.  When [fetch_recent_alarm_markers] reports fewer markers than
    wanted, it returns them all and has scanned the whole lookback
    range: every instant of the range lies in a logged window that was
    consumed. *)
Theorem short_result_means_lookback_exhausted (c : Camera) (password : string)
    (p : params) :
  exists rows m,
    fetch_recent_alarm_markers c password p = Some (rows, m) /\
    forall n, count m = Some n -> Z.of_nat n < want p ->
      length rows = n /\
      forall t, oldest_allowed p <= t < end_dt p ->
        exists e, e ∈ chunks m /\ consumed p e = true /\
                  c_begin e <= t <= c_end e.
Proof.
  destruct (fetch_cases c password p)
    as [(m & -> & _ & _ & Hcnt)|(s & Hs & Hinv & Hrun & ->)].
  - eexists _, _. split; [reflexivity|]. rewrite Hcnt. intros n [=].
  - eexists _, _. split; [reflexivity|]. cbn [count chunks].
    intros n [= <-] Hn.
    assert (length (sort_by dt_desc (collected s)) = length (collected s)) as Hlen
      by (rewrite SortFacts.sort_by_perm; reflexivity).
    split.
    + unfold slice_to. replace (0 <=? want p) with true
        by (symmetry; apply Z.leb_le; lia).
      rewrite take_ge by lia. reflexivity.
    + assert (trail p s) as [_ Hcov].
      { eapply (scan_loop_keeps (trail p) c p); [| | |exact Hs].
        - intros s0 H1 H2 H3. apply IndexClaims.trail_iteration; assumption.
        - apply inv_start.
        - apply trail_start. }
      intros t Ht. apply Hcov.
      unfold running in Hrun. apply andb_false_iff in Hrun as [Hrun|Hrun].
      * apply Z.ltb_ge in Hrun. lia.
      * apply Z.ltb_ge in Hrun. lia.
Qed.

(** X16.  Every row [fetch_recent_alarm_markers] returns is of type
    jpg and was reported by the camera in answer to a logged query
    whose window was consumed. *)
Theorem returned_rows_were_reported_by_the_camera (c : Camera)
    (password : string) (p : params) :
  exists rows m,
    fetch_recent_alarm_markers c password p = Some (rows, m) /\
    forall r, r ∈ rows ->
      __type r = "jpg" /\
      exists k e, chunks m !! k = Some e /\ consumed p e = true /\
                  n_row r ∈ opfilequery c k (c_begin e) (c_end e).
Proof.
  destruct (fetch_cases c password p)
    as [(m & -> & _ & _ & _)|(s & Hs & Hinv & Hrun & ->)].
  - eexists _, _. split; [reflexivity|]. intros r Hr.
    apply elem_of_nil in Hr. destruct Hr.
  - eexists _, _. split; [reflexivity|]. cbn [chunks]. intros r Hr.
    destruct (IndexClaims.slice_to_take (want p) (sort_by dt_desc (collected s)))
      as [k Hk].
    rewrite Hk in Hr. apply subseteq_take in Hr.
    rewrite SortFacts.sort_by_perm in Hr. revert r Hr.
    change (reported c p s).
    eapply (scan_loop_keeps (reported c p) c p); [| | |exact Hs].
    + intros s0 H1 H2 H3. apply reported_iteration; assumption.
    + apply inv_start.
    + intros r Hr. apply elem_of_nil in Hr. destruct Hr.
Qed.

(** X17.  Unless the result is cut to the wanted number, no marker is
    lost: for every row with a parsable BeginTime that the camera
    reported in answer to a consumed query, a returned row carries the
    same deduplication key (file name and begin time). *)
Theorem no_reported_marker_is_dropped (c : Camera) (password : string)
    (p : params) :
  exists rows m,
    fetch_recent_alarm_markers c password p = Some (rows, m) /\
    forall n, count m = Some n -> Z.of_nat n <= want p ->
      forall k e raw bt,
        chunks m !! k = Some e -> consumed p e = true ->
        raw ∈ opfilequery c k (c_begin e) (c_end e) ->
        strptime (row_get raw "BeginTime") = Some bt ->
        exists r, r ∈ rows /\ dedup_key r = dedup_key (mkNrow raw bt "jpg").
Proof.
  destruct (fetch_cases c password p)
    as [(m & -> & _ & _ & Hcnt)|(s & Hs & Hinv & Hrun & ->)].
  - eexists _, _. split; [reflexivity|]. rewrite Hcnt. intros n [=].
  - eexists _, _. split; [reflexivity|]. cbn [count chunks].
    intros n [= <-] Hn k e raw bt Hk Hc Hraw Hbt.
    assert (kept c p s) as [_ Hkept].
    { eapply (scan_loop_keeps (kept c p) c p); [| | |exact Hs].
      - intros s0 H1 H2 H3. apply kept_iteration; assumption.
      - apply inv_start.
      - apply kept_start. }
    destruct (Hkept k e Hk Hc raw bt Hraw Hbt) as (r & Hr & Hkey).
    exists r. split; [|exact Hkey].
    unfold slice_to. replace (0 <=? want p) with true
      by (symmetry; apply Z.leb_le; lia).
    rewrite take_ge by lia. rewrite SortFacts.sort_by_perm. exact Hr.
Qed.

End WithDateTime.
End ScanProperties.

(** ** Passes of the poll loop *)

Module OrderFacts.

Lemma ascii_compare_spec (a b : ascii) :
  CompareSpec (a = b) (N_of_ascii a < N_of_ascii b)%N
    (N_of_ascii b < N_of_ascii a)%N (Ascii.compare a b).
Proof.
  unfold Ascii.compare. destruct (N.compare_spec (N_of_ascii a) (N_of_ascii b));
    constructor; auto.
  rewrite <- (ascii_N_embedding a), <- (ascii_N_embedding b). congruence.
Qed.

Lemma string_compare_trans : forall x y z : string,
  String.compare x y <> Gt -> String.compare y z <> Gt ->
  String.compare x z <> Gt.
Proof.
  induction x as [|a x IH]; intros [|b y] [|c z]; cbn [String.compare];
    try congruence.
  destruct (ascii_compare_spec a b) as [Eab|Hab|Hab];
    destruct (ascii_compare_spec b c) as [Ebc|Hbc|Hbc];
    destruct (ascii_compare_spec a c) as [Eac|Hac|Hac];
    subst; try congruence; try lia; try apply IH.
Qed.

Lemma string_leb_spec (x y : string) :
  String.leb x y = true <-> String.compare x y <> Gt.
Proof. unfold String.leb. destruct (String.compare x y); split; congruence. Qed.

Lemma string_leb_trans (x y z : string) :
  String.leb x y = true -> String.leb y z = true -> String.leb x z = true.
Proof. rewrite !string_leb_spec. apply string_compare_trans. Qed.

Lemma string_leb_false (x y : string) :
  String.leb x y = false -> String.leb y x = true.
Proof. destruct (String.leb_total x y) as [H|H]; congruence. Qed.

End OrderFacts.

Module PassFacts.
Import Polling PollingFacts Passes.

Lemma jobs_app a b : jobs (a ++ b) = jobs a ++ jobs b.
Proof. apply omap_app. Qed.

Lemma loop_fresh history_max poll_interval_sec cs : forall st,
  let '(st', evs) := alarm_poll_loop history_max poll_interval_sec cs st in
  known_files (snd st) ⊆ known_files (snd st') /\
  forall f, f ∈ submitted evs -> f ∉ known_files (snd st).
Proof.
  induction cs as [|c cs IH]; intros st; cbn [alarm_poll_loop].
  - split; [reflexivity|]. intros f Hf. apply elem_of_nil in Hf. destruct Hf.
  - pose proof (poll_cycle_ok history_max poll_interval_sec c st) as H1.
    unfold pass_ok in H1.
    destruct (poll_cycle history_max poll_interval_sec c st) as [st1 ev1].
    specialize (IH st1).
    destruct (alarm_poll_loop history_max poll_interval_sec cs st1) as [st2 ev2].
    destruct H1 as (Hk1 & _ & Hf1 & _). destruct IH as (Hk2 & Hf2).
    split; [etrans; eassumption|].
    intros f Hf. rewrite submitted_app in Hf. apply elem_of_app in Hf as [Hf|Hf].
    + apply (Hf1 f Hf).
    + intros Hold. apply (Hf2 f Hf). apply Hk1. exact Hold.
Qed.

Lemma seed_rows_known rows : forall known f,
  f ∈ fst (seed_rows rows known) <->
  f ∈ known \/ exists r, r ∈ rows /\ fname r = f /\ nonempty f = true.
Proof.
  induction rows as [|r rows IH]; intros known f; cbn [seed_rows].
  - cbn [fst]. split; [auto|]. intros [H|(r & Hr & _)]; [exact H|].
    apply elem_of_nil in Hr. destruct Hr.
  - destruct (nonempty (row_get r "FileName")) eqn:Hne.
    + specialize (IH ({[row_get r "FileName"]} ∪ known) f).
      destruct (seed_rows rows _) as [k ev]. cbn [fst] in *.
      rewrite IH, elem_of_union, elem_of_singleton. split.
      * intros [[->|H]|(r' & Hr' & Hf & Hn)]; [right|auto|right].
        -- exists r. split; [left|]. auto.
        -- exists r'. split; [right; exact Hr'|]. auto.
      * intros [H|(r' & Hr' & Hf & Hn)]; [auto|].
        apply elem_of_cons in Hr' as [->|Hr']; [left; left; symmetry; exact Hf|].
        right. exists r'. auto.
    + rewrite IH. split.
      * intros [H|(r' & Hr' & Hf & Hn)]; [auto|right].
        exists r'. split; [right; exact Hr'|]. auto.
      * intros [H|(r' & Hr' & Hf & Hn)]; [auto|].
        apply elem_of_cons in Hr' as [->|Hr'].
        -- unfold fname in Hf. rewrite Hf in Hne. congruence.
        -- right. exists r'. auto.
Qed.

Lemma check_rows_known rows : forall known f,
  f ∈ fst (fst (check_rows rows known)) <->
  f ∈ known \/ exists r, r ∈ rows /\ fname r = f /\ nonempty f = true.
Proof.
  induction rows as [|r rows IH]; intros known f; cbn [check_rows].
  - cbn [fst]. split; [auto|]. intros [H|(r & Hr & _)]; [exact H|].
    apply elem_of_nil in Hr. destruct Hr.
  - destruct (nonempty (row_get r "FileName")) eqn:Hne; cbn [negb].
    + case_bool_decide as Hin.
      * specialize (IH known f).
        destruct (check_rows rows known) as [[k new] ev]. cbn [fst] in *.
        rewrite IH. split.
        -- intros [H|(r' & Hr' & Hf & Hn)]; [auto|right].
           exists r'. split; [right; exact Hr'|]. auto.
        -- intros [H|(r' & Hr' & Hf & Hn)]; [auto|].
           apply elem_of_cons in Hr' as [->|Hr'].
           ++ left. unfold fname in Hf. rewrite <- Hf. exact Hin.
           ++ right. exists r'. auto.
      * specialize (IH ({[row_get r "FileName"]} ∪ known) f).
        destruct (check_rows rows _) as [[k new] ev]. cbn [fst] in *.
        rewrite IH, elem_of_union, elem_of_singleton. split.
        -- intros [[->|H]|(r' & Hr' & Hf & Hn)]; [right|auto|right].
           ++ exists r. split; [left|]. auto.
           ++ exists r'. split; [right; exact Hr'|]. auto.
        -- intros [H|(r' & Hr' & Hf & Hn)]; [auto|].
           apply elem_of_cons in Hr' as [->|Hr']; [left; left; symmetry; exact Hf|].
           right. exists r'. auto.
    + rewrite IH. split.
      * intros [H|(r' & Hr' & Hf & Hn)]; [auto|right].
        exists r'. split; [right; exact Hr'|]. auto.
      * intros [H|(r' & Hr' & Hf & Hn)]; [auto|].
        apply elem_of_cons in Hr' as [->|Hr'].
        -- unfold fname in Hf. rewrite Hf in Hne. congruence.
        -- right. exists r'. auto.
Qed.

Lemma check_rows_new rows : forall known,
  let new := snd (fst (check_rows rows known)) in
  new `sublist_of` rows /\
  (forall r, r ∈ new -> nonempty (fname r) = true /\ fname r ∉ known) /\
  (forall r, r ∈ rows -> nonempty (fname r) = true -> fname r ∉ known ->
             fname r ∈ fname <$> new).
Proof.
  induction rows as [|r rows IH]; intros known; cbn [check_rows].
  - cbn [fst snd]. split; [constructor|].
    split; intros r Hr; apply elem_of_nil in Hr; destruct Hr.
  - destruct (nonempty (row_get r "FileName")) eqn:Hne; cbn [negb].
    + case_bool_decide as Hin.
      * specialize (IH known).
        destruct (check_rows rows known) as [[k new] ev]. cbn [fst snd] in *.
        destruct IH as (H1 & H2 & H3).
        split; [apply sublist_cons; exact H1|]. split; [exact H2|].
        intros r' Hr' Hn Hk. apply elem_of_cons in Hr' as [->|Hr']; [|auto].
        contradiction.
      * specialize (IH ({[row_get r "FileName"]} ∪ known)).
        destruct (check_rows rows _) as [[k new] ev]. cbn [fst snd] in *.
        destruct IH as (H1 & H2 & H3).
        split; [apply sublist_skip; exact H1|]. split.
        -- intros r' Hr'. apply elem_of_cons in Hr' as [->|Hr']; [auto|].
           destruct (H2 r' Hr') as [Hn Hk]. split; [exact Hn|].
           intros Hold. apply Hk. apply elem_of_union_r. exact Hold.
        -- intros r' Hr' Hn Hk. cbn [fmap list_fmap].
           apply elem_of_cons in Hr' as [->|Hr']; [left|].
           destruct (decide (fname r' = fname r)) as [E|E]; [rewrite E; left|].
           right. apply H3; [assumption..|].
           intros Hu. apply elem_of_union in Hu as [Hu|Hu]; [|contradiction].
           apply elem_of_singleton in Hu. contradiction.
    + specialize (IH known).
      destruct (check_rows rows known) as [[k new] ev]. cbn [fst snd] in *.
      destruct IH as (H1 & H2 & H3).
      split; [apply sublist_cons; exact H1|]. split; [exact H2|].
      intros r' Hr' Hn Hk. apply elem_of_cons in Hr' as [->|Hr']; [|auto].
      unfold fname in Hn. congruence.
Qed.

Lemma dispatch_all history_max raises markers :
  (forall k, raises k = None) ->
  forall k alarms,
    let '(a, ev, err) := dispatch history_max raises k markers alarms in
    err = None /\ jobs ev = entry_of <$> markers.
Proof.
  intros Hok. induction markers as [|r markers IH]; intros k alarms;
    cbn [dispatch]; [split; reflexivity|].
  rewrite Hok.
  specialize (IH (S k) (slice_to history_max (entry_of r :: alarms))).
  destruct (dispatch history_max raises (S k) markers _) as [[a ev] err].
  destruct IH as [-> Hj]. split; [reflexivity|].
  cbn [jobs omap list_omap fmap list_fmap]. f_equal. exact Hj.
Qed.

Lemma slice_to_history {A} (history_max : Z) (x : A) (l : list A) :
  Z.of_nat (length (slice_to history_max (x :: l)))
  <= Z.max (Z.of_nat (length l)) history_max.
Proof.
  unfold slice_to. destruct (0 <=? history_max) eqn:E.
  - apply Z.leb_le in E. rewrite length_take. lia.
  - apply Z.leb_gt in E. rewrite length_take. cbn [length]. lia.
Qed.

Lemma dispatch_length history_max raises markers : forall k alarms,
  Z.of_nat (length (fst (fst (dispatch history_max raises k markers alarms))))
  <= Z.max (Z.of_nat (length alarms)) history_max.
Proof.
  induction markers as [|r markers IH]; intros k alarms; cbn [dispatch].
  - cbn [fst]. lia.
  - pose proof (slice_to_history history_max (entry_of r) alarms) as Hs.
    destruct (raises k) as [e|]; [cbn [fst]; exact Hs|].
    specialize (IH (S k) (slice_to history_max (entry_of r :: alarms))).
    destruct (dispatch history_max raises (S k) markers _) as [[a ev] err].
    cbn [fst] in *. lia.
Qed.

Lemma poll_cycle_length history_max poll_interval_sec c st :
  Z.of_nat (length (alarms (snd (fst (poll_cycle history_max poll_interval_sec
                                        c st)))))
  <= Z.max (Z.of_nat (length (alarms (snd st)))) history_max.
Proof.
  unfold poll_cycle. destruct st as [seeded s]. cbn [snd].
  destruct (ip c) as [addr|]; [|cbn; lia].
  destruct (nonempty addr); cbn [negb]; [|cbn; lia].
  destruct (fetched c) as [e|rows]; [cbn; lia|].
  destruct seeded; cbn [negb].
  - destruct (check_rows rows _) as [[k new] ev].
    pose proof (dispatch_length history_max (submit_raises c)
                  (sort_by by_begin_time new) 0 (alarms s)) as Hd.
    destruct (dispatch _ _ _ _ _) as [[alarms' ev'] err]. cbn [fst] in Hd.
    destruct err; cbn [fst snd alarms]; exact Hd.
  - destruct (seed_rows rows _) as [k ev]. cbn [fst snd alarms]. lia.
Qed.

(** A pass without a camera address, [None] or empty, sleeps two
    seconds and does nothing else. *)
Lemma idle_pass history_max poll_interval_sec c seeded s :
  ip c = None \/ ip c = Some EmptyString ->
  poll_cycle history_max poll_interval_sec c (seeded, s)
  = ((seeded, mkStore (added_elsewhere c ∪ known_files s) (alarms s)
                (polling_last_error s) (last_check s)), [Sleep 2]).
Proof. intros [H|H]; unfold poll_cycle; rewrite H; reflexivity. Qed.

End PassFacts.

Module PassProperties.
Import Polling PollingFacts Passes PassFacts.

(** X18.  The first pass that has a camera address (not [None], not
    empty) and fetches rows only seeds: it submits no job and leaves the
    alarm history as it was, and no file name it fetched is ever
    submitted by that pass or by any later pass. *)
Theorem startup_markers_are_never_notified
    (history_max poll_interval_sec : Z) (c : cycle) (cs : list cycle)
    (s : store) (addr : string) (rows : list row) :
  ip c = Some addr -> nonempty addr = true -> fetched c = inr rows ->
  let '(st1, ev1) := poll_cycle history_max poll_interval_sec c (false, s) in
  let '(st2, ev2) := alarm_poll_loop history_max poll_interval_sec cs st1 in
  fst st1 = true /\ jobs ev1 = [] /\ alarms (snd st1) = alarms s /\
  forall r, r ∈ rows -> nonempty (fname r) = true ->
            fname r ∈ known_files (snd st1) /\
            fname r ∉ submitted (ev1 ++ ev2).
Proof.
  intros Hip Haddr Hf. unfold poll_cycle. rewrite Hip, Haddr, Hf. cbn [negb].
  pose proof (seed_rows_known rows (added_elsewhere c ∪ known_files s)) as Hk.
  destruct (seed_rows_spec rows (added_elsewhere c ∪ known_files s))
    as (_ & Hsub & _).
  destruct (seed_rows rows _) as [k ev]. cbn [fst snd] in *.
  pose proof (loop_fresh history_max poll_interval_sec cs
                (true, mkStore k (alarms s) None (Some (now c)))) as Hl.
  destruct (alarm_poll_loop _ _ cs _) as [st2 ev2]. cbn [fst snd known_files] in *.
  destruct Hl as [_ Hfresh].
  assert (forall evs, submitted evs = [] -> jobs evs = []) as Hjobs.
  { induction evs as [|e evs IH]; [reflexivity|]. rewrite submitted_cons.
    destruct e; cbn [jobs omap list_omap]; try exact IH. discriminate. }
  split; [reflexivity|]. split.
  { apply Hjobs. rewrite submitted_cons, submitted_app, Hsub. reflexivity. }
  split; [reflexivity|].
  intros r Hr Hn.
  assert (fname r ∈ k) as Hin by (apply Hk; right; exists r; auto).
  split; [exact Hin|].
  rewrite submitted_app, submitted_cons, submitted_app, Hsub.
  cbn [app submitted omap list_omap]. intros Hs.
  exact (Hfresh _ Hs Hin).
Qed.

(** X19.  Over any number of passes the alarm history never grows
    beyond the larger of its initial length and [history_max]. *)
Theorem alarm_history_stays_bounded
    (history_max poll_interval_sec : Z) (cs : list cycle) (st : bool * store) :
  Z.of_nat (length (alarms (snd (fst (alarm_poll_loop history_max
                                        poll_interval_sec cs st)))))
  <= Z.max (Z.of_nat (length (alarms (snd st)))) history_max.
Proof.
  revert st. induction cs as [|c cs IH]; intros st; cbn [alarm_poll_loop].
  - cbn [fst]. lia.
  - pose proof (poll_cycle_length history_max poll_interval_sec c st) as H1.
    destruct (poll_cycle history_max poll_interval_sec c st) as [st1 ev1].
    specialize (IH st1).
    destruct (alarm_poll_loop history_max poll_interval_sec cs st1) as [st2 ev2].
    cbn [fst] in *. lia.
Qed.

(** X20.  In a pass after seeding that has a camera address (not
    [None], not empty) and in which no submit raises, the jobs submitted
    are those of the new markers, each once, in ascending order of their
    BeginTime text; the new markers are fetched rows with a non-empty
    file name not known before, one for each such name; the pass records
    no error and stamps [last_check]. *)
Theorem new_markers_are_dispatched_oldest_first
    (history_max poll_interval_sec : Z) (c : cycle) (s : store)
    (addr : string) (rows : list row) :
  ip c = Some addr -> nonempty addr = true -> fetched c = inr rows ->
  (forall k, submit_raises c k = None) ->
  let known := added_elsewhere c ∪ known_files s in
  let '(st', ev) := poll_cycle history_max poll_interval_sec c (true, s) in
  exists new sorted,
    jobs ev = entry_of <$> sorted /\ sorted ≡ₚ new /\
    StronglySorted
      (fun x y => String.leb (row_get x "BeginTime") (row_get y "BeginTime") = true)
      sorted /\
    new `sublist_of` rows /\ NoDup (fname <$> new) /\
    (forall r, r ∈ new -> nonempty (fname r) = true /\ fname r ∉ known) /\
    (forall r, r ∈ rows -> nonempty (fname r) = true -> fname r ∉ known ->
               fname r ∈ fname <$> new) /\
    polling_last_error (snd st') = None /\ last_check (snd st') = Some (now c).
Proof.
  intros Hip Haddr Hf Hok known. unfold poll_cycle.
  rewrite Hip, Haddr, Hf. cbn [negb]. fold known.
  pose proof (check_rows_new rows known) as Hnew.
  pose proof (check_rows_spec rows known) as Hspec.
  destruct (check_rows rows known) as [[k new] ev]. cbn [fst snd] in Hnew.
  destruct Hnew as (H1 & H2 & H3). destruct Hspec as (_ & Hnd & _ & Hsub & _).
  pose proof (dispatch_all history_max (submit_raises c)
                (sort_by by_begin_time new) Hok 0%nat (alarms s)) as Hd.
  destruct (dispatch _ _ _ _ _) as [[alarms' ev'] err]. destruct Hd as [-> Hj].
  exists new, (sort_by by_begin_time new).
  assert (forall evs, submitted evs = [] -> jobs evs = []) as Hjobs.
  { induction evs as [|e evs IH]; [reflexivity|]. rewrite submitted_cons.
    destruct e; cbn [jobs omap list_omap]; try exact IH. discriminate. }
  split.
  { change (Acquire :: ev ++ Release :: ev' ++ [Acquire; Release;
              Sleep (Z.max 1 poll_interval_sec)])
      with ([Acquire] ++ ev ++ [Release] ++ ev' ++ [Acquire; Release;
              Sleep (Z.max 1 poll_interval_sec)]).
    rewrite !jobs_app, (Hjobs ev Hsub), Hj. cbn. apply app_nil_r. }
  split; [apply SortFacts.sort_by_perm|].
  split.
  { apply (SortFacts.sort_by_sorted by_begin_time).
    - intros x y. apply OrderFacts.string_leb_false.
    - intros x y z. apply OrderFacts.string_leb_trans. }
  cbn [snd polling_last_error last_check]. auto 10.
Qed.

(** X21.  After a pass the known set holds what it held before, what
    other writers added, and, when the pass had a camera address (not
    [None], not empty) and fetched rows, the non-empty file names of
    those rows, and nothing else. *)
Theorem known_files_learns_exactly_the_named_rows
    (history_max poll_interval_sec : Z) (c : cycle) (seeded : bool) (s : store)
    (f : string) :
  f ∈ known_files (snd (fst (poll_cycle history_max poll_interval_sec c
                               (seeded, s)))) <->
  f ∈ added_elsewhere c ∪ known_files s \/
  exists addr rows r,
    ip c = Some addr /\ nonempty addr = true /\ fetched c = inr rows /\
    r ∈ rows /\ fname r = f /\ nonempty f = true.
Proof.
  unfold poll_cycle.
  destruct (ip c) as [addr|]; cbn [fst snd known_files];
    [|split; [auto|intros [H|(? & ? & ? & [=] & _)]; exact H]].
  destruct (nonempty addr) eqn:Haddr; cbn [negb fst snd known_files];
    [|split; [auto|intros [H|(? & ? & ? & [= <-] & Hn & _)];
                     [exact H|congruence]]].
  destruct (fetched c) as [e|rows]; cbn [fst snd known_files];
    [split; [auto|intros [H|(? & ? & ? & _ & _ & [=] & _)]; exact H]|].
  assert ((f ∈ added_elsewhere c ∪ known_files s \/
           exists r, r ∈ rows /\ fname r = f /\ nonempty f = true) <->
          (f ∈ added_elsewhere c ∪ known_files s \/
           exists addr0 rows0 r,
             Some addr = Some addr0 /\ nonempty addr0 = true /\
             @inr exn _ rows = inr rows0 /\
             r ∈ rows0 /\ fname r = f /\ nonempty f = true)) as Hshape.
  { split; intros [H|H]; auto; right.
    - destruct H as (r & H). exists addr, rows, r. auto.
    - destruct H as (a0 & rows0 & r & _ & _ & [= <-] & H). exists r. exact H. }
  rewrite <- Hshape. clear Hshape.
  destruct seeded; cbn [negb].
  - pose proof (check_rows_known rows (added_elsewhere c ∪ known_files s) f) as Hk.
    destruct (check_rows rows _) as [[k new] ev]. cbn [fst] in Hk.
    destruct (dispatch _ _ _ _ _) as [[alarms' ev'] [e|]];
      cbn [fst snd known_files]; exact Hk.
  - pose proof (seed_rows_known rows (added_elsewhere c ∪ known_files s) f) as Hk.
    destruct (seed_rows rows _) as [k ev]. cbn [fst snd known_files] in *.
    exact Hk.
Qed.

Lemma startup_markers_are_never_notified_witness :
  let '(st1, ev1) :=
    poll_cycle 100 10 (Samples.pass [Samples.row_100005; Samples.row_100009])
      (false, Samples.empty_store) in
  let '(st2, ev2) :=
    alarm_poll_loop 100 10
      [Samples.pass Samples.three_rows; Samples.pass Samples.three_rows] st1 in
  fst st1 = true /\ jobs ev1 = [] /\
  alarms (snd st1) = alarms Samples.empty_store /\
  forall r, r ∈ [Samples.row_100005; Samples.row_100009] ->
            nonempty (fname r) = true ->
            fname r ∈ known_files (snd st1) /\
            fname r ∉ submitted (ev1 ++ ev2).
Proof.
  apply (startup_markers_are_never_notified 100 10
           (Samples.pass [Samples.row_100005; Samples.row_100009])
           [Samples.pass Samples.three_rows; Samples.pass Samples.three_rows]
           Samples.empty_store "192.168.1.10"
           [Samples.row_100005; Samples.row_100009]); reflexivity.
Defined.

Lemma new_markers_are_dispatched_oldest_first_witness :
  let known := added_elsewhere (Samples.pass Samples.three_rows)
               ∪ known_files Cases.seeded_store in
  let '(st', ev) := poll_cycle 100 10 (Samples.pass Samples.three_rows)
                      (true, Cases.seeded_store) in
  exists new sorted,
    jobs ev = entry_of <$> sorted /\ sorted ≡ₚ new /\
    StronglySorted
      (fun x y => String.leb (row_get x "BeginTime") (row_get y "BeginTime") = true)
      sorted /\
    new `sublist_of` Samples.three_rows /\ NoDup (fname <$> new) /\
    (forall r, r ∈ new -> nonempty (fname r) = true /\ fname r ∉ known) /\
    (forall r, r ∈ Samples.three_rows -> nonempty (fname r) = true ->
               fname r ∉ known -> fname r ∈ fname <$> new) /\
    polling_last_error (snd st') = None /\
    last_check (snd st') = Some (now (Samples.pass Samples.three_rows)).
Proof.
  apply (new_markers_are_dispatched_oldest_first 100 10
           (Samples.pass Samples.three_rows) Cases.seeded_store
           "192.168.1.10" Samples.three_rows); reflexivity.
Defined.

End PassProperties.

(** ** Replies, jobs and photo files *)

Module ReplyProperties.
Import Reply.

Lemma append_dicts_filter (l : list pyval) : forall out,
  foldl (fun out r => if is_dict r then out ++ [r] else out) out l
  = out ++ filter (fun r => is_dict r = true) l.
Proof.
  induction l as [|r l IH]; intros out; cbn [foldl].
  - rewrite app_nil_r. reflexivity.
  - rewrite IH, filter_cons. destruct (is_dict r) eqn:E.
    + rewrite decide_True by reflexivity. rewrite <- app_assoc. reflexivity.
    + rewrite decide_False by discriminate. reflexivity.
Qed.

(** X24.  Both copies of [opfilequery] turn a reply into the same
    rows: dicts only, in the order of the reply's file list; a falsy
    reply gives no rows, a truthy reply that is not a dict raises
    [AttributeError], and a dict never raises. *)
Theorem both_opfilequery_copies_return_the_dict_rows (reply : pyval) :
  hybrid_rows reply = index_rows reply /\
  (forall rows, index_rows reply = inr rows ->
     Forall (fun r => is_dict r = true) rows /\
     exists l, file_list reply = inr l /\
               rows `sublist_of` default [] l) /\
  (truthy reply = false -> index_rows reply = inr []) /\
  (truthy reply = true -> is_dict reply = false ->
     index_rows reply
     = inl (Exn "AttributeError"
              ("'" +:+ type_name reply +:+ "' object has no attribute 'get'"))) /\
  (is_dict reply = true -> exists rows, index_rows reply = inr rows).
Proof.
  split; [|split; [|split; [|split]]].
  - unfold hybrid_rows, index_rows.
    destruct (file_list reply) as [e|[l|]]; cbn [mbind res_bind]; try reflexivity.
    rewrite append_dicts_filter. reflexivity.
  - intros rows. unfold index_rows.
    destruct (file_list reply) as [e|[l|]]; cbn [mbind res_bind]; intros [= <-].
    + split; [|exists (Some l); split; [reflexivity|apply sublist_filter]].
      apply Forall_forall. intros r Hr. apply list_elem_of_filter in Hr as [Hr _].
      exact Hr.
    + split; [constructor|]. exists None. split; [reflexivity|constructor].
  - intros H. unfold index_rows, file_list. rewrite H. reflexivity.
  - intros Ht Hd. unfold index_rows, file_list. rewrite Ht. cbn [negb].
    destruct reply; try discriminate; reflexivity.
  - intros Hd. unfold index_rows, file_list.
    destruct reply as [| | | | | |d]; try discriminate.
    destruct (negb (truthy (PDict d))); [eexists; reflexivity|].
    cbn [get mbind res_bind].
    destruct (default (PDict d) (d !! "OPFileQuery")) as [| | | | |l|d'];
      cbn [is_dict get mbind res_bind]; try (eexists; reflexivity).
    destruct (default (PList []) (d' !! "FileList")); eexists; reflexivity.
Qed.

End ReplyProperties.

Module JobFacts.
Import Job.

Lemma annotate_files fname photo sz m alarms :
  file <$> annotate fname photo sz m alarms = file <$> alarms.
Proof.
  induction alarms as [|a rest IH]; cbn [annotate]; [reflexivity|].
  case_bool_decide; cbn [fmap list_fmap file]; [reflexivity|].
  f_equal. exact IH.
Qed.

Lemma annotate_first fname photo sz m alarms :
  (annotate fname photo sz m alarms = alarms /\
   forall x, x ∈ alarms -> file x <> Some fname) \/
  exists pre a post,
    alarms = pre ++ a :: post /\
    (forall x, x ∈ pre -> file x <> Some fname) /\ file a = Some fname /\
    annotate fname photo sz m alarms
    = pre ++ mkAlarm (file a) photo sz (Some m) :: post.
Proof.
  induction alarms as [|a rest IH]; cbn [annotate].
  - left. split; [reflexivity|]. intros x Hx. apply elem_of_nil in Hx. destruct Hx.
  - case_bool_decide as Ha.
    + right. exists [], a, rest. split; [reflexivity|].
      split; [intros x Hx; apply elem_of_nil in Hx; destruct Hx|].
      split; [exact Ha|reflexivity].
    + destruct IH as [[IH Hno]|(pre & b & post & -> & Hpre & Hb & IH)].
      * left. rewrite IH. split; [reflexivity|].
        intros x Hx. apply elem_of_cons in Hx as [->|Hx]; auto.
      * right. exists (a :: pre), b, post. split; [reflexivity|].
        split; [intros x Hx; apply elem_of_cons in Hx as [->|Hx]; auto|].
        split; [exact Hb|]. rewrite IH. reflexivity.
Qed.

End JobFacts.

Module JobProperties.
Import Job JobFacts.
Section WithCallbacks.
Context {DT : DateTime} {V : Vision}.
Variables (c : Hybrid.Camera) (password : string).
Variable save_alarm_photo : string -> bytes -> res string.
Variable send_telegram : string -> option bytes -> res unit.

Lemma job_cases (entry : Polling.alarm_entry) (alarms : list alarm) :
  let result := job c password save_alarm_photo send_telegram entry alarms in
  let fname := Polling.a_file entry in
  let dt_txt := Polling.a_time entry in
  let alarm_id := replace " " "_" (replace ":" "_" dt_txt) in
  (strptime dt_txt = None /\ result = (alarms, [], None)) \/
  (strptime dt_txt <> None /\
   ((exists jpeg e, jpeg <> [] /\
       result = (alarms, [Saved alarm_id jpeg], Some e)) \/
    (exists m err,
       result = (annotate fname None 0 m alarms,
                 [Sent (caption dt_txt fname false) None], err)) \/
    (exists jpeg f m err, jpeg <> [] /\
       result = (annotate fname (Some f) (length jpeg) m alarms,
                 [Saved alarm_id jpeg;
                  Sent (caption dt_txt fname true) (Some jpeg)], err)))).
Proof.
  cbn zeta. unfold job.
  destruct (strptime (Polling.a_time entry)) as [bt|]; [|left; auto].
  right. split; [discriminate|].
  destruct (Hybrid.extract_alarm_photo_hybrid c bt password 2 0.25%Q)
    as [jpeg meta2].
  set (photo := match jpeg with Some (b :: j) => Some (b :: j) | _ => None end).
  assert (photo = None \/ exists b j, photo = Some (b :: j)) as Hphoto
    by (subst photo; destruct jpeg as [[|b j]|]; eauto).
  clearbody photo.
  destruct Hphoto as [->|(b & j & ->)].
  - right. left.
    match goal with
    | |- context [send_telegram ?t ?p] => destruct (send_telegram t p)
    end; eauto.
  - destruct (save_alarm_photo _ (b :: j)) as [e|f].
    + left. exists (b :: j), (exn_msg e). split; [discriminate|reflexivity].
    + right. right.
      match goal with
      | |- context [send_telegram ?t ?p] => destruct (send_telegram t p)
      end; exists (b :: j), f, meta2;
        eexists; (split; [discriminate|reflexivity]).
Qed.

(** X22.  A job leaves the history with the same entries for the same
    files, rewriting at most one of them: the first entry of the job's
    file.  With an unparsable time it does nothing at all.  A message is
    sent at most once, as the last thing the job does; a photo attached
    to it is never empty, was saved just before, and goes with the
    caption without the warning line. *)
Theorem job_annotates_one_entry_and_notifies_once
    (entry : Polling.alarm_entry) (alarms : list alarm) :
  let result := job c password save_alarm_photo send_telegram entry alarms in
  let alarms' := fst (fst result) in
  let did := snd (fst result) in
  let fname := Polling.a_file entry in
  file <$> alarms' = file <$> alarms /\
  (alarms' = alarms \/
   exists pre a post photo sz m,
     alarms = pre ++ a :: post /\
     (forall x, x ∈ pre -> file x <> Some fname) /\ file a = Some fname /\
     alarms' = pre ++ mkAlarm (file a) photo sz (Some m) :: post) /\
  (strptime (Polling.a_time entry) = None -> result = (alarms, [], None)) /\
  (forall text photo, Sent text photo ∈ did ->
     match photo with
     | Some jpeg =>
         jpeg <> [] /\ text = caption (Polling.a_time entry) fname true /\
         exists alarm_id, did = [Saved alarm_id jpeg; Sent text photo]
     | None =>
         text = caption (Polling.a_time entry) fname false /\
         did = [Sent text None]
     end).
Proof.
  cbn zeta.
  assert (forall photo sz m,
            annotate (Polling.a_file entry) photo sz m alarms = alarms \/
            exists pre a post photo' sz' m',
              alarms = pre ++ a :: post /\
              (forall x, x ∈ pre -> file x <> Some (Polling.a_file entry)) /\
              file a = Some (Polling.a_file entry) /\
              annotate (Polling.a_file entry) photo sz m alarms
              = pre ++ mkAlarm (file a) photo' sz' (Some m') :: post) as Hann.
  { intros photo sz m.
    destruct (annotate_first (Polling.a_file entry) photo sz m alarms)
      as [[H _]|(pre & a & post & H)]; [left; exact H|].
    right. exists pre, a, post, photo, sz, m. exact H. }
  destruct (job_cases entry alarms)
    as [[Hp ->]|[Hp [(jpeg & e & Hj & ->)|[(m & err & ->)
        |(jpeg & f & m & err & Hj & ->)]]]]; cbn [fst snd].
  - split; [reflexivity|]. split; [left; reflexivity|]. split; [reflexivity|].
    intros text photo H. apply elem_of_nil in H. destruct H.
  - split; [reflexivity|]. split; [left; reflexivity|].
    split; [intros H; contradiction|].
    intros text photo H. apply list_elem_of_singleton in H. discriminate.
  - split; [apply annotate_files|]. split; [apply Hann|].
    split; [intros H; contradiction|].
    intros text photo H. apply list_elem_of_singleton in H.
    injection H as -> ->. auto.
  - split; [apply annotate_files|]. split; [apply Hann|].
    split; [intros H; contradiction|].
    intros text photo H. apply elem_of_cons in H as [H|H]; [discriminate|].
    apply list_elem_of_singleton in H. injection H as -> ->. eauto.
Qed.

End WithCallbacks.
End JobProperties.

Module PhotoNames.
Import Photo.

Lemma safe_id_allowed alarm_id c :
  c ∈ safe_id alarm_id -> allowed c = true.
Proof.
  unfold safe_id. intros H. apply list_elem_of_fmap in H as (x & -> & _).
  destruct (allowed x) eqn:E; [exact E|reflexivity].
Qed.

Lemma replace_code_points old new s :
  Photo.code_points (Job.replace old new s)
  = map (fun c => if c =? Z.of_nat (nat_of_ascii old)
                  then Z.of_nat (nat_of_ascii new) else c)
      (Photo.code_points s).
Proof.
  unfold code_points. induction s as [|a s IH]; [reflexivity|].
  cbn [Job.replace list_ascii_of_string map]. f_equal; [|exact IH].
  destruct (Ascii.eqb_spec a old) as [->|Hne].
  - rewrite Z.eqb_refl. reflexivity.
  - replace (Z.of_nat (nat_of_ascii a) =? Z.of_nat (nat_of_ascii old)) with false;
      [reflexivity|].
    symmetry. apply Z.eqb_neq. intros H. apply Hne.
    apply Nat2Z.inj in H.
    rewrite <- (ascii_nat_embedding a), <- (ascii_nat_embedding old), H.
    reflexivity.
Qed.

(** X23.  The file name [save_alarm_photo] writes to is the sanitised
    id followed by ".jpg": the id keeps its length, holds only letters,
    digits, underscore and hyphen, hence no path separator, no NUL and
    no dot; sanitising twice changes nothing; and the id the poll job
    builds from a timestamp of digits, hyphens, colons and spaces is
    left as it is. *)
Theorem photo_file_name_stays_in_its_directory (alarm_id : list Z) :
  let name := filename alarm_id in
  (exists stem, name = stem ++ [46; 106; 112; 103] /\
     length stem = length alarm_id /\
     forall c, c ∈ stem -> allowed c = true) /\
  (47 ∉ name) /\ (92 ∉ name) /\ (0 ∉ name) /\
  safe_id (safe_id alarm_id) = safe_id alarm_id /\
  (forall dt_txt : string,
     alarm_id = code_points (Job.replace " " "_" (Job.replace ":" "_" dt_txt)) ->
     (forall c, c ∈ code_points dt_txt ->
                48 <= c <= 57 \/ c = 45 \/ c = 58 \/ c = 32) ->
     safe_id alarm_id = alarm_id).
Proof.
  cbn zeta. unfold filename.
  assert (forall c, allowed c = true -> c <> 47 /\ c <> 92 /\ c <> 0 /\ c <> 46)
    as Hchars.
  { intros c Hc. unfold allowed in Hc. lia. }
  assert (forall bad, bad = 47 \/ bad = 92 \/ bad = 0 ->
            bad ∉ safe_id alarm_id ++ [46; 106; 112; 103]) as Hnot.
  { intros bad Hbad Hin. apply elem_of_app in Hin as [Hin|Hin].
    - apply safe_id_allowed in Hin. apply Hchars in Hin. lia.
    - repeat (apply elem_of_cons in Hin as [Hin|Hin]; [lia|]).
      apply elem_of_nil in Hin. exact Hin. }
  split; [|split; [|split; [|split; [|split]]]]; auto.
  - exists (safe_id alarm_id). split; [reflexivity|].
    split; [apply length_map|]. intros c. apply safe_id_allowed.
  - unfold safe_id. rewrite map_map. apply map_ext. intros c.
    destruct (allowed c) eqn:E; [rewrite E|]; reflexivity.
  - intros dt_txt -> Hdt. rewrite !replace_code_points.
    unfold safe_id. rewrite !map_map.
    apply map_ext_in. intros c Hc. apply list_elem_of_In in Hc.
    specialize (Hdt c Hc). cbn [nat_of_ascii].
    change (Z.of_nat (nat_of_ascii " ")) with 32.
    change (Z.of_nat (nat_of_ascii ":")) with 58.
    change (Z.of_nat (nat_of_ascii "_")) with 95.
    destruct (c =? 58) eqn:E1; [reflexivity|].
    destruct (c =? 32) eqn:E2; [reflexivity|].
    unfold allowed.
    destruct Hdt as [H|[H|[H|H]]]; try lia.
    + replace ((48 <=? c) && (c <=? 57)) with true by lia.
      rewrite !orb_true_r. reflexivity.
    + subst c. reflexivity.
Qed.

End PhotoNames.

(** ** The legacy decoder, and passes with a failing executor *)

Module LegacyDecoder.
Import Wire WireFacts.

(** X26.  The legacy decoder checks nothing but the length: given 20
    header bytes, [_recv_old_json] ignores the magic byte and the
    padding, reads session, sequence number, message id and length at
    their offsets, and returns the next [dlen] bytes as the body; it
    raises [ConnectionError] exactly when fewer than [dlen] bytes
    follow the header. *)
Theorem legacy_decoder_checks_nothing_but_the_length (s : sock) :
  (20 <= length s)%nat ->
  let dlen := Struct.le_int (slice 16 20 s) in
  _recv_old_json s
  = if decide (Z.to_nat dlen <= length s - 20)%nat
    then inr (OldPacket (Struct.le_int (slice 4 8 s)) (Struct.le_int (slice 8 12 s))
                (Struct.le_int (slice 14 16 s)) dlen
                (slice 20 (20 + Z.to_nat dlen) s),
              drop (20 + Z.to_nat dlen) s)
    else inl (Exn "ConnectionError" "socket closed").
Proof.
  intros Hs dlen.
  assert (_recvn s 20 = inr (take 20 s, drop 20 s)) as Hhdr
    by (unfold _recvn; rewrite decide_True by exact Hs; reflexivity).
  unfold _recv_old_json. rewrite Hhdr. cbn [mbind res_bind].
  rewrite (DemuxFacts.unpack_sized _HDR_OLD Struct.Native
             [Struct.cB; Struct.cB; Struct.cx; Struct.cx; Struct.cI; Struct.cI;
              Struct.cx; Struct.cx; Struct.cH; Struct.cI]
             [(Struct.cB, 0%nat); (Struct.cB, 1%nat); (Struct.cx, 2%nat);
              (Struct.cx, 3%nat); (Struct.cI, 4%nat); (Struct.cI, 8%nat);
              (Struct.cx, 12%nat); (Struct.cx, 13%nat); (Struct.cH, 14%nat);
              (Struct.cI, 16%nat)] 20)
    by (reflexivity || (rewrite length_take; lia)).
  cbn [flat_map Struct.field app Struct.size_of Struct.read_int].
  assert (forall a n, (a + n <= 20)%nat ->
            take n (drop a (take 20 s)) = slice a (a + n) s) as Hsl.
  { intros a n Han. unfold slice.
    replace (a + n - a)%nat with n by lia.
    rewrite !take_drop_commute, take_take. f_equal. f_equal. lia. }
  rewrite (Hsl 4%nat 4%nat), (Hsl 8%nat 4%nat), (Hsl 14%nat 2%nat),
    (Hsl 16%nat 4%nat) by lia.
  change (4 + 4)%nat with 8%nat. change (8 + 4)%nat with 12%nat.
  change (14 + 2)%nat with 16%nat. change (16 + 4)%nat with 20%nat.
  fold dlen. unfold _recvn. rewrite length_drop.
  destruct (decide (Z.to_nat dlen <= length s - 20)%nat); [|reflexivity].
  cbn [mbind res_bind]. unfold slice. rewrite drop_drop.
  replace (20 + Z.to_nat dlen - 20)%nat with (Z.to_nat dlen) by lia.
  reflexivity.
Qed.

Lemma legacy_decoder_checks_nothing_but_the_length_witness :
  let s := x00 :: x01 :: drop 2 Samples.old_stream in
  let dlen := Struct.le_int (slice 16 20 s) in
  _recv_old_json s
  = if decide (Z.to_nat dlen <= length s - 20)%nat
    then inr (OldPacket (Struct.le_int (slice 4 8 s)) (Struct.le_int (slice 8 12 s))
                (Struct.le_int (slice 14 16 s)) dlen
                (slice 20 (20 + Z.to_nat dlen) s),
              drop (20 + Z.to_nat dlen) s)
    else inl (Exn "ConnectionError" "socket closed").
Proof.
  apply (legacy_decoder_checks_nothing_but_the_length
           (x00 :: x01 :: drop 2 Samples.old_stream)).
  cbn. lia.
Defined.

End LegacyDecoder.

Module FailedSubmit.
Import Polling PollingFacts Passes PassFacts.

Lemma dispatch_raise history_max raises e : forall markers k k0 alarms,
  raises (k0 + k)%nat = Some e ->
  (forall j, (j < k)%nat -> raises (k0 + j)%nat = None) ->
  (k < length markers)%nat ->
  let '(a, ev, err) := dispatch history_max raises k0 markers alarms in
  err = Some e /\ submitted ev = take k (fname <$> markers).
Proof.
  induction markers as [|r markers IH]; intros k k0 alarms He Hok Hk;
    [cbn in Hk; lia|].
  cbn [dispatch]. destruct k as [|k].
  - rewrite Nat.add_0_r in He. rewrite He. split; reflexivity.
  - assert (raises k0 = None) as H0
      by (rewrite <- (Nat.add_0_r k0); apply Hok; lia).
    rewrite H0.
    specialize (IH k (S k0) (slice_to history_max (entry_of r :: alarms))).
    destruct (dispatch history_max raises (S k0) markers _) as [[a ev] err].
    destruct IH as [-> Hs].
    + rewrite <- He. f_equal. lia.
    + intros j Hj. rewrite <- (Hok (S j)) by lia. f_equal. lia.
    + cbn [length] in Hk. lia.
    + split; [reflexivity|]. rewrite !submitted_cons, Hs. reflexivity.
Qed.

(** X25.  When the [k]-th submit of a pass after seeding that has a
    camera address (not [None], not empty) raises, the jobs of the first
    [k] new markers were submitted and the pass ends with the error
    recorded and [last_check] untouched; the remaining new markers are
    already in the known set and are submitted neither in that pass nor
    in any later one. *)
Theorem markers_behind_a_failed_submit_are_never_notified
    (history_max poll_interval_sec : Z) (c : cycle) (cs : list cycle)
    (s : store) (addr : string) (rows : list row) (k : nat) (e : exn) :
  ip c = Some addr -> nonempty addr = true -> fetched c = inr rows ->
  submit_raises c k = Some e ->
  (forall j, (j < k)%nat -> submit_raises c j = None) ->
  let known := added_elsewhere c ∪ known_files s in
  let sorted := sort_by by_begin_time (snd (fst (check_rows rows known))) in
  (k < length sorted)%nat ->
  let '(st1, ev1) := poll_cycle history_max poll_interval_sec c (true, s) in
  let '(st2, ev2) := alarm_poll_loop history_max poll_interval_sec cs st1 in
  submitted ev1 = take k (fname <$> sorted) /\
  polling_last_error (snd st1) = Some (exn_msg e) /\
  last_check (snd st1) = last_check s /\
  forall r, r ∈ drop k sorted ->
            fname r ∈ known_files (snd st1) /\
            fname r ∉ submitted (ev1 ++ ev2).
Proof.
  intros Hip Haddr Hf He Hok known sorted Hk. unfold poll_cycle.
  rewrite Hip, Haddr, Hf. cbn [negb]. fold known.
  pose proof (check_rows_spec rows known) as Hspec.
  subst sorted.
  destruct (check_rows rows known) as [[kn new] ev]. cbn [fst snd] in *.
  destruct Hspec as (_ & Hnd & Hnew & Hsub & _).
  pose proof (dispatch_raise history_max (submit_raises c) e
                (sort_by by_begin_time new) k 0%nat (alarms s) He Hok Hk) as Hd.
  destruct (dispatch _ _ _ _ _) as [[alarms' ev'] err]. destruct Hd as [-> Hs].
  pose proof (loop_fresh history_max poll_interval_sec cs
                (true, mkStore kn alarms' (Some (exn_msg e)) (last_check s)))
    as Hl.
  destruct (alarm_poll_loop _ _ cs _) as [st2 ev2].
  cbn [fst snd known_files polling_last_error last_check] in *.
  destruct Hl as [_ Hfresh].
  assert (submitted (Acquire :: ev ++ Release :: ev'
                       ++ [Sleep (Z.max 1 poll_interval_sec)])
          = take k (fname <$> sort_by by_begin_time new)) as Hev1.
  { rewrite submitted_cons, submitted_app, submitted_cons, submitted_app.
    rewrite Hsub, Hs. cbn. apply app_nil_r. }
  split; [exact Hev1|]. split; [reflexivity|]. split; [reflexivity|].
  intros r Hr.
  assert (r ∈ new) as Hrn.
  { rewrite <- (SortFacts.sort_by_perm by_begin_time new).
    rewrite <- (take_drop k (sort_by by_begin_time new)).
    apply elem_of_app. right. exact Hr. }
  destruct (Hnew r Hrn) as [_ Hin]. split; [exact Hin|].
  rewrite submitted_app, Hev1. intros H. apply elem_of_app in H as [H|H].
  - assert (NoDup (fname <$> sort_by by_begin_time new)) as Hnds
      by (rewrite SortFacts.sort_by_perm; exact Hnd).
    rewrite <- (take_drop k (sort_by by_begin_time new)), fmap_app in Hnds.
    apply NoDup_app in Hnds as (_ & Hdisj & _).
    rewrite <- fmap_take in H. apply (Hdisj _ H).
    apply list_elem_of_fmap. exists r. auto.
  - exact (Hfresh _ H Hin).
Qed.

Lemma markers_behind_a_failed_submit_are_never_notified_witness :
  let '(st1, ev1) := poll_cycle 100 10 Cases.failing_pass
                       (true, Samples.empty_store) in
  let '(st2, ev2) := alarm_poll_loop 100 10 [Samples.pass Samples.three_rows]
                       st1 in
  submitted ev1
  = take 1 (fname <$> sort_by by_begin_time
              (snd (fst (check_rows Samples.three_rows
                           (added_elsewhere Cases.failing_pass
                            ∪ known_files Samples.empty_store))))) /\
  polling_last_error (snd st1)
  = Some (exn_msg (Exn "RuntimeError"
                     "cannot schedule new futures after shutdown")) /\
  last_check (snd st1) = last_check Samples.empty_store /\
  forall r,
    r ∈ drop 1 (sort_by by_begin_time
                  (snd (fst (check_rows Samples.three_rows
                               (added_elsewhere Cases.failing_pass
                                ∪ known_files Samples.empty_store))))) ->
    fname r ∈ known_files (snd st1) /\
    fname r ∉ submitted (ev1 ++ ev2).
Proof.
  apply (markers_behind_a_failed_submit_are_never_notified 100 10
           Cases.failing_pass [Samples.pass Samples.three_rows]
           Samples.empty_store "192.168.1.10" Samples.three_rows 1%nat
           (Exn "RuntimeError" "cannot schedule new futures after shutdown"));
    try reflexivity.
  - intros j Hj. destruct j; [reflexivity|lia].
  - vm_compute. lia.
Defined.

End FailedSubmit.
